(** * The OPFS SyncAccessHandle pool VFS (sqlite3-vfs-opfs-sahpool.js)

    A shallow embedding of the classes [OpfsSAHPool] and [SAHPoolUtil] and of
    the [sqlite3_vfs] / [sqlite3_io_methods] implementations of
    [src/ext/wasm/api/sqlite3-vfs-opfs-sahpool.js], followed by the
    properties of the pool that the specification lists.

    Conventions of the embedding:
    - a [Uint8Array] is a [list Z] of values in [0,256); a JS string is
      given by its UTF-8 code units, as a Rocq [string], so [TextEncoder]
      hands out the bytes of the string, and [TextDecoder] is the UTF-8
      decoder of the Encoding Standard, which replaces what is ill-formed
      and drops a leading byte-order mark;
    - a JS [Number] is an IEEE-754 binary64 value, [spec_float] with the
      operations of [SpecFloat] at precision 53 and [emax = 1024]; integers
      that the code only compares, counts or masks are [Z] or [nat];
    - a [Map] is a [gmap]; the [Set] of available handles is a duplicate-free
      list in insertion order, because [nextAvailableSAH] takes its first
      element;
    - methods are functions in a state-and-exception monad over the record
      [St], which holds the fields of the pool object together with the
      OPFS directory the pool works on. *)

From Stdlib Require Import ZArith List Ascii String Lia.
From Stdlib Require Import Floats.SpecFloat.
From stdpp Require Import base option list gmap strings fin_maps.

Local Open Scope Z_scope.

(** ** Configuration constants (lines 62-69) *)

Definition SECTOR_SIZE : nat := 4096.
Definition HEADER_MAX_PATH_SIZE : nat := 512.
Definition HEADER_FLAGS_SIZE : nat := 4.
Definition HEADER_DIGEST_SIZE : nat := 8.
Definition HEADER_CORPUS_SIZE : nat := (HEADER_MAX_PATH_SIZE + HEADER_FLAGS_SIZE)%nat.
Definition HEADER_OFFSET_FLAGS : nat := HEADER_MAX_PATH_SIZE.
Definition HEADER_OFFSET_DIGEST : nat := HEADER_CORPUS_SIZE.
Definition HEADER_OFFSET_DATA : nat := SECTOR_SIZE.

(** The [capi.SQLITE_*] values are those of [sqlite3.h]; the file under
    verification only refers to them by name. *)
Definition SQLITE_OPEN_READWRITE : Z := 0x2.
Definition SQLITE_OPEN_CREATE : Z := 0x4.
Definition SQLITE_OPEN_DELETEONCLOSE : Z := 0x8.
Definition SQLITE_OPEN_MAIN_DB : Z := 0x100.
Definition SQLITE_OPEN_TEMP_DB : Z := 0x200.
Definition SQLITE_OPEN_MAIN_JOURNAL : Z := 0x800.
Definition SQLITE_OPEN_SUPER_JOURNAL : Z := 0x4000.
Definition SQLITE_OPEN_WAL : Z := 0x80000.

Definition SQLITE_OK : Z := 0.
Definition SQLITE_IOERR : Z := 10.
Definition SQLITE_CANTOPEN : Z := 14.
Definition SQLITE_IOERR_SHORT_READ : Z := 522.
Definition SQLITE_IOERR_DELETE : Z := 2570.
Definition SQLITE_LOCK_NONE : Z := 0.

Definition PERSISTENT_FILE_TYPES : Z :=
  Z.lor (Z.lor (Z.lor SQLITE_OPEN_MAIN_DB SQLITE_OPEN_MAIN_JOURNAL)
               SQLITE_OPEN_SUPER_JOURNAL)
        SQLITE_OPEN_WAL.

(** ** Byte arrays, text and typed-array views *)

Definition textEncode (s : string) : list Z :=
  (fun c => Z.of_N (N_of_ascii c)) <$> list_ascii_of_string s.

(** [textDecoder.decode(bytes)], with [new TextDecoder()] (line 87): UTF-8,
    not fatal, the byte-order mark not ignored. The decoder of the Encoding
    Standard, its output given as UTF-8 code units again: a well-formed
    sequence is copied, and U+FFFD stands for every ill-formed one. *)
Definition REPLACEMENT_CHARACTER : list Z := [0xEF; 0xBF; 0xBD].

(** A byte met while no sequence is open: the output, then the number of
    continuation bytes needed, the bounds of the next one, and the bytes of
    the sequence so far. *)
Definition utf8_lead (b : Z) : list Z * (nat * Z * Z * list Z) :=
  if b <=? 0x7F then ([b], (0%nat, 0x80, 0xBF, []))
  else if (0xC2 <=? b) && (b <=? 0xDF) then ([], (1%nat, 0x80, 0xBF, [b]))
  else if (0xE0 <=? b) && (b <=? 0xEF) then
    ([], (2%nat, (if b =? 0xE0 then 0xA0 else 0x80),
                 (if b =? 0xED then 0x9F else 0xBF), [b]))
  else if (0xF0 <=? b) && (b <=? 0xF4) then
    ([], (3%nat, (if b =? 0xF0 then 0x90 else 0x80),
                 (if b =? 0xF4 then 0x8F else 0xBF), [b]))
  else (REPLACEMENT_CHARACTER, (0%nat, 0x80, 0xBF, [])).

(** The decoder loop: a byte outside the bounds closes the open sequence
    with U+FFFD and is looked at again as a first byte; the end of the
    input inside a sequence gives U+FFFD. *)
Fixpoint utf8_decode (l : list Z) (needed : nat) (lower upper : Z) (seen : list Z)
  : list Z :=
  match l with
  | [] => match needed with O => [] | S _ => REPLACEMENT_CHARACTER end
  | b :: l' =>
      match needed with
      | O =>
          let '(out, (n, lo, up, sn)) := utf8_lead b in
          out ++ utf8_decode l' n lo up sn
      | S k =>
          if (lower <=? b) && (b <=? upper) then
            match k with
            | O => (seen ++ [b]) ++ utf8_decode l' 0 0x80 0xBF []
            | S _ => utf8_decode l' k 0x80 0xBF (seen ++ [b])
            end
          else
            let '(out, (n, lo, up, sn)) := utf8_lead b in
            REPLACEMENT_CHARACTER ++ out ++ utf8_decode l' n lo up sn
      end
  end.

(** A byte-order mark U+FEFF at the start of the output is left out. *)
Definition strip_bom (l : list Z) : list Z :=
  if bool_decide (take 3 l = [0xEF; 0xBB; 0xBF]) then drop 3 l else l.

Definition textDecode (l : list Z) : string :=
  string_of_list_ascii
    ((fun b => ascii_of_N (Z.to_N b)) <$> strip_bom (utf8_decode l 0 0x80 0xBF [])).

(** [TypedArray.set]-like overlay: the bytes of [src] replace the first
    [length src] bytes of [buf]; the rest of [buf] keeps its old content. *)
Definition overlay (src buf : list Z) : list Z :=
  take (length buf) src ++ drop (length src) buf.

(** [DataView.setUint32(off, v)] and [getUint32(off)] are big-endian. *)
Definition be32 (v : Z) : list Z :=
  let w := v mod 2^32 in
  [ (w / 2^24) mod 256; (w / 2^16) mod 256; (w / 2^8) mod 256; w mod 256 ].

Definition of_be32 (l : list Z) : Z :=
  fold_left (fun acc b => acc * 256 + b) (take 4 l) 0.

(** A [Uint32Array] handed to [read]/[write] is seen through its buffer, in
    the byte order of the platform, little-endian on every WASM host. *)
Definition le32 (v : Z) : list Z :=
  let w := v mod 2^32 in
  [ w mod 256; (w / 2^8) mod 256; (w / 2^16) mod 256; (w / 2^24) mod 256 ].

Definition of_le32 (l : list Z) : Z :=
  fold_right (fun b acc => b + 256 * acc) 0 (take 4 l).

(** ** FileSystemSyncAccessHandle operations on the content of one file *)

(** [read(buf, {at})] delivers at most [len] bytes starting at [at]. *)
Definition sah_read (c : list Z) (at_ len : nat) : list Z :=
  take len (drop at_ c).

(** [write(data, {at})]: a write past the end first pads with zero bytes. *)
Definition sah_write (c : list Z) (at_ : nat) (data : list Z) : list Z :=
  take at_ c ++ replicate (at_ - length c) 0 ++ data
    ++ drop (at_ + length data) c.

(** [truncate(n)] cuts the file or extends it with zero bytes. *)
Definition sah_truncate (c : list Z) (n : nat) : list Z :=
  take n c ++ replicate (n - length c) 0.

(** ** JS numbers *)

Definition JsNum := spec_float.

Definition num_of_Z (z : Z) : JsNum := binary_normalize 53 1024 z 0 false.
Definition num_mul : JsNum -> JsNum -> JsNum := SFmul 53 1024.
Definition num_add : JsNum -> JsNum -> JsNum := SFadd 53 1024.

(** [x >>> 0], that is [ToUint32]: NaN, the infinities and the zeros give 0,
    a finite value is truncated toward zero and reduced modulo [2^32]. *)
Definition to_uint32 (x : JsNum) : Z :=
  match x with
  | S754_finite s m e =>
      let a := if (0 <=? e) then Z.pos m * 2 ^ e else Z.pos m / 2 ^ (- e) in
      (if s then - a else a) mod 2^32
  | _ => 0
  end.

(** [computeDigest] (lines 312-320). *)
Definition computeDigest (byteArray : list Z) : Z * Z :=
  let step (h : JsNum) (v : Z) :=
    num_add (num_mul (num_of_Z 31) h) (num_mul (num_of_Z v) (num_of_Z 307)) in
  let h1 := fold_left step byteArray (num_of_Z 0xdeadbeef) in
  let h2 := fold_left step byteArray (num_of_Z 0x41c6ce57) in
  (to_uint32 h1, to_uint32 h2).

(** ** The pool object and its environment *)

(** A [FileSystemSyncAccessHandle] is an object with an identity; handles are
    numbered in the order of their creation. *)
Definition SAH := nat.
(** Name of an entry of the OPFS directory of the pool. *)
Definition Name := string.

(** Values thrown by the code ([toss]) or by the host APIs it calls. *)
Inductive Exn : Type :=
  | PathTooLong (path : string)       (* toss("Path too long:",path) *)
  | PoolFull (path : string)          (* toss('SAH pool is full. Cannot create file',path) *)
  | FileNotFound (path : string)      (* toss('file not found:',path), toss("File not found:",name) *)
  | NoAvailableHandles                (* toss("No available handles to import to.") *)
  | InvalidDbSize                     (* toss("Byte array size is invalid for an SQLite db.") *)
  | InvalidDbHeader                   (* toss("Input does not contain an SQLite database header.") *)
  | TypeError                         (* member access on undefined, negative file position *)
  | InvalidStateError                 (* I/O through a closed access handle *)
  | NoModificationAllowedError        (* createSyncAccessHandle() on a locked file *)
  | NotFoundError                     (* removeEntry() of a missing entry *)
  | ReferenceError.                   (* evaluation of a name that no scope binds *)

(** The objects [{path, flags, sah, lockType}] that [xOpen] stores in
    [mapIdToFile] (the [sq3File] wrapper of the C struct is left out). *)
Record OpenFile : Type := mkOpenFile {
  file_path : string;
  file_flags : Z;
  file_sah : SAH;
  file_lockType : Z
}.

Record St : Type := mkSt {
  (* fields of OpfsSAHPool, lines 110-120 *)
  mapSAHToName : gmap SAH Name;
  mapFilenameToSAH : gmap string SAH;
  availableSAH : list SAH;
  mapIdToFile : gmap Z OpenFile;
  apBody : list Z;
  err : option Exn;                      (* this.$error *)
  (* the host: the files of this.dirHandle in listing order, and the
     number of access handles created so far *)
  dirEntries : list (Name * list Z);
  sahCount : nat
}.

Definition set_mapSAHToName (f : gmap SAH Name -> gmap SAH Name) (st : St) : St :=
  mkSt (f (mapSAHToName st)) (mapFilenameToSAH st) (availableSAH st)
       (mapIdToFile st) (apBody st) (err st) (dirEntries st) (sahCount st).
Definition set_mapFilenameToSAH (f : gmap string SAH -> gmap string SAH) (st : St) : St :=
  mkSt (mapSAHToName st) (f (mapFilenameToSAH st)) (availableSAH st)
       (mapIdToFile st) (apBody st) (err st) (dirEntries st) (sahCount st).
Definition set_availableSAH (f : list SAH -> list SAH) (st : St) : St :=
  mkSt (mapSAHToName st) (mapFilenameToSAH st) (f (availableSAH st))
       (mapIdToFile st) (apBody st) (err st) (dirEntries st) (sahCount st).
Definition set_mapIdToFile (f : gmap Z OpenFile -> gmap Z OpenFile) (st : St) : St :=
  mkSt (mapSAHToName st) (mapFilenameToSAH st) (availableSAH st)
       (f (mapIdToFile st)) (apBody st) (err st) (dirEntries st) (sahCount st).
Definition set_apBody (f : list Z -> list Z) (st : St) : St :=
  mkSt (mapSAHToName st) (mapFilenameToSAH st) (availableSAH st)
       (mapIdToFile st) (f (apBody st)) (err st) (dirEntries st) (sahCount st).
Definition set_err (e : option Exn) (st : St) : St :=
  mkSt (mapSAHToName st) (mapFilenameToSAH st) (availableSAH st)
       (mapIdToFile st) (apBody st) e (dirEntries st) (sahCount st).
Definition set_dirEntries (f : list (Name * list Z) -> list (Name * list Z)) (st : St) : St :=
  mkSt (mapSAHToName st) (mapFilenameToSAH st) (availableSAH st)
       (mapIdToFile st) (apBody st) (err st) (f (dirEntries st)) (sahCount st).
Definition set_sahCount (f : nat -> nat) (st : St) : St :=
  mkSt (mapSAHToName st) (mapFilenameToSAH st) (availableSAH st)
       (mapIdToFile st) (apBody st) (err st) (dirEntries st) (f (sahCount st)).

(** [Set.prototype.add] and [delete] on the insertion-ordered list. *)
Definition set_add (x : SAH) (s : list SAH) : list SAH :=
  if bool_decide (x ∈ s) then s else s ++ [x].
Definition set_delete (x : SAH) (s : list SAH) : list SAH :=
  filter (fun y => y ≠ x) s.

(** Directory entries. *)
Definition dir_lookup (nm : Name) (d : list (Name * list Z)) : option (list Z) :=
  snd <$> List.find (fun e => bool_decide (e.1 = nm)) d.
Definition dir_update (nm : Name) (c : list Z) (d : list (Name * list Z))
  : list (Name * list Z) :=
  (fun e => if bool_decide (e.1 = nm) then (nm, c) else e) <$> d.
Definition dir_remove (nm : Name) (d : list (Name * list Z)) : list (Name * list Z) :=
  filter (fun e => e.1 ≠ nm) d.

(** ** State and exception monad *)

Inductive Res (A : Type) : Type :=
  | Ok (a : A)
  | Throw (e : Exn).
Arguments Ok {A} a.
Arguments Throw {A} e.

Definition M (A : Type) : Type := St -> Res A * St.

#[global] Instance M_ret : MRet M := fun A a st => (Ok a, st).
#[global] Instance M_bind : MBind M := fun A B f m st =>
  match m st with
  | (Ok a, st') => f a st'
  | (Throw e, st') => (Throw e, st')
  end.

Definition toss {A} (e : Exn) : M A := fun st => (Throw e, st).
Definition gets {A} (f : St -> A) : M A := fun st => (Ok (f st), st).
Definition modify (f : St -> St) : M unit := fun st => (Ok tt, f st).
(** [try { m } catch(e) { h e }] *)
Definition try_catch {A} (m : M A) (h : Exn -> M A) : M A := fun st =>
  match m st with
  | (Ok a, st') => (Ok a, st')
  | (Throw e, st') => h e st'
  end.

(** *** Host operations through an access handle

    The code closes a handle only together with deleting it from
    [mapSAHToName] ([reduceCapacity], [releaseAccessHandles]) and registers
    it there right after creating it, so a handle is open exactly while it is
    a key of that map; any use of another handle throws. *)
Definition sah_content (ah : SAH) : M (Name * list Z) := fun st =>
  match mapSAHToName st !! ah with
  | Some nm =>
      match dir_lookup nm (dirEntries st) with
      | Some c => (Ok (nm, c), st)
      | None => (Throw InvalidStateError, st)
      end
  | None => (Throw InvalidStateError, st)
  end.

Definition sah_put (nm : Name) (c : list Z) : M unit :=
  modify (set_dirEntries (dir_update nm c)).

(** [ah.read(buf,{at})] for a buffer of [len] bytes: the bytes delivered. *)
Definition sahRead (ah : SAH) (at_ len : nat) : M (list Z) :=
  '(_, c) ← sah_content ah; mret (sah_read c at_ len).
(** [ah.write(data,{at})]: the number of bytes written. *)
Definition sahWrite (ah : SAH) (at_ : nat) (data : list Z) : M nat :=
  '(nm, c) ← sah_content ah;
  sah_put nm (sah_write c at_ data);;
  mret (length data).
Definition sahTruncate (ah : SAH) (n : nat) : M unit :=
  '(nm, c) ← sah_content ah; sah_put nm (sah_truncate c n).
Definition sahGetSize (ah : SAH) : M nat :=
  '(_, c) ← sah_content ah; mret (length c).
Definition sahFlush (ah : SAH) : M unit :=
  sah_content ah;; mret tt.

(** Dereferencing a value that may be [undefined]. *)
Definition deref {A} (x : option A) : M A :=
  match x with Some a => mret a | None => toss TypeError end.

(** ** class OpfsSAHPool *)

Definition getCapacity (st : St) : nat := size (mapSAHToName st).
Definition getFileCount (st : St) : nat := size (mapFilenameToSAH st).

(** [Array.prototype.findIndex((v)=>0===v)]: the index, or -1. *)
Fixpoint findIndex0 (l : list Z) (i : Z) : Z :=
  match l with
  | [] => -1
  | v :: l' => if v =? 0 then i else findIndex0 l' (i + 1)
  end.

(** [subarray(0, e)]: a negative [e] counts from the end. *)
Definition subarray0 (l : list Z) (e : Z) : list Z :=
  let len := Z.of_nat (length l) in
  let e' := if e <? 0 then Z.max (len + e) 0 else Z.min e len in
  take (Z.to_nat e') l.

(** [textEncoder.encodeInto(path, this.apBody)]: returns [enc.written]. Of
    a name longer than the buffer the bytes up to the end of the buffer
    are written; the host stops at the last character that fits whole, at
    most three bytes earlier, and [setAssociatedPath] throws either way. *)
Definition encodeInto (path : string) : M nat :=
  body ← gets apBody;
  let bytes := textEncode path in
  modify (set_apBody (overlay bytes));;
  mret (Nat.min (length bytes) (length body)).

(** [this.dvBody.setUint32(off, v)] and [getUint32(off)] on [apBody]. *)
Definition dvBody_setUint32 (off : nat) (v : Z) : M unit :=
  modify (set_apBody (fun b => take off b ++ overlay (be32 v) (drop off b))).
Definition dvBody_getUint32 (off : nat) (st : St) : Z :=
  of_be32 (drop off (apBody st)).

(** [setAssociatedPath(sah, path, flags)] (lines 285-306). [xOpen] can pass
    [undefined] for [sah], the result of [nextAvailableSAH()] on an empty
    set. *)
Definition setAssociatedPath (sah : option SAH) (path : string) (flags : Z) : M unit :=
  written ← encodeInto path;
  if bool_decide (HEADER_MAX_PATH_SIZE ≤ written)%nat then toss (PathTooLong path)
  else
    dvBody_setUint32 HEADER_OFFSET_FLAGS flags;;
    body ← gets apBody;
    let digest := computeDigest body in
    ah ← deref sah;
    sahWrite ah 0 body;;
    sahWrite ah HEADER_OFFSET_DIGEST (le32 digest.1 ++ le32 digest.2);;
    sahFlush ah;;
    if bool_decide (path ≠ EmptyString) then
      modify (set_mapFilenameToSAH (insert path ah));;
      modify (set_availableSAH (set_delete ah))
    else
      sahTruncate ah HEADER_OFFSET_DATA;;
      modify (set_availableSAH (set_add ah)).

(** [warn(...)] (lines 251 and 273). The name [warn] is bound by a [const]
    of the body of [installOpfsSAHPoolVfs] (line 701) only. The class
    [OpfsSAHPool] is declared outside of that function, next to [toss] and
    [capi] (lines 56-60), where nothing binds [warn]: evaluating the callee
    throws a [ReferenceError] before any argument is looked at. *)
Definition warn : M unit := toss ReferenceError.

(** [getAssociatedPath(sah)] (lines 243-277). *)
Definition getAssociatedPath (sah : SAH) : M string :=
  n ← gets (fun st => length (apBody st));
  hdr ← sahRead sah 0 n;
  modify (set_apBody (overlay hdr));;
  flags ← gets (dvBody_getUint32 HEADER_OFFSET_FLAGS);
  body ← gets apBody;
  if bool_decide (body !! 0%nat ≠ Some 0 ∧ body !! 0%nat ≠ None)
     && (bool_decide (Z.land flags SQLITE_OPEN_DELETEONCLOSE ≠ 0)
         || bool_decide (Z.land flags PERSISTENT_FILE_TYPES = 0))
  then
    warn;;
    setAssociatedPath (Some sah) EmptyString 0;;
    mret EmptyString
  else
    dg ← sahRead sah HEADER_OFFSET_DIGEST HEADER_DIGEST_SIZE;
    let raw := overlay dg (replicate HEADER_DIGEST_SIZE 0) in
    let fileDigest := (of_le32 raw, of_le32 (drop 4 raw)) in
    let compDigest := computeDigest body in
    if bool_decide (fileDigest = compDigest) then
      let pathBytes := findIndex0 body 0 in
      (if bool_decide (pathBytes = 0) then sahTruncate sah HEADER_OFFSET_DATA
       else mret tt);;
      mret (if bool_decide (pathBytes ≠ 0)
            then textDecode (subarray0 body pathBytes)
            else EmptyString)
    else
      warn;;
      setAssociatedPath (Some sah) EmptyString 0;;
      mret EmptyString.

(** [dirHandle.getFileHandle(name,{create:true})] followed by
    [createSyncAccessHandle()]: the entry is created empty when missing; a
    file on which a handle is open is locked. *)
Definition holds_lock (m : gmap SAH Name) (nm : Name) : bool :=
  bool_decide (nm ∈ (map_to_list m).*2).

Definition createSyncAccessHandle (nm : Name) : M SAH :=
  locked ← gets (fun st => holds_lock (mapSAHToName st) nm);
  if locked : bool then toss NoModificationAllowedError
  else
    ah ← gets sahCount;
    modify (set_sahCount S);;
    mret ah.

Definition getFileHandle_create (nm : Name) : M unit :=
  modify (set_dirEntries (fun d =>
    match dir_lookup nm d with Some _ => d | None => d ++ [(nm, [])] end)).

(** [addCapacity(n)] (lines 153-162); [names] lists the [n] results of
    [getRandomName()], one per iteration. *)
Fixpoint addCapacity (names : list Name) : M nat :=
  match names with
  | [] => gets getCapacity
  | name :: rest =>
      getFileHandle_create name;;
      ah ← createSyncAccessHandle name;
      modify (set_mapSAHToName (insert ah name));;
      setAssociatedPath (Some ah) EmptyString 0;;
      addCapacity rest
  end.

(** [dirHandle.removeEntry(name)]; [name] is [undefined] when the handle was
    not a key of [mapSAHToName]. *)
Definition removeEntry (name : option Name) : M unit :=
  d ← gets dirEntries;
  match name with
  | Some nm =>
      if bool_decide (is_Some (dir_lookup nm d))
      then modify (set_dirEntries (dir_remove nm))
      else toss NotFoundError
  | None => toss NotFoundError
  end.

(** [reduceCapacity(n)] (lines 169-183): the loop runs over
    [Array.from(this.availableSAH)], a copy taken before the first
    iteration. *)
Fixpoint reduceCapacity_loop (n : Z) (snapshot : list SAH) (nRm : Z) : M Z :=
  match snapshot with
  | [] => mret nRm
  | ah :: rest =>
      full ← gets (fun st => bool_decide (getFileCount st = getCapacity st));
      if bool_decide (nRm = n) || full then mret nRm
      else
        name ← gets (fun st => mapSAHToName st !! ah);
        (* ah.close(): the handle leaves mapSAHToName below *)
        removeEntry name;;
        modify (set_mapSAHToName (delete ah));;
        modify (set_availableSAH (set_delete ah));;
        reduceCapacity_loop n rest (nRm + 1)
  end.

Definition reduceCapacity (n : Z) : M Z :=
  snapshot ← gets availableSAH;
  reduceCapacity_loop n snapshot 0.

(** [releaseAccessHandles()] (lines 188-193). *)
Definition releaseAccessHandles : M unit :=
  modify (set_mapSAHToName (fun _ => ∅));;
  modify (set_mapFilenameToSAH (fun _ => ∅));;
  modify (set_availableSAH (fun _ => [])).

Definition storeErr (e : option Exn) : M unit := modify (set_err e).
Definition popErr : M (option Exn) :=
  rc ← gets err; modify (set_err None);; mret rc.

(** [acquireAccessHandles(clearFiles)] (lines 206-234). The callbacks given
    to [Promise.all] each run to completion once their handle is there; they
    are taken in the order of the directory listing. [acquire_one] is one
    callback. *)
Definition acquire_one (clearFiles : bool) (name : Name) : M unit :=
  try_catch
    (ah ← createSyncAccessHandle name;
     modify (set_mapSAHToName (insert ah name));;
     if clearFiles then
       sahTruncate ah HEADER_OFFSET_DATA;;
       setAssociatedPath (Some ah) EmptyString 0
     else
       path ← getAssociatedPath ah;
       if bool_decide (path ≠ EmptyString) then
         modify (set_mapFilenameToSAH (insert path ah))
       else
         modify (set_availableSAH (set_add ah)))
    (fun e => storeErr (Some e);; releaseAccessHandles;; toss e).

(** [Promise.all] over the callbacks: it is rejected with what the first
    failing callback throws, and it cancels nothing: the callbacks behind a
    failing one still run, on the maps that [releaseAccessHandles] has
    emptied. The state is the one in which every callback has settled. *)
Fixpoint acquire_all (clearFiles : bool) (files : list Name) : M unit := fun st =>
  match files with
  | [] => (Ok tt, st)
  | name :: rest =>
      match acquire_one clearFiles name st with
      | (Ok _, st1) => acquire_all clearFiles rest st1
      | (Throw e, st1) => (Throw e, (acquire_all clearFiles rest st1).2)
      end
  end.

Definition acquireAccessHandles (clearFiles : bool) : M unit :=
  files ← gets (fun st => (dirEntries st).*1);
  acquire_all clearFiles files.

(** [reset(clearFiles)] (lines 329-343); the directory of the pool is the one
    of the state. *)
Definition reset (clearFiles : bool) : M unit :=
  releaseAccessHandles;;
  acquireAccessHandles clearFiles.

(** [deletePath(path)] (lines 365-373). *)
Definition deletePath (path : string) : M bool :=
  sah ← gets (fun st => mapFilenameToSAH st !! path);
  match sah with
  | Some ah =>
      modify (set_mapFilenameToSAH (delete path));;
      setAssociatedPath (Some ah) EmptyString 0;;
      mret true
  | None => mret false
  end.

(** [nextAvailableSAH()] (lines 394-397): [undefined] on an empty set. *)
Definition nextAvailableSAH (st : St) : option SAH := head (availableSAH st).

(** The pool object right after its field initialisers, over a directory
    with the given entries. *)
Definition new_pool (dir : list (Name * list Z)) : St :=
  mkSt ∅ ∅ [] ∅ (replicate HEADER_CORPUS_SIZE 0) None dir 0.

(** The constructor (lines 122-140): [isReady] is the reset followed, when
    the directory holds no file, by [addCapacity(initialCapacity)];
    [initialCapacity] lists the random names as in [addCapacity]. *)
Definition OpfsSAHPool_isReady (clearOnInit : bool) (initialCapacity : list Name) : M unit :=
  reset clearOnInit;;
  e ← gets err;
  match e with
  | Some ex => toss ex
  | None =>
      cap ← gets getCapacity;
      if bool_decide (cap ≠ 0%nat) then mret tt
      else addCapacity initialCapacity;; mret tt
  end.

(** ** class SAHPoolUtil *)

(** [exportFile(name)] (lines 435-441). *)
Definition exportFile (name : string) : M (list Z) :=
  sah ← gets (fun st => mapFilenameToSAH st !! name);
  match sah with
  | None => toss (FileNotFound name)
  | Some ah =>
      sz ← sahGetSize ah;
      let n := Z.of_nat sz - Z.of_nat HEADER_OFFSET_DATA in
      let b := replicate (Z.to_nat (if 0 <=? n then n else 0)) 0 in
      if 0 <? n then
        got ← sahRead ah HEADER_OFFSET_DATA (length b);
        mret (overlay got b)
      else mret b
  end.

(** The loop of [importDb] over the characters of ["SQLite format 3"]:
    [true] when some [header.charCodeAt(i) !== bytes[i]]. *)
Fixpoint header_mismatch (header bytes : list Z) : bool :=
  match header, bytes with
  | [], _ => false
  | _ :: _, [] => true
  | h :: header', b :: bytes' =>
      if bool_decide (h ≠ b) then true else header_mismatch header' bytes'
  end.

(** [importDb(name, bytes)] (lines 443-459). *)
Definition importDb (name : string) (bytes : list Z) : M unit :=
  let n := length bytes in
  if bool_decide (n < 512)%nat || bool_decide (n mod 512 ≠ 0)%nat
  then toss InvalidDbSize
  else if header_mismatch (textEncode "SQLite format 3") bytes
  then toss InvalidDbHeader
  else
    mapped ← gets (fun st => mapFilenameToSAH st !! name);
    next ← gets nextAvailableSAH;
    match (match mapped with Some ah => Some ah | None => next end) with
    | None => toss NoAvailableHandles
    | Some sah =>
        sahWrite sah HEADER_OFFSET_DATA bytes;;
        setAssociatedPath (Some sah) name SQLITE_OPEN_MAIN_DB
    end.

Definition wipeFiles : M unit := reset true.
Definition unlink (filename : string) : M bool := deletePath filename.

(** ** sqlite3_io_methods and sqlite3_vfs implementations

    A [sqlite3_file*] is a [Z]. [xOpen] takes the value of
    [(zName && wasm.peek8(zName)) ? thePool.getPath(zName) : getRandomName()]
    as its [path]; the WASM heap region [pDest, pDest+n) of [xRead] and
    [pSrc, pSrc+n) of [xWrite] is a list of [n] bytes. *)

(** [xOpen] (lines 932-967). *)
Definition xOpen (path : string) (pFile : Z) (flags : Z) : M Z :=
  try_catch
    (found ← gets (fun st => mapFilenameToSAH st !! path);
     sah ← (if bool_decide (found = None)
               && bool_decide (Z.land flags SQLITE_OPEN_CREATE ≠ 0)
            then
              room ← gets (fun st => bool_decide (getFileCount st < getCapacity st)%nat);
              if room : bool then
                next ← gets nextAvailableSAH;
                setAssociatedPath next path flags;;
                mret next
              else toss (PoolFull path)
            else mret found);
     match sah with
     | None => toss (FileNotFound path)
     | Some ah =>
         modify (set_mapIdToFile
                   (insert pFile (mkOpenFile path flags ah SQLITE_LOCK_NONE)));;
         mret SQLITE_OK
     end)
    (fun e => storeErr (Some e);; mret SQLITE_CANTOPEN).

(** [xClose] (lines 761-779). *)
Definition xClose (pFile : Z) : M Z :=
  storeErr None;;
  file ← gets (fun st => mapIdToFile st !! pFile);
  match file with
  | Some f =>
      try_catch
        (sahFlush (file_sah f);;
         modify (set_mapIdToFile (delete pFile));;
         (if bool_decide (Z.land (file_flags f) SQLITE_OPEN_DELETEONCLOSE ≠ 0)
          then deletePath (file_path f);; mret tt
          else mret tt);;
         mret SQLITE_OK)
        (fun e => storeErr (Some e);; mret SQLITE_IOERR)
  | None => mret SQLITE_OK
  end.

(** [xRead] (lines 801-820): the result code and the new content of the
    destination, [dest] being its [n] bytes before the call. *)
Definition xRead (pFile : Z) (dest : list Z) (offset64 : Z) : M (Z * list Z) :=
  storeErr None;;
  file ← gets (fun st => mapIdToFile st !! pFile);
  f ← deref file;
  try_catch
    (let n := length dest in
     let at_ := Z.of_nat HEADER_OFFSET_DATA + offset64 in
     if at_ <? 0 then toss TypeError
     else
       got ← sahRead (file_sah f) (Z.to_nat at_) n;
       let nRead := length got in
       if bool_decide (nRead < n)%nat then
         mret (SQLITE_IOERR_SHORT_READ,
               take nRead (overlay got dest) ++ replicate (n - nRead) 0)
       else mret (SQLITE_OK, overlay got dest))
    (fun e => storeErr (Some e);; mret (SQLITE_IOERR, dest)).

(** [xWrite] (lines 856-870). *)
Definition xWrite (pFile : Z) (src : list Z) (offset64 : Z) : M Z :=
  storeErr None;;
  file ← gets (fun st => mapIdToFile st !! pFile);
  f ← deref file;
  try_catch
    (let at_ := Z.of_nat HEADER_OFFSET_DATA + offset64 in
     if at_ <? 0 then toss TypeError
     else
       nBytes ← sahWrite (file_sah f) (Z.to_nat at_) src;
       mret (if bool_decide (nBytes = length src) then SQLITE_OK else SQLITE_IOERR))
    (fun e => storeErr (Some e);; mret SQLITE_IOERR).

(** [xTruncate] (lines 837-849). *)
Definition xTruncate (pFile : Z) (sz64 : Z) : M Z :=
  storeErr None;;
  file ← gets (fun st => mapIdToFile st !! pFile);
  try_catch
    (f ← deref file;
     let sz := Z.of_nat HEADER_OFFSET_DATA + sz64 in
     if sz <? 0 then toss TypeError
     else sahTruncate (file_sah f) (Z.to_nat sz);; mret SQLITE_OK)
    (fun e => storeErr (Some e);; mret SQLITE_IOERR).

(** [xFileSize] (lines 786-793): the result code and the value poked into
    [pSz64]. *)
Definition xFileSize (pFile : Z) : M (Z * Z) :=
  file ← gets (fun st => mapIdToFile st !! pFile);
  f ← deref file;
  sz ← sahGetSize (file_sah f);
  mret (SQLITE_OK, Z.of_nat sz - Z.of_nat HEADER_OFFSET_DATA).

(** [xDelete] (lines 898-908), on the value of [thePool.getPath(zName)]. *)
Definition xDelete (path : string) : M Z :=
  storeErr None;;
  try_catch (deletePath path;; mret SQLITE_OK)
            (fun e => storeErr (Some e);; mret SQLITE_IOERR_DELETE).

(** ** Operation sequences *)

Inductive Op : Type :=
  | OpAddCapacity (names : list Name)
  | OpReduceCapacity (n : Z)
  | OpOpen (path : string) (pFile : Z) (flags : Z)
  | OpImportDb (name : string) (bytes : list Z)
  | OpUnlink (filename : string)
  | OpDelete (path : string)
  | OpClose (pFile : Z)
  | OpWrite (pFile : Z) (src : list Z) (offset64 : Z)
  | OpTruncate (pFile : Z) (sz64 : Z)
  | OpReset (clearFiles : bool)
  | OpRestart (clearOnInit : bool) (initialCapacity : list Name).

(** The state an operation leaves behind, whether it returns or throws. *)
Definition exec (op : Op) (st : St) : St :=
  match op with
  | OpAddCapacity names => (addCapacity names st).2
  | OpReduceCapacity n => (reduceCapacity n st).2
  | OpOpen path pFile flags => (xOpen path pFile flags st).2
  | OpImportDb name bytes => (importDb name bytes st).2
  | OpUnlink filename => (unlink filename st).2
  | OpDelete path => (xDelete path st).2
  | OpClose pFile => (xClose pFile st).2
  | OpWrite pFile src offset64 => (xWrite pFile src offset64 st).2
  | OpTruncate pFile sz64 => (xTruncate pFile sz64 st).2
  | OpReset clearFiles => (reset clearFiles st).2
  | OpRestart clearOnInit initialCapacity =>
      (* a new session: a new pool object over the same directory *)
      (OpfsSAHPool_isReady clearOnInit initialCapacity (new_pool (dirEntries st))).2
  end.

Definition run (ops : list Op) (st : St) : St :=
  fold_left (fun s op => exec op s) ops st.

(** States the pool can be in: any sequence of operations and restarts,
    from a pool object over an empty directory. *)
Definition reachable (st : St) : Prop :=
  ∃ ops, st = run ops (new_pool []).

(** ** Derived notions used in the statements *)

(** The header buffer after [encodeInto(path)] and [setUint32(flags)]. *)
Definition header_body (body : list Z) (path : string) (flags : Z) : list Z :=
  let b1 := overlay (textEncode path) body in
  take HEADER_OFFSET_FLAGS b1 ++ overlay (be32 flags) (drop HEADER_OFFSET_FLAGS b1).

(** The content of a slot after the two [write] calls of
    [setAssociatedPath]. *)
Definition header_write (c body : list Z) : list Z :=
  sah_write (sah_write c 0 body) HEADER_OFFSET_DIGEST
            (le32 (computeDigest body).1 ++ le32 (computeDigest body).2).

(** [flip_bit c i j]: the file content [c] with bit [j] of byte [i]
    inverted. *)
Definition flip_bit (c : list Z) (i j : nat) : list Z :=
  alter (fun b => Z.lxor b (2 ^ Z.of_nat j)) i c.

(** The structural invariant of the pool: the header buffer has its fixed
    size; the available set has no duplicates and holds open handles only;
    every mapped name is non-empty and maps to an open handle that is not
    available, different names to different handles; every open handle was
    created by this pool and locks an entry of the directory, different
    handles different entries. *)
Record wf (st : St) : Prop := mk_wf {
  wf_body : length (apBody st) = HEADER_CORPUS_SIZE;
  wf_avail_nodup : NoDup (availableSAH st);
  wf_avail_live : ∀ ah, ah ∈ availableSAH st → is_Some (mapSAHToName st !! ah);
  wf_used_live : ∀ path ah,
      mapFilenameToSAH st !! path = Some ah → is_Some (mapSAHToName st !! ah);
  wf_used_avail : ∀ path ah,
      mapFilenameToSAH st !! path = Some ah → ah ∉ availableSAH st;
  wf_used_nonempty : mapFilenameToSAH st !! EmptyString = None;
  wf_used_inj : ∀ p1 p2 ah,
      mapFilenameToSAH st !! p1 = Some ah →
      mapFilenameToSAH st !! p2 = Some ah → p1 = p2;
  wf_names_file : ∀ ah nm,
      mapSAHToName st !! ah = Some nm → is_Some (dir_lookup nm (dirEntries st));
  wf_names_fresh : ∀ ah, is_Some (mapSAHToName st !! ah) → (ah < sahCount st)%nat;
  wf_names_inj : ∀ a1 a2 nm,
      mapSAHToName st !! a1 = Some nm → mapSAHToName st !! a2 = Some nm → a1 = a2;
  wf_dir_nodup : NoDup (dirEntries st).*1
}.

(** The open flags used in the examples: a main database opened for
    reading and writing, created when missing. *)
Definition OPEN_MAIN_DB_CREATE : Z :=
  Z.lor SQLITE_OPEN_CREATE (Z.lor SQLITE_OPEN_READWRITE SQLITE_OPEN_MAIN_DB).

(** A slot whose first 524 bytes are a header buffer followed by the
    digest of that buffer. *)
Definition holds_header (c hb : list Z) : Prop :=
  length hb = HEADER_CORPUS_SIZE ∧
  sah_read c 0 HEADER_CORPUS_SIZE = hb ∧
  sah_read c HEADER_OFFSET_DIGEST HEADER_DIGEST_SIZE =
    le32 (computeDigest hb).1 ++ le32 (computeDigest hb).2.

(** The digest as the specification words it: two 32-bit accumulators,
    seeded with the two constants and updated per byte as
    [acc = 31*acc + byte*307] modulo [2^32]. It is the reference against
    which [computeDigest] is compared. *)
Definition spec_digest (byteArray : list Z) : Z * Z :=
  let step (acc : Z) (v : Z) := (31 * acc + v * 307) mod 2^32 in
  (fold_left step byteArray 0xdeadbeef, fold_left step byteArray 0x41c6ce57).

(** ** Example pools *)

(** The content of the directory entry [nm]. *)
Definition slot_content (nm : Name) (st : St) : list Z :=
  default [] (dir_lookup nm (dirEntries st)).

(** A name of 512 bytes. *)
Definition long_path : string :=
  String "/" (string_of_list_ascii (replicate 511 "a"%char)).

(** The flags of a temporary database, deleted when closed. *)
Definition OPEN_TEMP_DB : Z :=
  Z.lor SQLITE_OPEN_CREATE
    (Z.lor SQLITE_OPEN_READWRITE (Z.lor SQLITE_OPEN_TEMP_DB SQLITE_OPEN_DELETEONCLOSE)).

(** A pool of one available slot. *)
Definition pool_one_slot : St := run [OpAddCapacity ["n1"%string]] (new_pool []).

(** A pool of one slot that holds the database ["/a"], opened and closed
    again. *)
Definition pool_one_file : St :=
  run [OpAddCapacity ["n1"%string];
       OpOpen "/a" 100 OPEN_MAIN_DB_CREATE;
       OpWrite 100 [1; 2; 3] 0;
       OpClose 100] (new_pool []).

(** Three slots; ["/abcdef"], ["/xy"] and ["/xycdef"] are created in this
    order. *)
Definition trace_three_files : list Op :=
  [OpAddCapacity ["n1"%string; "n2"%string; "n3"%string];
   OpOpen "/abcdef" 100 OPEN_MAIN_DB_CREATE;
   OpOpen "/xy" 101 OPEN_MAIN_DB_CREATE;
   OpOpen "/xycdef" 102 OPEN_MAIN_DB_CREATE].

(** Two slots; ["/abcdef"] and then ["/xy"] are created, ["/xy"] is
    written and closed, and the pool grows by one slot. *)
Definition trace_two_files : list Op :=
  [OpAddCapacity ["n1"%string; "n2"%string];
   OpOpen "/abcdef" 100 OPEN_MAIN_DB_CREATE;
   OpOpen "/xy" 101 OPEN_MAIN_DB_CREATE;
   OpWrite 101 [1; 2; 3] 0;
   OpClose 101;
   OpClose 100;
   OpAddCapacity ["n3"%string]].

(** Three slots, one of them in use, and the file [100] open on it. *)
Definition pool_three_slots : St :=
  run [OpAddCapacity ["n1"%string; "n2"%string; "n3"%string];
       OpOpen "/a" 100 OPEN_MAIN_DB_CREATE;
       OpWrite 100 [1; 2; 3] 0] (new_pool []).

(** The counting invariant: used slots plus available slots make up the
    capacity. *)
Definition count_ok (st : St) : Prop :=
  (getFileCount st + length (availableSAH st) = getCapacity st)%nat.

(** The operations that rebuild the maps from a scan of the directory. *)
Definition is_rescan (op : Op) : bool :=
  match op with
  | OpReset _ | OpRestart _ _ => true
  | _ => false
  end.

(** ** Magnitude of the digest accumulators *)

(** Number of binary digits of a mantissa. *)
Definition dg (m : positive) : Z := Z.pos (digits2_pos m).

(** The body of the loop of [computeDigest], the same for both
    accumulators. *)
Definition digest_step (h : JsNum) (v : Z) : JsNum :=
  num_add (num_mul (num_of_Z 31) h) (num_mul (num_of_Z v) (num_of_Z 307)).

(** [grown k h]: the accumulator [h] is [+Infinity], or a positive binary64
    number of at least [31 + 4 * k] binary digits before the point, as it
    is after [k] steps of the loop. *)
Definition grown (k : Z) (h : JsNum) : Prop :=
  h = S754_infinity false
  ∨ ∃ m e, h = S754_finite false m e ∧ 31 + 4 * k <= dg m + e ∧ dg m <= 53 ∧ e <= 971.

(** The addend [v * 307] of a step is [+0] or a positive number. *)
Definition addend_ok (v : Z) : bool :=
  match num_mul (num_of_Z v) (num_of_Z 307) with
  | S754_zero false | S754_finite false _ _ => true
  | _ => false
  end.

(** The step of [spec_digest]. *)
Definition spec_step (acc v : Z) : Z := (31 * acc + v * 307) mod 2^32.

(** ** Further methods of the pool utility and of the VFS *)

(** [reserveMinimumCapacity(min)] (lines 430-433). [rand i] is the result
    of the call of [getRandomName()] in iteration [i] of the loop of
    [addCapacity]. *)
Definition reserveMinimumCapacity (min : Z) (rand : nat -> Name) : M nat :=
  c ← gets getCapacity;
  if Z.of_nat c <? min
  then addCapacity (rand <$> seq 0 (Z.to_nat (min - Z.of_nat c)))
  else mret c.

(** [xSync] (lines 824-836). *)
Definition xSync (pFile : Z) : M Z :=
  storeErr None;;
  file ← gets (fun st => mapIdToFile st !! pFile);
  try_catch
    (f ← deref file;
     sahFlush (file_sah f);;
     mret SQLITE_OK)
    (fun e => storeErr (Some e);; mret SQLITE_IOERR).

(** [xLock] (lines 794-800) and [xUnlock] (lines 850-855): the file object
    of [pFile] gets its [lockType] assigned. *)
Definition xLock (pFile lockType : Z) : M Z :=
  storeErr None;;
  file ← gets (fun st => mapIdToFile st !! pFile);
  f ← deref file;
  modify (set_mapIdToFile
            (insert pFile (mkOpenFile (file_path f) (file_flags f) (file_sah f) lockType)));;
  mret SQLITE_OK.

Definition xUnlock (pFile lockType : Z) : M Z :=
  file ← gets (fun st => mapIdToFile st !! pFile);
  f ← deref file;
  modify (set_mapIdToFile
            (insert pFile (mkOpenFile (file_path f) (file_flags f) (file_sah f) lockType)));;
  mret SQLITE_OK.

(** Number of slots that [reduceCapacity(n)] removes when [nRm] are removed
    already and [avail] are left to visit. *)
Definition removable (n nRm : Z) (avail : nat) : nat :=
  if bool_decide (nRm <= n) then Nat.min (Z.to_nat (n - nRm)) avail else avail.


(** Random names for the examples: ["A"], ["B"], ... *)
Definition rand_letters (i : nat) : Name := String (ascii_of_nat (65 + i)) "".

(** A byte array that [importDb] accepts: 512 bytes that start with the
    15 characters of the magic header. *)
Definition tiny_db : list Z := textEncode "SQLite format 3" ++ replicate 497 0.

(** ** Slots as a scan of the directory finds them *)

(** The content [c] of a directory entry is the slot of the file [path]:
    its first 524 bytes are a header buffer and the digest of it; the
    buffer holds the bytes of the name, none of them zero, then a zero
    byte; its flag word has a persistent file type and not the
    delete-on-close bit; and the name is one that [TextDecoder] gives back
    (well-formed, without a byte-order mark in front). *)
Definition slot_of_file (c : list Z) (path : string) : Prop :=
  let hb := take HEADER_CORPUS_SIZE c in
  let flags := of_be32 (drop HEADER_OFFSET_FLAGS hb) in
  holds_header c hb ∧
  path ≠ EmptyString ∧
  (length (textEncode path) < HEADER_MAX_PATH_SIZE)%nat ∧
  Forall (fun b => b ≠ 0) (textEncode path) ∧
  take (length (textEncode path)) hb = textEncode path ∧
  hb !! length (textEncode path) = Some 0 ∧
  Z.land flags SQLITE_OPEN_DELETEONCLOSE = 0 ∧
  Z.land flags PERSISTENT_FILE_TYPES ≠ 0 ∧
  textDecode (textEncode path) = path.

(** The content [c] is a slot without a file: a header buffer with its
    digest whose first byte is zero, as [setAssociatedPath(sah,'',0)]
    leaves it in a pool that has not encoded a name yet. *)
Definition slot_free (c : list Z) : Prop :=
  let hb := take HEADER_CORPUS_SIZE c in
  holds_header c hb ∧ hb !! 0%nat = Some 0.

(** [scan_ok e p]: the directory entry [e] is the slot of the file [p], or a
    free slot when [p] is [None]. *)
Definition scan_ok (e : Name * list Z) (p : option string) : Prop :=
  match p with
  | Some path => slot_of_file e.2 path
  | None => slot_free e.2
  end.

(** A pool of one slot on which the temporary file ["/t"] is open. *)
Definition pool_temp_file : St :=
  run [OpAddCapacity ["n1"%string]; OpOpen "/t" 100 OPEN_TEMP_DB] (new_pool []).

(** The content of the slot of ["/t"] in [pool_temp_file]. *)
Definition temp_slot : list Z := slot_content "n1" pool_temp_file.


(** A pool of one slot with two file objects open on the file ["/a"]. *)
Definition pool_two_objects : St :=
  run [OpAddCapacity ["n1"];
       OpOpen "/a" 100 OPEN_MAIN_DB_CREATE;
       OpOpen "/a" 101 OPEN_MAIN_DB_CREATE] (new_pool []).
Arguments computeDigest : simpl never.
Arguments textEncode : simpl never.
Arguments overlay : simpl never.
Arguments sah_write : simpl never.
Arguments sah_read : simpl never.
Arguments sah_truncate : simpl never.
Arguments be32 : simpl never.
Arguments le32 : simpl never.
Arguments dir_lookup : simpl never.
Arguments dir_update : simpl never.
Arguments dir_remove : simpl never.
Arguments set_add : simpl never.
Arguments set_delete : simpl never.
Arguments header_body : simpl never.
Arguments header_write : simpl never.

(** * Properties *)

(** ** Bytes and text *)

Lemma textEncode_empty : textEncode EmptyString = [].
Proof. reflexivity. Qed.

Lemma textEncode_nonempty s : s ≠ EmptyString -> (0 < length (textEncode s))%nat.
Proof.
  intros H. destruct s as [|a s]; [contradiction|].
  unfold textEncode. cbn [list_ascii_of_string fmap list_fmap length]. lia.
Qed.

(** The decoder copies ASCII bytes. *)
Lemma utf8_decode_ascii l :
  Forall (fun b => b <= 0x7F) l -> utf8_decode l 0 0x80 0xBF [] = l.
Proof.
  induction 1 as [|b l Hb _ IH]; [reflexivity|].
  cbn [utf8_decode]. unfold utf8_lead.
  rewrite (proj2 (Z.leb_le b 0x7F) Hb). cbn [app]. rewrite IH. reflexivity.
Qed.

Lemma strip_bom_ascii l : Forall (fun b => b <= 0x7F) l -> strip_bom l = l.
Proof.
  intros H. unfold strip_bom. rewrite bool_decide_eq_false_2; [reflexivity|].
  destruct H as [|b l Hb _]; [discriminate|].
  destruct l as [|b1 [|b2 l]]; cbn [take]; intros E; inversion E; subst; lia.
Qed.

(** Decoding what was encoded gives the string back, for ASCII strings. *)
Lemma textDecode_encode s :
  Forall (fun b => b <= 0x7F) (textEncode s) -> textDecode (textEncode s) = s.
Proof.
  intros H. unfold textDecode. rewrite utf8_decode_ascii, strip_bom_ascii by exact H.
  unfold textEncode. rewrite <- list_fmap_compose.
  rewrite <- (string_of_list_ascii_of_string s) at 2. f_equal.
  induction (list_ascii_of_string s) as [|c l IH]; [reflexivity|].
  cbn [fmap list_fmap compose]. rewrite N2Z.id, ascii_N_embedding. f_equal. exact IH.
Qed.

Lemma bytes_of_u32 w :
  0 <= w < 2^32 ->
  w = w mod 256 + 256 * ((w / 2^8) mod 256 + 256 * ((w / 2^16) mod 256
        + 256 * ((w / 2^24) mod 256))).
Proof.
  intros H.
  change (2^8) with 256. change (2^16) with (256*256). change (2^24) with (256*256*256).
  rewrite <- !Z.div_div by lia.
  rewrite (Z.mod_small (w / 256 / 256 / 256)).
  2:{ split.
      - apply Z.div_pos; [|lia]. apply Z.div_pos; [|lia]. apply Z.div_pos; lia.
      - apply Z.div_lt_upper_bound; [lia|]. apply Z.div_lt_upper_bound; [lia|].
        apply Z.div_lt_upper_bound; lia. }
  pose proof (Z.div_mod w 256 ltac:(lia)).
  pose proof (Z.div_mod (w/256) 256 ltac:(lia)).
  pose proof (Z.div_mod (w/256/256) 256 ltac:(lia)).
  lia.
Qed.

Lemma of_le32_le32 v : of_le32 (le32 v) = v mod 2^32.
Proof.
  unfold of_le32, le32. cbn [take fold_right].
  pose proof (bytes_of_u32 (v mod 2^32) (Z.mod_pos_bound v (2^32) ltac:(lia))). lia.
Qed.

Lemma of_le32_app v rest : of_le32 (le32 v ++ rest) = v mod 2^32.
Proof. rewrite <- of_le32_le32. reflexivity. Qed.

Lemma of_be32_be32 v : of_be32 (be32 v) = v mod 2^32.
Proof.
  unfold of_be32, be32. cbn [take fold_left].
  pose proof (bytes_of_u32 (v mod 2^32) (Z.mod_pos_bound v (2^32) ltac:(lia))). lia.
Qed.

Lemma length_be32 v : length (be32 v) = 4%nat.
Proof. reflexivity. Qed.

Lemma length_le32 v : length (le32 v) = 4%nat.
Proof. reflexivity. Qed.

Lemma to_uint32_range x : 0 <= to_uint32 x < 2^32.
Proof. destruct x; simpl; try lia. apply Z.mod_pos_bound. lia. Qed.

Lemma computeDigest_range b :
  0 <= (computeDigest b).1 < 2^32 /\ 0 <= (computeDigest b).2 < 2^32.
Proof. unfold computeDigest. simpl. split; apply to_uint32_range. Qed.

Lemma length_overlay src buf : length (overlay src buf) = length buf.
Proof. unfold overlay. rewrite length_app, length_take, length_drop. lia. Qed.

Lemma overlay_same_length src buf : length src = length buf -> overlay src buf = src.
Proof.
  intros H. unfold overlay. rewrite H, firstn_all2 by lia.
  rewrite drop_all. apply app_nil_r.
Qed.

Lemma overlay_short src buf :
  (length src <= length buf)%nat -> overlay src buf = src ++ drop (length src) buf.
Proof. intros H. unfold overlay. rewrite firstn_all2 by lia. reflexivity. Qed.

Lemma findIndex0_app p rest i :
  Forall (fun b => b ≠ 0) p ->
  findIndex0 (p ++ 0 :: rest) i = i + Z.of_nat (length p).
Proof.
  intros H. revert i. induction H as [|b p Hb _ IH]; intros i; cbn [app findIndex0 length].
  - rewrite Z.eqb_refl. lia.
  - destruct (Z.eqb_spec b 0); [contradiction|]. rewrite IH. lia.
Qed.

(** ** The header inside a slot *)

Lemma length_header_body body path flags :
  length (header_body body path flags) = length body.
Proof.
  unfold header_body. cbv zeta.
  rewrite length_app, length_take, !length_overlay, length_drop, length_overlay. lia.
Qed.

Lemma header_body_shape body path flags :
  length body = HEADER_CORPUS_SIZE ->
  (length (textEncode path) <= HEADER_MAX_PATH_SIZE)%nat ->
  header_body body path flags =
  textEncode path
    ++ take (HEADER_MAX_PATH_SIZE - length (textEncode path))
            (drop (length (textEncode path)) body)
    ++ be32 flags.
Proof.
  intros Hb Hk. unfold header_body. cbv zeta.
  unfold HEADER_CORPUS_SIZE, HEADER_OFFSET_FLAGS, HEADER_MAX_PATH_SIZE, HEADER_FLAGS_SIZE in *.
  rewrite (overlay_short (textEncode path)) by lia.
  rewrite (overlay_same_length (be32 flags)).
  2:{ rewrite length_drop, length_app, length_drop, length_be32. lia. }
  rewrite take_app. rewrite firstn_all2 by lia. rewrite <- app_assoc. reflexivity.
Qed.

Lemma sah_write_0 c data :
  sah_write c 0 data = data ++ drop (length data) c.
Proof. unfold sah_write. rewrite take_0. reflexivity. Qed.

Lemma header_write_shape c body :
  length body = HEADER_CORPUS_SIZE ->
  header_write c body =
  body ++ (le32 (computeDigest body).1 ++ le32 (computeDigest body).2)
       ++ drop (HEADER_CORPUS_SIZE + HEADER_DIGEST_SIZE) c.
Proof.
  intros Hb. unfold header_write. rewrite sah_write_0. unfold sah_write.
  unfold HEADER_OFFSET_DIGEST. rewrite <- Hb.
  rewrite take_app_length. rewrite length_app, length_drop.
  replace (length body - (length body + (length c - length body)))%nat with 0%nat by lia.
  cbn [replicate app]. rewrite drop_app_ge by lia. rewrite drop_drop.
  rewrite length_app, !length_le32. unfold HEADER_DIGEST_SIZE.
  do 3 f_equal. lia.
Qed.

Lemma length_header_write c body :
  length body = HEADER_CORPUS_SIZE ->
  length (header_write c body)
  = ((HEADER_CORPUS_SIZE + HEADER_DIGEST_SIZE) `max` length c)%nat.
Proof.
  intros Hb. rewrite header_write_shape by assumption.
  rewrite !length_app, !length_le32, length_drop, Hb.
  unfold HEADER_DIGEST_SIZE. lia.
Qed.

Lemma sah_read_header c body :
  length body = HEADER_CORPUS_SIZE ->
  sah_read (header_write c body) 0 HEADER_CORPUS_SIZE = body.
Proof.
  intros Hb. rewrite header_write_shape by assumption.
  unfold sah_read. rewrite drop_0, <- Hb. apply take_app_length.
Qed.

Lemma sah_read_digest c body :
  length body = HEADER_CORPUS_SIZE ->
  sah_read (header_write c body) HEADER_OFFSET_DIGEST HEADER_DIGEST_SIZE =
  le32 (computeDigest body).1 ++ le32 (computeDigest body).2.
Proof.
  intros Hb. rewrite header_write_shape by assumption.
  unfold sah_read, HEADER_OFFSET_DIGEST. rewrite <- Hb, drop_app_length.
  apply take_app_length'. rewrite length_app, !length_le32. reflexivity.
Qed.

Lemma sah_read_truncate c at_ len n :
  (at_ + len <= n)%nat -> (n <= length c)%nat ->
  sah_read (sah_truncate c n) at_ len = sah_read c at_ len.
Proof.
  intros H1 H2. unfold sah_read, sah_truncate.
  replace (n - length c)%nat with 0%nat by lia. cbn [replicate]. rewrite app_nil_r.
  rewrite <- (take_drop n c) at 2.
  rewrite drop_app_le by (rewrite length_take; lia).
  rewrite take_app_le by (rewrite length_drop, length_take; lia). reflexivity.
Qed.

Lemma length_sah_truncate c n : length (sah_truncate c n) = n.
Proof. unfold sah_truncate. rewrite length_app, length_take, length_replicate. lia. Qed.

(** ** Directory entries *)

Lemma dir_lookup_update nm c d :
  is_Some (dir_lookup nm d) -> dir_lookup nm (dir_update nm c d) = Some c.
Proof.
  unfold dir_lookup, dir_update. induction d as [|[n x] d IH]; simpl.
  - intros [? H]; discriminate.
  - destruct (bool_decide (n = nm)) eqn:E; simpl.
    + rewrite bool_decide_eq_true_2 by reflexivity. reflexivity.
    + rewrite E. exact IH.
Qed.

Lemma dir_lookup_update_ne nm nm' c d :
  nm ≠ nm' -> dir_lookup nm' (dir_update nm c d) = dir_lookup nm' d.
Proof.
  intros Hne. unfold dir_lookup, dir_update. induction d as [|[n x] d IH]; simpl.
  - reflexivity.
  - destruct (bool_decide (n = nm)) eqn:E; simpl.
    + apply bool_decide_eq_true_1 in E. subst n.
      rewrite !bool_decide_eq_false_2 by congruence. exact IH.
    + destruct (bool_decide (n = nm')); [reflexivity | exact IH].
Qed.

Lemma dir_update_update nm c1 c2 d :
  dir_update nm c2 (dir_update nm c1 d) = dir_update nm c2 d.
Proof.
  unfold dir_update. rewrite <- list_fmap_compose. apply list_fmap_ext.
  intros i [n x] _. simpl. destruct (bool_decide (n = nm)) eqn:E; simpl.
  - rewrite bool_decide_eq_true_2 by reflexivity. reflexivity.
  - rewrite E. reflexivity.
Qed.

Lemma dir_update_names nm c d : (dir_update nm c d).*1 = d.*1.
Proof.
  unfold dir_update. rewrite <- list_fmap_compose. apply list_fmap_ext.
  intros i [n x] _. simpl. destruct (bool_decide (n = nm)) eqn:E; simpl.
  - apply bool_decide_eq_true_1 in E. congruence.
  - reflexivity.
Qed.

Lemma dir_lookup_is_Some nm d : is_Some (dir_lookup nm d) <-> nm ∈ d.*1.
Proof.
  unfold dir_lookup. induction d as [|[n x] d IH]; simpl.
  - split; [intros [? H]; discriminate | intros H; inversion H].
  - destruct (bool_decide (n = nm)) eqn:E; simpl.
    + apply bool_decide_eq_true_1 in E. subst. split; [left | eauto].
    + apply bool_decide_eq_false_1 in E. rewrite IH. split.
      * intros H. right. exact H.
      * intros H. inversion H; subst; [contradiction | assumption].
Qed.

(** ** Monad laws and host operations on an open handle *)

Lemma bind_ok {A B} (m : M A) (f : A -> M B) st a st' :
  m st = (Ok a, st') -> (m ≫= f) st = f a st'.
Proof. intros H. unfold mbind, M_bind. rewrite H. reflexivity. Qed.

Lemma bind_throw {A B} (m : M A) (f : A -> M B) st e st' :
  m st = (Throw e, st') -> (m ≫= f) st = (Throw e, st').
Proof. intros H. unfold mbind, M_bind. rewrite H. reflexivity. Qed.

Lemma bind_gets {A B} (g : St -> A) (f : A -> M B) st :
  (gets g ≫= f) st = f (g st) st.
Proof. reflexivity. Qed.

Lemma bind_modify {B} (g : St -> St) (f : unit -> M B) st :
  (modify g ≫= f) st = f tt (g st).
Proof. reflexivity. Qed.

Lemma bind_ret {A B} (a : A) (f : A -> M B) st : (mret a ≫= f) st = f a st.
Proof. reflexivity. Qed.

Section live_handle.
Context (st : St) (ah : SAH) (nm : Name) (c : list Z).
Hypothesis Hn : mapSAHToName st !! ah = Some nm.
Hypothesis Hd : dir_lookup nm (dirEntries st) = Some c.

Lemma sah_content_live : sah_content ah st = (Ok (nm, c), st).
Proof. unfold sah_content. rewrite Hn, Hd. reflexivity. Qed.

Lemma sahRead_live at_ len : sahRead ah at_ len st = (Ok (sah_read c at_ len), st).
Proof. unfold sahRead. rewrite (bind_ok _ _ _ _ _ sah_content_live). reflexivity. Qed.

Lemma sahGetSize_live : sahGetSize ah st = (Ok (length c), st).
Proof. unfold sahGetSize. rewrite (bind_ok _ _ _ _ _ sah_content_live). reflexivity. Qed.

Lemma sahFlush_live : sahFlush ah st = (Ok tt, st).
Proof. unfold sahFlush. rewrite (bind_ok _ _ _ _ _ sah_content_live). reflexivity. Qed.

Lemma sahTruncate_live n :
  sahTruncate ah n st = (Ok tt, set_dirEntries (dir_update nm (sah_truncate c n)) st).
Proof. unfold sahTruncate. rewrite (bind_ok _ _ _ _ _ sah_content_live). reflexivity. Qed.

Lemma sahWrite_live at_ data :
  sahWrite ah at_ data st =
  (Ok (length data), set_dirEntries (dir_update nm (sah_write c at_ data)) st).
Proof. unfold sahWrite. rewrite (bind_ok _ _ _ _ _ sah_content_live). reflexivity. Qed.
End live_handle.

Ltac munfold :=
  unfold setAssociatedPath, encodeInto, dvBody_setUint32, dvBody_getUint32,
    sahWrite, sahRead, sahTruncate, sahFlush, sahGetSize, sah_content, sah_put, deref,
    storeErr, try_catch,
    mbind, M_bind, mret, M_ret, gets, modify, toss,
    set_apBody, set_dirEntries, set_mapFilenameToSAH, set_availableSAH, set_mapSAHToName,
    set_mapIdToFile, set_err, set_sahCount.

(** [setAssociatedPath] on an open handle, for a path that fits. *)
Lemma setAssociatedPath_live names used avail files body e dir cnt ah nm c path flags :
  names !! ah = Some nm ->
  dir_lookup nm dir = Some c ->
  (length (textEncode path) `min` length body < HEADER_MAX_PATH_SIZE)%nat ->
  setAssociatedPath (Some ah) path flags (mkSt names used avail files body e dir cnt) =
  let body' := header_body body path flags in
  if bool_decide (path ≠ EmptyString) then
    (Ok tt, mkSt names (<[path := ah]> used) (set_delete ah avail) files body' e
                (dir_update nm (header_write c body') dir) cnt)
  else
    (Ok tt, mkSt names used (set_add ah avail) files body' e
                (dir_update nm (sah_truncate (header_write c body') HEADER_OFFSET_DATA) dir)
                cnt).
Proof.
  intros Hn Hd Hlen. munfold. cbn.
  rewrite bool_decide_eq_false_2 by lia.
  cbn. rewrite Hn, Hd. cbn.
  rewrite Hn. rewrite dir_lookup_update by eauto. cbn.
  rewrite Hn. rewrite dir_lookup_update by (rewrite dir_lookup_update; eauto). cbn.
  rewrite !dir_update_update.
  fold (header_body body path flags). fold (header_write c (header_body body path flags)).
  destruct (bool_decide (path ≠ EmptyString)); cbn.
  - reflexivity.
  - rewrite Hn. rewrite dir_lookup_update by eauto. cbn. rewrite dir_update_update.
    reflexivity.
Qed.

(** [setAssociatedPath] with a path of 512 bytes or more: only the header
    buffer changes. *)
Lemma setAssociatedPath_long sah path flags st :
  (HEADER_MAX_PATH_SIZE <= length (textEncode path) `min` length (apBody st))%nat ->
  setAssociatedPath sah path flags st =
  (Throw (PathTooLong path), set_apBody (overlay (textEncode path)) st).
Proof.
  intros H. unfold setAssociatedPath, encodeInto, mbind, M_bind, gets, modify, mret, M_ret.
  cbn [apBody set_apBody].
  rewrite bool_decide_eq_true_2 by exact H. reflexivity.
Qed.

(** [getAssociatedPath] on an open handle. *)
Lemma getAssociatedPath_live names used avail files body e dir cnt ah nm c :
  names !! ah = Some nm ->
  dir_lookup nm dir = Some c ->
  getAssociatedPath ah (mkSt names used avail files body e dir cnt) =
  let body1 := overlay (sah_read c 0 (length body)) body in
  let flags := of_be32 (drop HEADER_OFFSET_FLAGS body1) in
  if bool_decide (body1 !! 0%nat ≠ Some 0 ∧ body1 !! 0%nat ≠ None)
     && (bool_decide (Z.land flags SQLITE_OPEN_DELETEONCLOSE ≠ 0)
         || bool_decide (Z.land flags PERSISTENT_FILE_TYPES = 0))
  then (Throw ReferenceError, mkSt names used avail files body1 e dir cnt)
  else
    let raw := overlay (sah_read c HEADER_OFFSET_DIGEST HEADER_DIGEST_SIZE)
                       (replicate HEADER_DIGEST_SIZE 0) in
    if bool_decide ((of_le32 raw, of_le32 (drop 4 raw)) = computeDigest body1) then
      let pathBytes := findIndex0 body1 0 in
      (Ok (if bool_decide (pathBytes ≠ 0)
           then textDecode (subarray0 body1 pathBytes) else EmptyString),
       mkSt names used avail files body1 e
         (if bool_decide (pathBytes = 0)
          then dir_update nm (sah_truncate c HEADER_OFFSET_DATA) dir else dir) cnt)
    else (Throw ReferenceError, mkSt names used avail files body1 e dir cnt).
Proof.
  intros Hn Hd.
  unfold getAssociatedPath.
  rewrite bind_gets. erewrite bind_ok by (eapply sahRead_live; eassumption).
  rewrite bind_modify, bind_gets, bind_gets.
  unfold dvBody_getUint32, set_apBody. cbn [apBody]. cbv zeta.
  generalize (overlay (sah_read c 0 (length body)) body); intros body1.
  destruct (_ && _).
  - reflexivity.
  - erewrite bind_ok by (eapply sahRead_live; eassumption). cbv zeta.
    destruct (bool_decide (_ = computeDigest _)).
    + destruct (bool_decide (findIndex0 body1 0 = 0)).
      * erewrite bind_ok by (eapply sahTruncate_live; eassumption). reflexivity.
      * reflexivity.
    + reflexivity.
Qed.


Lemma holds_header_write c hb :
  length hb = HEADER_CORPUS_SIZE -> holds_header (header_write c hb) hb.
Proof.
  intros H. split; [exact H|]. split; [apply sah_read_header | apply sah_read_digest]; exact H.
Qed.

Lemma holds_header_truncate c hb :
  holds_header c hb -> (HEADER_CORPUS_SIZE + HEADER_DIGEST_SIZE <= length c)%nat ->
  holds_header (sah_truncate c HEADER_OFFSET_DATA) hb.
Proof.
  intros (H1 & H2 & H3) Hlen. split; [exact H1|].
  unfold HEADER_CORPUS_SIZE, HEADER_OFFSET_DATA, HEADER_OFFSET_DIGEST, HEADER_DIGEST_SIZE,
    HEADER_CORPUS_SIZE, HEADER_MAX_PATH_SIZE, HEADER_FLAGS_SIZE, SECTOR_SIZE in *.
  destruct (decide (4096 <= length c)%nat).
  - rewrite (sah_read_truncate c 0) by lia. rewrite (sah_read_truncate c (512 + 4)) by lia. auto.
  - unfold sah_truncate, sah_read in *. rewrite (firstn_all2 c) by lia.
    rewrite !drop_app_le by lia. rewrite !take_app_le by (rewrite ?length_drop; lia).
    auto.
Qed.

Lemma digest_words_roundtrip hb :
  let dg := le32 (computeDigest hb).1 ++ le32 (computeDigest hb).2 in
  let raw := overlay dg (replicate HEADER_DIGEST_SIZE 0) in
  (of_le32 raw, of_le32 (drop 4 raw)) = computeDigest hb.
Proof.
  cbv zeta. rewrite overlay_same_length by reflexivity.
  rewrite of_le32_app. rewrite drop_app_length' by reflexivity. rewrite of_le32_le32.
  destruct (computeDigest_range hb) as [H1 H2].
  rewrite !Z.mod_small by assumption. destruct (computeDigest hb); reflexivity.
Qed.

(** Decoding a slot that holds a header with its digest: the digest test
    passes, so the outcome depends on the flags and on the first zero byte
    only. *)
Lemma getAssociatedPath_holds_header names used avail files body e dir cnt ah nm c hb :
  names !! ah = Some nm ->
  dir_lookup nm dir = Some c ->
  length body = HEADER_CORPUS_SIZE ->
  holds_header c hb ->
  getAssociatedPath ah (mkSt names used avail files body e dir cnt) =
  let flags := of_be32 (drop HEADER_OFFSET_FLAGS hb) in
  if bool_decide (hb !! 0%nat ≠ Some 0 ∧ hb !! 0%nat ≠ None)
     && (bool_decide (Z.land flags SQLITE_OPEN_DELETEONCLOSE ≠ 0)
         || bool_decide (Z.land flags PERSISTENT_FILE_TYPES = 0))
  then (Throw ReferenceError, mkSt names used avail files hb e dir cnt)
  else
    let pathBytes := findIndex0 hb 0 in
    (Ok (if bool_decide (pathBytes ≠ 0)
         then textDecode (subarray0 hb pathBytes) else EmptyString),
     mkSt names used avail files hb e
       (if bool_decide (pathBytes = 0)
        then dir_update nm (sah_truncate c HEADER_OFFSET_DATA) dir else dir) cnt).
Proof.
  intros Hn Hd Hb (Hl & Hh & Hdg).
  rewrite (getAssociatedPath_live _ _ _ _ _ _ _ _ _ nm c) by assumption. cbv zeta.
  rewrite Hb, Hh, Hdg. rewrite (overlay_same_length hb body) by congruence.
  destruct (_ && _); [reflexivity|].
  pose proof (digest_words_roundtrip hb) as Hr. cbv zeta in Hr. rewrite Hr.
  rewrite bool_decide_eq_true_2 by reflexivity. reflexivity.
Qed.

Lemma header_mismatch_false h bytes :
  header_mismatch h bytes = false <-> take (length h) bytes = h.
Proof.
  revert bytes. induction h as [|x h IH]; intros [|b bytes]; cbn [header_mismatch length take].
  - split; reflexivity.
  - split; reflexivity.
  - split; discriminate.
  - destruct (bool_decide (x ≠ b)) eqn:E.
    + apply bool_decide_eq_true_1 in E. split; [discriminate | congruence].
    + apply bool_decide_eq_false_1 in E. apply dec_stable in E. subst b.
      rewrite IH. split; [congruence | intros H; injection H; auto].
Qed.

Lemma exportFile_live st name ah nm c :
  mapFilenameToSAH st !! name = Some ah ->
  mapSAHToName st !! ah = Some nm ->
  dir_lookup nm (dirEntries st) = Some c ->
  exportFile name st = (Ok (drop HEADER_OFFSET_DATA c), st).
Proof.
  intros Hu Hn Hd. unfold exportFile. rewrite bind_gets, Hu.
  erewrite bind_ok by (eapply sahGetSize_live; eassumption). cbv zeta.
  destruct (Z.ltb_spec 0 (Z.of_nat (length c) - Z.of_nat HEADER_OFFSET_DATA)) as [Hlt|Hge].
  - rewrite (proj2 (Z.leb_le 0 _)) by lia.
    erewrite bind_ok by (eapply sahRead_live; eassumption).
    unfold mret, M_ret. do 2 f_equal.
    rewrite length_replicate. unfold sah_read.
    rewrite firstn_all2 by (rewrite length_drop; lia).
    apply overlay_same_length. rewrite length_drop, length_replicate. lia.
  - unfold mret, M_ret. do 2 f_equal.
    rewrite drop_ge by lia.
    destruct (Z.leb_spec 0 (Z.of_nat (length c) - Z.of_nat HEADER_OFFSET_DATA));
      [replace (Z.of_nat (length c) - Z.of_nat HEADER_OFFSET_DATA) with 0 by lia|];
      reflexivity.
Qed.

Lemma xRead_live st pFile f nm c dest offset64 :
  mapIdToFile st !! pFile = Some f ->
  mapSAHToName st !! file_sah f = Some nm ->
  dir_lookup nm (dirEntries st) = Some c ->
  0 <= offset64 ->
  let past := drop (Z.to_nat offset64) (drop HEADER_OFFSET_DATA c) in
  xRead pFile dest offset64 st =
  if bool_decide (length past < length dest)%nat
  then (Ok (SQLITE_IOERR_SHORT_READ, past ++ replicate (length dest - length past) 0),
        set_err None st)
  else (Ok (SQLITE_OK, take (length dest) past), set_err None st).
Proof.
  intros Hf Hn Hd Hoff past. unfold xRead, storeErr.
  rewrite bind_modify, bind_gets.
  replace (mapIdToFile (set_err None st)) with (mapIdToFile st) by reflexivity.
  rewrite Hf. unfold deref. rewrite bind_ret. unfold try_catch. cbv zeta.
  destruct (Z.ltb_spec (Z.of_nat HEADER_OFFSET_DATA + offset64) 0) as [?|_]; [lia|].
  erewrite bind_ok by (eapply sahRead_live; eassumption).
  replace (sah_read c (Z.to_nat (Z.of_nat HEADER_OFFSET_DATA + offset64)) (length dest))
    with (take (length dest) past).
  2:{ unfold sah_read, past. rewrite drop_drop. f_equal. f_equal. rewrite Z2Nat.inj_add, Nat2Z.id by lia. reflexivity. }
  rewrite length_take.
  destruct (decide (length past < length dest)%nat) as [Hs|Hs].
  - rewrite !bool_decide_eq_true_2 by lia. unfold mret, M_ret. 
    rewrite Nat.min_r by lia. rewrite (firstn_all2 past) by lia.
    rewrite overlay_short by lia. rewrite take_app_length. reflexivity.
  - rewrite !bool_decide_eq_false_2 by lia. unfold mret, M_ret. do 3 f_equal.
    apply overlay_same_length. rewrite length_take. lia.
Qed.

(** [setAssociatedPath] without an open handle: it throws at the first
    [write], after the header buffer was filled. *)
Lemma setAssociatedPath_dead names used avail files body e dir cnt sah path flags :
  (length (textEncode path) `min` length body < HEADER_MAX_PATH_SIZE)%nat ->
  match sah with
  | None => True
  | Some ah => match names !! ah with
               | None => True
               | Some nm => dir_lookup nm dir = None
               end
  end ->
  ∃ ex, setAssociatedPath sah path flags (mkSt names used avail files body e dir cnt) =
        (Throw ex, mkSt names used avail files (header_body body path flags) e dir cnt).
Proof.
  intros Hfit Hdead. munfold. cbn.
  rewrite bool_decide_eq_false_2 by lia. cbn.
  fold (header_body body path flags).
  destruct sah as [ah|]; cbn; [|eauto].
  destruct (names !! ah) as [nm|]; cbn; [|eauto].
  rewrite Hdead. cbn. eauto.
Qed.

(** Every outcome of [setAssociatedPath]: it throws having changed the
    header buffer only, or the handle is open and the path fits. *)
Lemma setAssociatedPath_cases sah path flags st :
  (∃ ex body', length body' = length (apBody st) ∧
      setAssociatedPath sah path flags st = (Throw ex, set_apBody (fun _ => body') st))
  ∨ (∃ ah nm c, sah = Some ah ∧ mapSAHToName st !! ah = Some nm ∧
      dir_lookup nm (dirEntries st) = Some c ∧
      (length (textEncode path) `min` length (apBody st) < HEADER_MAX_PATH_SIZE)%nat).
Proof.
  destruct (decide (HEADER_MAX_PATH_SIZE <= length (textEncode path) `min` length (apBody st))%nat)
    as [Hlong|Hfit].
  { left. exists (PathTooLong path), (overlay (textEncode path) (apBody st)).
    split; [apply length_overlay|]. rewrite setAssociatedPath_long by exact Hlong. reflexivity. }
  destruct st as [names used avail files body e dir cnt]. cbn [apBody mapSAHToName dirEntries] in *.
  assert (Hdead : match sah with
    | None => True
    | Some ah => match names !! ah with
                 | None => True
                 | Some nm => dir_lookup nm dir = None
                 end
    end -> ∃ ex body',
      length body' = length body ∧
      setAssociatedPath sah path flags (mkSt names used avail files body e dir cnt) =
      (Throw ex, set_apBody (fun _ => body') (mkSt names used avail files body e dir cnt))).
  { intros Hd. destruct (setAssociatedPath_dead names used avail files body e dir cnt sah path flags)
      as [ex Hex]; [lia | exact Hd |].
    exists ex, (header_body body path flags). split; [apply length_header_body | exact Hex]. }
  destruct sah as [ah|]; [|left; apply Hdead; exact I].
  destruct (names !! ah) as [nm|] eqn:Hn; [|left; apply Hdead; exact I].
  destruct (dir_lookup nm dir) as [c|] eqn:Hd; [|left; apply Hdead; reflexivity || assumption || exact I].
  right. exists ah, nm, c. repeat split; auto. lia.
Qed.

Ltac sproj :=
  cbn [mapSAHToName mapFilenameToSAH availableSAH mapIdToFile apBody err dirEntries
       sahCount set_mapSAHToName set_mapFilenameToSAH set_availableSAH set_mapIdToFile
       set_apBody set_err set_dirEntries set_sahCount fst snd] in *.

(** ** The available set *)

Lemma elem_of_set_delete x y s : y ∈ set_delete x s <-> y ∈ s ∧ y ≠ x.
Proof. unfold set_delete. rewrite list_elem_of_filter. tauto. Qed.

Lemma NoDup_set_delete x s : NoDup s -> NoDup (set_delete x s).
Proof. apply NoDup_filter. Qed.

Lemma elem_of_set_add x y s : y ∈ set_add x s <-> y = x ∨ y ∈ s.
Proof.
  unfold set_add. destruct (bool_decide (x ∈ s)) eqn:E.
  - apply bool_decide_eq_true_1 in E. split; [auto | intros [->|]; auto].
  - rewrite elem_of_app, list_elem_of_singleton. tauto.
Qed.

Lemma NoDup_set_add x s : NoDup s -> NoDup (set_add x s).
Proof.
  intros H. unfold set_add. destruct (bool_decide (x ∈ s)) eqn:E; [exact H|].
  apply bool_decide_eq_false_1 in E. apply NoDup_app. split; [exact H|].
  split; [|apply NoDup_singleton].
  intros y Hy Hy'. apply list_elem_of_singleton in Hy'. subst. contradiction.
Qed.

Lemma set_delete_notin x s : x ∉ s -> set_delete x s = s.
Proof.
  intros H. unfold set_delete. induction s as [|y s IH]; [reflexivity|].
  rewrite filter_cons. destruct (decide (y ≠ x)) as [Hne|He].
  - f_equal. apply IH. intros Hin. apply H. right. exact Hin.
  - exfalso. apply H. apply dec_stable in He. subst. left.
Qed.

Lemma length_set_delete x s : NoDup s -> x ∈ s -> S (length (set_delete x s)) = length s.
Proof.
  unfold set_delete. induction s as [|y s IH]; intros Hnd Hin; [inversion Hin|].
  inversion Hnd as [|? ? Hy Hnd']; subst. rewrite filter_cons.
  destruct (decide (y ≠ x)) as [Hne|He].
  - cbn [length]. f_equal. apply IH; [exact Hnd'|].
    inversion Hin; subst; [contradiction | assumption].
  - apply dec_stable in He. subst y. fold (set_delete x s).
    rewrite set_delete_notin by exact Hy. reflexivity.
Qed.

(** ** Preservation of the structural invariant *)

Lemma wf_set_err e st : wf st -> wf (set_err e st).
Proof. intros [Hb Hnd Hal Hul Hua Hun Hui Hnf Hfr Hni Hdn]. constructor; assumption. Qed.

Lemma wf_set_mapIdToFile f st : wf st -> wf (set_mapIdToFile f st).
Proof. intros [Hb Hnd Hal Hul Hua Hun Hui Hnf Hfr Hni Hdn]. constructor; assumption. Qed.

Lemma wf_set_apBody body' st :
  length body' = length (apBody st) -> wf st -> wf (set_apBody (fun _ => body') st).
Proof. intros Hl [Hb Hnd Hal Hul Hua Hun Hui Hnf Hfr Hni Hdn]. constructor; try assumption. sproj. congruence. Qed.

Lemma wf_dir_update nm c st : wf st -> wf (set_dirEntries (dir_update nm c) st).
Proof.
  intros [Hb Hnd Hal Hul Hua Hun Hui Hnf Hfr Hni Hdn]. constructor; try assumption; sproj.
  - intros ah nm' Hn. rewrite dir_lookup_is_Some, dir_update_names, <- dir_lookup_is_Some. eauto.
  - rewrite dir_update_names. assumption.
Qed.

(** [path] becomes the name of the open handle [ah], to which no other
    name is mapped. *)
Lemma wf_assign st ah path :
  wf st ->
  is_Some (mapSAHToName st !! ah) ->
  path ≠ EmptyString ->
  (∀ p, mapFilenameToSAH st !! p = Some ah -> p = path) ->
  wf (set_availableSAH (set_delete ah) (set_mapFilenameToSAH (insert path ah) st)).
Proof.
  intros [Hb Hnd Hal Hul Hua Hun Hui Hnf Hfr Hni Hdn] Hlive Hne Huniq. constructor; try assumption; sproj.
  - apply NoDup_set_delete. assumption.
  - intros a Ha. apply elem_of_set_delete in Ha as [Ha _]. auto.
  - intros p a Hp. destruct (decide (path = p)) as [->|Hpp].
    + rewrite lookup_insert_eq in Hp. congruence.
    + rewrite lookup_insert_ne in Hp by assumption. eauto.
  - intros p a Hp Ha. apply elem_of_set_delete in Ha as [Ha Hne'].
    destruct (decide (path = p)) as [->|Hpp].
    + rewrite lookup_insert_eq in Hp. congruence.
    + rewrite lookup_insert_ne in Hp by assumption. eapply Hua; eauto.
  - rewrite lookup_insert_ne by assumption. assumption.
  - intros p1 p2 a H1 H2.
    destruct (decide (path = p1)) as [E1|Hp1], (decide (path = p2)) as [E2|Hp2].
    + congruence.
    + subst p1. rewrite lookup_insert_eq in H1. rewrite lookup_insert_ne in H2 by assumption.
      symmetry. apply Huniq. congruence.
    + subst p2. rewrite lookup_insert_eq in H2. rewrite lookup_insert_ne in H1 by assumption.
      apply Huniq. congruence.
    + rewrite lookup_insert_ne in H1, H2 by assumption. eauto.
Qed.

(** The open handle [ah], to which no name is mapped, becomes available. *)
Lemma wf_release st ah :
  wf st ->
  is_Some (mapSAHToName st !! ah) ->
  (∀ p, mapFilenameToSAH st !! p ≠ Some ah) ->
  wf (set_availableSAH (set_add ah) st).
Proof.
  intros [Hb Hnd Hal Hul Hua Hun Hui Hnf Hfr Hni Hdn] Hlive Hfree. constructor; try assumption; sproj.
  - apply NoDup_set_add. assumption.
  - intros a Ha. apply elem_of_set_add in Ha as [->|Ha]; auto.
  - intros p a Hp Ha. apply elem_of_set_add in Ha as [->|Ha].
    + eapply Hfree; eauto.
    + eapply Hua; eauto.
Qed.

(** [setAssociatedPath] keeps the invariant when no name other than [path]
    is mapped to the handle. *)
Lemma setAssociatedPath_wf sah path flags st :
  wf st ->
  (∀ ah p, sah = Some ah -> mapFilenameToSAH st !! p = Some ah -> p = path ∧ path ≠ EmptyString) ->
  wf (setAssociatedPath sah path flags st).2.
Proof.
  intros Hwf Hpre.
  destruct (setAssociatedPath_cases sah path flags st)
    as [(ex & body' & Hl & ->) | (ah & nm & c & -> & Hn & Hd & Hfit)].
  - apply wf_set_apBody; assumption.
  - destruct st as [names used avail files body e dir cnt].
    cbn [mapSAHToName mapFilenameToSAH dirEntries apBody] in *.
    rewrite (setAssociatedPath_live _ _ _ _ _ _ _ _ _ nm c) by assumption. cbv zeta.
    set (st0 := mkSt names used avail files body e dir cnt) in *.
    destruct (bool_decide (path ≠ EmptyString)) eqn:E; cbn [snd].
    + apply bool_decide_eq_true_1 in E.
      change (wf (set_dirEntries (dir_update nm (header_write c (header_body body path flags)))
               (set_apBody (fun _ => header_body body path flags)
                  (set_availableSAH (set_delete ah)
                     (set_mapFilenameToSAH (insert path ah) st0))))).
      apply wf_dir_update.
      apply wf_set_apBody; [apply length_header_body|].
      apply wf_assign; [assumption | sproj; eauto | assumption |].
      intros p Hp. apply (Hpre ah p); auto.
    + apply bool_decide_eq_false_1 in E.
      change (wf (set_dirEntries (dir_update nm
               (sah_truncate (header_write c (header_body body path flags)) HEADER_OFFSET_DATA))
               (set_apBody (fun _ => header_body body path flags)
                  (set_availableSAH (set_add ah) st0)))).
      apply wf_dir_update.
      apply wf_set_apBody; [apply length_header_body|].
      apply wf_release; [assumption | sproj; eauto |].
      intros p Hp. destruct (Hpre ah p eq_refl Hp) as [_ Hne]. contradiction.
Qed.

Lemma wf_new_pool dir : NoDup dir.*1 -> wf (new_pool dir).
Proof.
  intros Hnd. constructor; unfold new_pool; sproj.
  - apply length_replicate.
  - constructor.
  - intros ah Hah. inversion Hah.
  - intros p ah H. rewrite lookup_empty in H. discriminate.
  - intros p ah H. rewrite lookup_empty in H. discriminate.
  - apply lookup_empty.
  - intros p1 p2 ah H. rewrite lookup_empty in H. discriminate.
  - intros ah nm H. rewrite lookup_empty in H. discriminate.
  - intros ah [? H]. rewrite lookup_empty in H. discriminate.
  - intros a1 a2 nm H. rewrite lookup_empty in H. discriminate.
  - exact Hnd.
Qed.

Lemma wf_used_free st ah :
  wf st -> ah ∈ availableSAH st -> ∀ p, mapFilenameToSAH st !! p ≠ Some ah.
Proof. intros Hwf Ha p Hp. exact (wf_used_avail st Hwf p ah Hp Ha). Qed.

Lemma head_elem_of {A} (l : list A) x : head l = Some x -> x ∈ l.
Proof. destruct l; [discriminate|]. intros [= ->]. left. Qed.

Lemma xOpen_wf path pFile flags st : wf st -> wf (xOpen path pFile flags st).2.
Proof.
  intros Hwf. unfold xOpen, try_catch. rewrite bind_gets.
  destruct (mapFilenameToSAH st !! path) as [ah|] eqn:Hf.
  - rewrite (bool_decide_eq_false_2 (Some ah = None)) by discriminate.
    cbn [andb]. rewrite bind_ret, bind_modify. cbn [mret M_ret snd].
    apply wf_set_mapIdToFile. exact Hwf.
  - rewrite (bool_decide_eq_true_2 (None = None)) by reflexivity. cbn [andb].
    destruct (bool_decide (Z.land flags SQLITE_OPEN_CREATE ≠ 0)).
    2:{ rewrite bind_ret. cbn [toss snd storeErr]. unfold storeErr. rewrite bind_modify.
        cbn [mret M_ret snd]. apply wf_set_err. exact Hwf. }
    unfold mbind at 1. unfold M_bind at 1. rewrite bind_gets.
    destruct (bool_decide (getFileCount st < getCapacity st)%nat).
    2:{ cbn [toss]. unfold storeErr. rewrite bind_modify. cbn [mret M_ret snd].
        apply wf_set_err. exact Hwf. }
    rewrite bind_gets.
    pose proof (setAssociatedPath_wf (nextAvailableSAH st) path flags st Hwf) as Hs.
    unfold mbind at 1. unfold M_bind at 1.
    destruct (setAssociatedPath (nextAvailableSAH st) path flags st) as [[[]|ex] st1] eqn:Es;
      cbn [snd] in Hs.
    + cbn [mret M_ret].
      assert (Hwf1 : wf st1).
      { apply Hs. intros ah p Hh Hp. exfalso.
        eapply wf_used_free; [exact Hwf | apply head_elem_of; exact Hh | exact Hp]. }
      destruct (nextAvailableSAH st).
      * rewrite bind_modify. cbn [mret M_ret snd]. apply wf_set_mapIdToFile. exact Hwf1.
      * cbn [toss]. unfold storeErr. rewrite bind_modify. cbn [mret M_ret snd].
        apply wf_set_err. exact Hwf1.
    + unfold storeErr. rewrite bind_modify. cbn [mret M_ret snd]. apply wf_set_err.
      apply Hs. intros ah p Hh Hp. exfalso.
      eapply wf_used_free; [exact Hwf | apply head_elem_of; exact Hh | exact Hp].
Qed.

Lemma wf_delete_used path st :
  wf st -> wf (set_mapFilenameToSAH (delete path) st).
Proof.
  intros [Hb Hnd Hal Hul Hua Hun Hui Hnf Hfr Hni Hdn]. constructor; try assumption; sproj.
  - intros p a Hp. apply lookup_delete_Some in Hp as [_ Hp]. eauto.
  - intros p a Hp. apply lookup_delete_Some in Hp as [_ Hp]. eauto.
  - destruct (decide (path = EmptyString)) as [->|Hne].
    + apply lookup_delete_eq.
    + rewrite lookup_delete_ne by assumption. assumption.
  - intros p1 p2 a H1 H2. apply lookup_delete_Some in H1 as [_ H1].
    apply lookup_delete_Some in H2 as [_ H2]. eauto.
Qed.

Lemma deletePath_wf path st : wf st -> wf (deletePath path st).2.
Proof.
  intros Hwf. unfold deletePath. rewrite bind_gets.
  destruct (mapFilenameToSAH st !! path) as [ah|] eqn:Hf; [|exact Hwf].
  rewrite bind_modify.
  pose proof (setAssociatedPath_wf (Some ah) EmptyString 0
                (set_mapFilenameToSAH (delete path) st) (wf_delete_used path st Hwf)) as Hs.
  unfold mbind, M_bind.
  destruct (setAssociatedPath _ _ _ _) as [[[]|ex] st1]; cbn [snd mret M_ret] in *;
    apply Hs; intros a p [= <-] Hp; sproj;
    apply lookup_delete_Some in Hp as [Hne Hp];
    exfalso; apply Hne; eapply wf_used_inj; eauto.
Qed.

Lemma xDelete_wf path st : wf st -> wf (xDelete path st).2.
Proof.
  intros Hwf. unfold xDelete, storeErr, try_catch. rewrite bind_modify.
  pose proof (deletePath_wf path (set_err None st) (wf_set_err _ _ Hwf)) as Hd.
  unfold mbind, M_bind.
  destruct (deletePath path (set_err None st)) as [[b|ex] st1]; cbn [snd mret M_ret modify] in *.
  - exact Hd.
  - apply wf_set_err. exact Hd.
Qed.

Lemma sahWrite_wf ah at_ data st : wf st -> wf (sahWrite ah at_ data st).2.
Proof.
  intros Hwf. unfold sahWrite, sah_content, sah_put, mbind, M_bind.
  destruct (mapSAHToName st !! ah) as [nm|]; [|exact Hwf].
  destruct (dir_lookup nm (dirEntries st)); [|exact Hwf].
  cbn [modify mret M_ret snd]. apply wf_dir_update. exact Hwf.
Qed.

Lemma sahTruncate_wf ah n st : wf st -> wf (sahTruncate ah n st).2.
Proof.
  intros Hwf. unfold sahTruncate, sah_content, sah_put, mbind, M_bind.
  destruct (mapSAHToName st !! ah) as [nm|]; [|exact Hwf].
  destruct (dir_lookup nm (dirEntries st)); [|exact Hwf].
  cbn [modify snd]. apply wf_dir_update. exact Hwf.
Qed.

Lemma sahWrite_frame ah at_ data st :
  let st' := (sahWrite ah at_ data st).2 in
  mapSAHToName st' = mapSAHToName st ∧ mapFilenameToSAH st' = mapFilenameToSAH st ∧
  availableSAH st' = availableSAH st.
Proof.
  unfold sahWrite, sah_content, sah_put, mbind, M_bind.
  destruct (mapSAHToName st !! ah) as [nm|]; [|auto].
  destruct (dir_lookup nm (dirEntries st)); auto.
Qed.

Lemma importDb_wf name bytes st : wf st -> wf (importDb name bytes st).2.
Proof.
  intros Hwf. unfold importDb. cbv zeta.
  destruct (_ || _); [exact Hwf|].
  destruct (header_mismatch _ _); [exact Hwf|].
  rewrite !bind_gets.
  assert (Hsel : ∀ sah,
    match mapFilenameToSAH st !! name with Some ah => Some ah | None => nextAvailableSAH st end
    = Some sah ->
    ∀ p, mapFilenameToSAH st !! p = Some sah -> p = name ∧ name ≠ EmptyString).
  { intros sah Hsel p Hp. destruct (mapFilenameToSAH st !! name) as [ah|] eqn:Hf.
    - injection Hsel as ->. split; [eapply wf_used_inj; eauto|].
      intros ->. rewrite (wf_used_nonempty st Hwf) in Hf. discriminate.
    - exfalso. eapply wf_used_free; [exact Hwf | apply head_elem_of; exact Hsel | exact Hp]. }
  destruct (match mapFilenameToSAH st !! name with Some ah => Some ah | None => _ end)
    as [sah|]; [|exact Hwf].
  pose proof (sahWrite_wf sah HEADER_OFFSET_DATA bytes st Hwf) as Hw.
  pose proof (sahWrite_frame sah HEADER_OFFSET_DATA bytes st) as (_ & Hfu & _).
  unfold mbind, M_bind.
  destruct (sahWrite sah HEADER_OFFSET_DATA bytes st) as [[k|ex] st1]; cbn [snd] in *;
    [|exact Hw].
  apply setAssociatedPath_wf; [exact Hw|].
  intros a p [= <-] Hp. rewrite Hfu in Hp. eapply Hsel; eauto.
Qed.

Lemma xWrite_wf pFile src offset64 st : wf st -> wf (xWrite pFile src offset64 st).2.
Proof.
  intros Hwf. unfold xWrite, storeErr, try_catch. rewrite bind_modify, bind_gets.
  apply (wf_set_err None) in Hwf. revert Hwf. generalize (set_err None st). clear st.
  intros st Hwf.
  destruct (mapIdToFile st !! pFile) as [f|]; [|exact Hwf].
  unfold deref. rewrite bind_ret. cbv zeta.
  destruct (_ <? 0).
  { cbn [toss]. rewrite bind_modify. cbn [mret M_ret snd]. apply wf_set_err. exact Hwf. }
  pose proof (sahWrite_wf (file_sah f) (Z.to_nat (Z.of_nat HEADER_OFFSET_DATA + offset64)) src
                st Hwf) as Hw.
  unfold mbind at 1. unfold M_bind at 1.
  destruct (sahWrite _ _ _ _) as [[k|ex] st1]; cbn [snd mret M_ret] in *.
  - exact Hw.
  - rewrite bind_modify. cbn [mret M_ret snd]. apply wf_set_err. exact Hw.
Qed.

Lemma xTruncate_wf pFile sz64 st : wf st -> wf (xTruncate pFile sz64 st).2.
Proof.
  intros Hwf. unfold xTruncate, storeErr, try_catch. rewrite bind_modify, bind_gets.
  apply (wf_set_err None) in Hwf. revert Hwf. generalize (set_err None st). clear st.
  intros st Hwf.
  destruct (mapIdToFile st !! pFile) as [f|]; unfold deref.
  2:{ cbn [toss mbind M_bind]. unfold mbind, M_bind. cbn [toss modify mret M_ret snd].
      apply wf_set_err. exact Hwf. }
  rewrite bind_ret. cbv zeta.
  destruct (_ <? 0).
  { cbn [toss]. rewrite bind_modify. cbn [mret M_ret snd]. apply wf_set_err. exact Hwf. }
  pose proof (sahTruncate_wf (file_sah f) (Z.to_nat (Z.of_nat HEADER_OFFSET_DATA + sz64))
                st Hwf) as Hw.
  unfold mbind at 1. unfold M_bind at 1.
  destruct (sahTruncate _ _ _) as [[|ex] st1]; cbn [snd mret M_ret] in *.
  - exact Hw.
  - rewrite bind_modify. cbn [mret M_ret snd]. apply wf_set_err. exact Hw.
Qed.

Lemma sahFlush_state ah st : (sahFlush ah st).2 = st.
Proof.
  unfold sahFlush, sah_content, mbind, M_bind.
  destruct (mapSAHToName st !! ah) as [nm|]; [|reflexivity].
  destruct (dir_lookup nm (dirEntries st)); reflexivity.
Qed.

Lemma xClose_wf pFile st : wf st -> wf (xClose pFile st).2.
Proof.
  intros Hwf. unfold xClose, storeErr, try_catch. rewrite bind_modify, bind_gets.
  apply (wf_set_err None) in Hwf. revert Hwf. generalize (set_err None st). clear st.
  intros st Hwf.
  destruct (mapIdToFile st !! pFile) as [f|]; [|exact Hwf].
  pose proof (sahFlush_state (file_sah f) st) as Hfl.
  unfold mbind at 1. unfold M_bind at 1.
  destruct (sahFlush (file_sah f) st) as [[[]|ex] st1]; cbn [snd] in Hfl; subst st1.
  2:{ rewrite bind_modify. cbn [mret M_ret snd]. apply wf_set_err. exact Hwf. }
  rewrite bind_modify.
  apply (wf_set_mapIdToFile (delete pFile)) in Hwf. revert Hwf.
  generalize (set_mapIdToFile (delete pFile) st). clear st. intros st Hwf.
  destruct (bool_decide _).
  - pose proof (deletePath_wf (file_path f) st Hwf) as Hd.
    unfold mbind, M_bind.
    destruct (deletePath (file_path f) st) as [[b|ex] st1]; cbn [snd mret M_ret modify] in *.
    + exact Hd.
    + apply wf_set_err. exact Hd.
  - rewrite bind_ret. exact Hwf.
Qed.

Lemma holds_lock_true (m : gmap SAH Name) nm :
  holds_lock m nm = true <-> ∃ ah, m !! ah = Some nm.
Proof.
  unfold holds_lock. rewrite bool_decide_eq_true, list_elem_of_fmap. split.
  - intros ([ah nm'] & -> & Hin). apply elem_of_map_to_list in Hin. eauto.
  - intros [ah Hah]. exists (ah, nm). split; [reflexivity|]. apply elem_of_map_to_list. exact Hah.
Qed.

Lemma holds_lock_false (m : gmap SAH Name) nm :
  holds_lock m nm = false <-> ∀ ah, m !! ah ≠ Some nm.
Proof.
  rewrite <- not_true_iff_false, holds_lock_true. split.
  - intros H ah Hah. apply H. eauto.
  - intros H [ah Hah]. exact (H ah Hah).
Qed.

(** A handle created on the unlocked entry [nm] and registered. *)
Lemma wf_acquire st nm :
  wf st -> holds_lock (mapSAHToName st) nm = false -> nm ∈ (dirEntries st).*1 ->
  wf (set_mapSAHToName (insert (sahCount st) nm) (set_sahCount S st)).
Proof.
  intros [Hb Hnd Hal Hul Hua Hun Hui Hnf Hfr Hni Hdn] Hlock Hin.
  rewrite holds_lock_false in Hlock. constructor; try assumption; sproj.
  - intros a Ha. destruct (decide (sahCount st = a)) as [E|Hne]; [subst a|].
    + rewrite lookup_insert_eq. eauto.
    + rewrite lookup_insert_ne by assumption. auto.
  - intros p a Hp. destruct (decide (sahCount st = a)) as [E|Hne]; [subst a|].
    + rewrite lookup_insert_eq. eauto.
    + rewrite lookup_insert_ne by assumption. eauto.
  - intros a nm' Ha. destruct (decide (sahCount st = a)) as [E|Hne]; [subst a|].
    + rewrite lookup_insert_eq in Ha. injection Ha as <-. apply dir_lookup_is_Some. exact Hin.
    + rewrite lookup_insert_ne in Ha by assumption. eauto.
  - intros a Ha. destruct (decide (sahCount st = a)) as [E|Hne]; [lia|].
    rewrite lookup_insert_ne in Ha by assumption. apply Hfr in Ha. lia.
  - intros a1 a2 nm' H1 H2.
    destruct (decide (sahCount st = a1)) as [E1|N1], (decide (sahCount st = a2)) as [E2|N2].
    + congruence.
    + subst a1. rewrite lookup_insert_eq in H1. rewrite lookup_insert_ne in H2 by assumption.
      injection H1 as <-. exfalso. exact (Hlock a2 H2).
    + subst a2. rewrite lookup_insert_eq in H2. rewrite lookup_insert_ne in H1 by assumption.
      injection H2 as <-. exfalso. exact (Hlock a1 H1).
    + rewrite lookup_insert_ne in H1, H2 by assumption. eauto.
Qed.

Lemma fresh_not_used st : wf st -> ∀ p, mapFilenameToSAH st !! p ≠ Some (sahCount st).
Proof.
  intros Hwf p Hp. pose proof (wf_used_live st Hwf p _ Hp) as Hl.
  apply (wf_names_fresh st Hwf) in Hl. lia.
Qed.

Lemma fresh_not_avail st : wf st -> sahCount st ∉ availableSAH st.
Proof.
  intros Hwf Ha. apply (wf_avail_live st Hwf) in Ha.
  apply (wf_names_fresh st Hwf) in Ha. lia.
Qed.

Lemma wf_getFileHandle_create nm st :
  wf st ->
  wf (set_dirEntries (fun d => match dir_lookup nm d with
                               | Some _ => d | None => d ++ [(nm, [])] end) st).
Proof.
  intros Hwf. destruct (dir_lookup nm (dirEntries st)) eqn:Hd.
  { destruct st; sproj. unfold set_dirEntries; sproj. rewrite Hd. exact Hwf. }
  assert (Hnin : nm ∉ (dirEntries st).*1).
  { intros Hin. apply dir_lookup_is_Some in Hin as [? Hin]. congruence. }
  destruct Hwf as [Hb Hnd Hal Hul Hua Hun Hui Hnf Hfr Hni Hdn].
  constructor; try assumption; sproj; rewrite Hd.
  - intros a nm' Ha. apply dir_lookup_is_Some. rewrite fmap_app, elem_of_app. left.
    apply dir_lookup_is_Some. eauto.
  - rewrite fmap_app. apply NoDup_app. split; [exact Hdn|]. split; [|apply NoDup_singleton].
    intros x Hx Hx'. cbn in Hx'. apply list_elem_of_singleton in Hx'. subst. contradiction.
Qed.

Lemma createSyncAccessHandle_eval nm st :
  createSyncAccessHandle nm st =
  if holds_lock (mapSAHToName st) nm then (Throw NoModificationAllowedError, st)
  else (Ok (sahCount st), set_sahCount S st).
Proof.
  unfold createSyncAccessHandle. rewrite bind_gets.
  destruct (holds_lock _ _); reflexivity.
Qed.

Lemma addCapacity_wf names st : wf st -> wf (addCapacity names st).2.
Proof.
  revert st. induction names as [|name rest IH]; intros st Hwf; cbn [addCapacity].
  - exact Hwf.
  - unfold getFileHandle_create. rewrite bind_modify.
    apply (wf_getFileHandle_create name) in Hwf.
    assert (Hin : name ∈ (dirEntries (set_dirEntries (fun d => match dir_lookup name d with
                               | Some _ => d | None => d ++ [(name, [])] end) st)).*1).
    { sproj. destruct (dir_lookup name (dirEntries st)) eqn:Hd.
      - apply dir_lookup_is_Some. eauto.
      - rewrite fmap_app, elem_of_app. right. left. }
    revert Hwf Hin. generalize (set_dirEntries (fun d => match dir_lookup name d with
                               | Some _ => d | None => d ++ [(name, [])] end) st).
    clear st. intros st Hwf Hin.
    pose proof (createSyncAccessHandle_eval name st) as Hc.
    destruct (holds_lock (mapSAHToName st) name) eqn:Hlock.
    { rewrite (bind_throw _ _ _ _ _ Hc). exact Hwf. }
    rewrite (bind_ok _ _ _ _ _ Hc). rewrite bind_modify.
    pose proof (wf_acquire st name Hwf Hlock Hin) as Hwf1.
    pose proof (fresh_not_used st Hwf) as Hfree.
    pose proof (setAssociatedPath_wf (Some (sahCount st)) EmptyString 0 _ Hwf1) as Hs.
    unfold mbind, M_bind.
    destruct (setAssociatedPath _ _ _ _) as [[[]|ex] st1]; cbn [snd] in Hs.
    + apply IH. apply Hs. intros a p [= <-] Hp. exfalso. exact (Hfree p Hp).
    + apply Hs. intros a p [= <-] Hp. exfalso. exact (Hfree p Hp).
Qed.

Lemma dir_remove_names nm d : (dir_remove nm d).*1 = filter (fun n => n ≠ nm) d.*1.
Proof.
  unfold dir_remove. induction d as [|[n x] d IH]; [reflexivity|].
  rewrite filter_cons. cbn [fmap list_fmap fst]. rewrite filter_cons. cbn [fst].
  destruct (decide (n ≠ nm)); cbn [fmap list_fmap fst]; rewrite <- IH; reflexivity.
Qed.

Lemma dir_lookup_remove_ne nm nm' d :
  nm ≠ nm' -> dir_lookup nm' (dir_remove nm d) = dir_lookup nm' d.
Proof.
  intros Hne. unfold dir_lookup, dir_remove. induction d as [|[n x] d IH]; [reflexivity|].
  rewrite filter_cons. cbn [fst]. destruct (decide (n ≠ nm)) as [Hn|Hn].
  - cbn [find fst]. destruct (bool_decide (n = nm')); [reflexivity | exact IH].
  - apply dec_stable in Hn. subst n. cbn [find fst].
    rewrite bool_decide_eq_false_2 by assumption. exact IH.
Qed.

Lemma removeEntry_eval nm st :
  removeEntry (Some nm) st =
  if bool_decide (is_Some (dir_lookup nm (dirEntries st)))
  then (Ok tt, set_dirEntries (dir_remove nm) st)
  else (Throw NotFoundError, st).
Proof.
  unfold removeEntry. rewrite bind_gets. destruct (bool_decide _); reflexivity.
Qed.

(** An available slot leaves the pool. *)
Lemma wf_remove_slot st ah nm :
  wf st -> ah ∈ availableSAH st -> mapSAHToName st !! ah = Some nm ->
  wf (set_availableSAH (set_delete ah)
        (set_mapSAHToName (delete ah) (set_dirEntries (dir_remove nm) st))).
Proof.
  intros Hwf Ha Hn.
  pose proof (wf_used_free st ah Hwf Ha) as Hfree.
  destruct Hwf as [Hb Hnd Hal Hul Hua Hun Hui Hnf Hfr Hni Hdn].
  constructor; try assumption; sproj.
  - apply NoDup_set_delete. assumption.
  - intros a Hin. apply elem_of_set_delete in Hin as [Hin Hne].
    rewrite lookup_delete_ne by congruence. auto.
  - intros p a Hp. rewrite lookup_delete_ne; [eauto|]. intros ->. exact (Hfree p Hp).
  - intros p a Hp Hin. apply elem_of_set_delete in Hin as [Hin _]. eapply Hua; eauto.
  - intros a nm' Hl. apply lookup_delete_Some in Hl as [Hne Hl].
    rewrite dir_lookup_remove_ne; [eauto|]. intros ->. apply Hne. eapply Hni; eauto.
  - intros a [nm' Hl]. apply lookup_delete_Some in Hl as [_ Hl]. eauto.
  - intros a1 a2 nm' H1 H2. apply lookup_delete_Some in H1 as [_ H1].
    apply lookup_delete_Some in H2 as [_ H2]. eauto.
  - rewrite dir_remove_names. apply NoDup_filter. assumption.
Qed.

Lemma reduceCapacity_loop_spec n snapshot : ∀ nRm st,
  wf st -> NoDup snapshot -> (∀ ah, ah ∈ snapshot -> ah ∈ availableSAH st) ->
  ∃ (k : nat) st',
    reduceCapacity_loop n snapshot nRm st = (Ok (nRm + Z.of_nat k), st') ∧
    (k <= length snapshot)%nat ∧ (nRm <= n -> nRm + Z.of_nat k <= n) ∧ wf st' ∧
    mapFilenameToSAH st' = mapFilenameToSAH st ∧
    (getCapacity st' + k = getCapacity st)%nat ∧
    (length (availableSAH st') + k = length (availableSAH st))%nat ∧
    (∀ ah, ah ∉ snapshot -> mapSAHToName st' !! ah = mapSAHToName st !! ah) ∧
    (∀ ah nm, mapSAHToName st' !! ah = Some nm ->
        mapSAHToName st !! ah = Some nm ∧
        dir_lookup nm (dirEntries st') = dir_lookup nm (dirEntries st)).
Proof.
  induction snapshot as [|ah rest IH]; intros nRm st Hwf Hnd Hsub; cbn [reduceCapacity_loop].
  { exists 0%nat, st. cbn [mret M_ret length]. rewrite Z.add_0_r, !Nat.add_0_r.
    split; [reflexivity|]. split; [lia|]. split; [lia|]. split; [exact Hwf|].
    split; [reflexivity|]. split; [reflexivity|]. split; [reflexivity|].
    split; [reflexivity|]. intros a nm' Hl. split; [exact Hl | reflexivity]. }
  rewrite bind_gets.
  destruct (bool_decide (nRm = n) || bool_decide (getFileCount st = getCapacity st)) eqn:Hbrk.
  { exists 0%nat, st. cbn [mret M_ret length]. rewrite Z.add_0_r, !Nat.add_0_r.
    split; [reflexivity|]. split; [lia|]. split; [lia|]. split; [exact Hwf|].
    split; [reflexivity|]. split; [reflexivity|]. split; [reflexivity|].
    split; [reflexivity|]. intros a nm' Hl. split; [exact Hl | reflexivity]. }
  apply orb_false_iff in Hbrk as [Hn _]. apply bool_decide_eq_false_1 in Hn.
  assert (Ha : ah ∈ availableSAH st) by (apply Hsub; left).
  destruct (wf_avail_live st Hwf ah Ha) as [nm Hnm].
  rewrite bind_gets, Hnm.
  pose proof (removeEntry_eval nm st) as Hr.
  rewrite bool_decide_eq_true_2 in Hr by (eapply wf_names_file; eauto).
  rewrite (bind_ok _ _ _ _ _ Hr). rewrite !bind_modify.
  inversion Hnd as [|? ? Hnotin Hnd']; subst.
  set (st1 := set_availableSAH (set_delete ah)
                (set_mapSAHToName (delete ah) (set_dirEntries (dir_remove nm) st))).
  assert (Hwf1 : wf st1) by (apply wf_remove_slot; assumption).
  destruct (IH (nRm + 1) st1 Hwf1 Hnd') as (k & st' & Hrun & Hk & Hle' & Hwf' & Hu & Hc & Hav & Hkeep & Hsurv).
  { intros a Hin. unfold st1; sproj. apply elem_of_set_delete. split; [apply Hsub; right; exact Hin|].
    intros ->. contradiction. }
  exists (S k), st'. rewrite Hrun. split; [f_equal; f_equal; lia|].
  split; [cbn [length]; lia|]. split; [lia|]. split; [exact Hwf'|].
  split; [rewrite Hu; reflexivity|].
  split.
  { assert (Hsz : (getCapacity st1 + 1 = getCapacity st)%nat).
    { unfold getCapacity, st1; sproj.
      rewrite map_size_delete_Some by eauto.
      pose proof (map_size_ne_0_lookup_2 (mapSAHToName st) ah (ex_intro _ nm Hnm)). lia. }
    lia. }
  split.
  { assert (Hsz : (length (availableSAH st1) + 1 = length (availableSAH st))%nat).
    { unfold st1; sproj.
      pose proof (length_set_delete ah (availableSAH st) (wf_avail_nodup st Hwf) Ha). lia. }
    lia. }
  split.
  { intros a Hnin. rewrite Hkeep by (intros Hin; apply Hnin; right; exact Hin).
    unfold st1; sproj. apply lookup_delete_ne. intros ->. apply Hnin. left. }
  intros a nm' Hl. destruct (Hsurv a nm' Hl) as [Hl1 Hd1]. unfold st1 in Hl1, Hd1. sproj.
  apply lookup_delete_Some in Hl1 as [Hne Hl1]. split; [exact Hl1|].
  rewrite Hd1. apply dir_lookup_remove_ne. intros E. subst nm'. apply Hne.
  exact (wf_names_inj st Hwf ah a nm Hnm Hl1).
Qed.

Lemma setAssociatedPath_frame sah path flags st :
  let st' := (setAssociatedPath sah path flags st).2 in
  mapSAHToName st' = mapSAHToName st ∧ sahCount st' = sahCount st ∧
  (dirEntries st').*1 = (dirEntries st).*1.
Proof.
  destruct (setAssociatedPath_cases sah path flags st)
    as [(ex & body' & Hl & ->) | (ah & nm & c & -> & Hn & Hd & Hfit)].
  - cbv zeta. sproj. auto.
  - destruct st as [names used avail files body e dir cnt]. sproj.
    rewrite (setAssociatedPath_live _ _ _ _ _ _ _ _ _ nm c) by assumption. cbv zeta.
    destruct (bool_decide _); sproj; rewrite dir_update_names; auto.
Qed.

Lemma wf_released st :
  wf st ->
  wf (set_availableSAH (fun _ => [])
        (set_mapFilenameToSAH (fun _ => ∅) (set_mapSAHToName (fun _ => ∅) st))).
Proof.
  intros [Hb Hnd Hal Hul Hua Hun Hui Hnf Hfr Hni Hdn]. constructor; try assumption; sproj.
  - constructor.
  - intros ah Hah. inversion Hah.
  - intros p ah H. rewrite lookup_empty in H. discriminate.
  - intros p ah H. rewrite lookup_empty in H. discriminate.
  - apply lookup_empty.
  - intros p1 p2 ah H. rewrite lookup_empty in H. discriminate.
  - intros ah nm H. rewrite lookup_empty in H. discriminate.
  - intros ah [? H]. rewrite lookup_empty in H. discriminate.
  - intros a1 a2 nm H. rewrite lookup_empty in H. discriminate.
Qed.

(** Decoding the header of an open handle to which no name is mapped,
    whether it returns or throws. *)
Lemma getAssociatedPath_wf st ah nm :
  wf st -> mapSAHToName st !! ah = Some nm ->
  ∃ r st',
    getAssociatedPath ah st = (r, st') ∧ wf st' ∧
    mapSAHToName st' = mapSAHToName st ∧ mapFilenameToSAH st' = mapFilenameToSAH st ∧
    sahCount st' = sahCount st ∧ (dirEntries st').*1 = (dirEntries st).*1 ∧
    availableSAH st' = availableSAH st.
Proof.
  intros Hwf Hn. destruct (wf_names_file st Hwf ah nm Hn) as [c Hd].
  destruct st as [names used avail files body e dir cnt]. sproj.
  pose (st0 := mkSt names used avail files body e dir cnt).
  rewrite (getAssociatedPath_live _ _ _ _ _ _ _ _ _ nm c) by assumption. cbv zeta.
  set (body1 := overlay (sah_read c 0 (length body)) body).
  assert (Hthrow : ∃ (r : Res string) st',
    (Throw ReferenceError, mkSt names used avail files body1 e dir cnt) = (r, st')
     ∧ wf st' ∧ mapSAHToName st' = names ∧ mapFilenameToSAH st' = used ∧
    sahCount st' = cnt ∧ (dirEntries st').*1 = dir.*1 ∧ availableSAH st' = avail).
  { eexists _, _. split; [reflexivity|]. sproj.
    split; [|repeat split; reflexivity].
    change (wf (set_apBody (fun _ => body1) st0)).
    apply wf_set_apBody; [apply length_overlay | exact Hwf]. }
  destruct (_ && _); [exact Hthrow|].
  destruct (bool_decide (_ = computeDigest _)); [|exact Hthrow].
  eexists _, _. split; [reflexivity|]. sproj.
  split.
  - destruct (bool_decide (findIndex0 body1 0 = 0)).
    + change (wf (set_dirEntries (dir_update nm (sah_truncate c HEADER_OFFSET_DATA))
               (set_apBody (fun _ => body1) st0))).
      apply wf_dir_update. apply wf_set_apBody; [apply length_overlay | exact Hwf].
    + change (wf (set_apBody (fun _ => body1) st0)).
      apply wf_set_apBody; [apply length_overlay | exact Hwf].
  - repeat split; auto. destruct (bool_decide (findIndex0 body1 0 = 0)); [apply dir_update_names | reflexivity].
Qed.

Lemma set_delete_id_state ah st :
  ah ∉ availableSAH st -> set_availableSAH (set_delete ah) st = st.
Proof. intros H. destruct st; unfold set_availableSAH; sproj. rewrite set_delete_notin by exact H. reflexivity. Qed.

(** The body of the callback of [acquireAccessHandles], before its
    [catch]. *)
Lemma acquire_body_wf (clearFiles : bool) name st :
  wf st -> name ∈ (dirEntries st).*1 ->
  let st' := ((ah ← createSyncAccessHandle name;
     modify (set_mapSAHToName (insert ah name));;
     if clearFiles then
       sahTruncate ah HEADER_OFFSET_DATA;;
       setAssociatedPath (Some ah) EmptyString 0
     else
       path ← getAssociatedPath ah;
       if bool_decide (path ≠ EmptyString) then
         modify (set_mapFilenameToSAH (insert path ah))
       else
         modify (set_availableSAH (set_add ah))) st).2 in
  wf st' ∧ (dirEntries st').*1 = (dirEntries st).*1.
Proof.
  intros Hwf Hin. cbv zeta.
  pose proof (createSyncAccessHandle_eval name st) as Hc.
  destruct (holds_lock (mapSAHToName st) name) eqn:Hlock.
  { rewrite (bind_throw _ _ _ _ _ Hc). auto. }
  rewrite (bind_ok _ _ _ _ _ Hc). rewrite bind_modify.
  pose proof (wf_acquire st name Hwf Hlock Hin) as Hwf1.
  pose proof (fresh_not_used st Hwf) as Hfree.
  pose proof (fresh_not_avail st Hwf) as Hfa.
  set (ah := sahCount st) in *.
  set (st1 := set_mapSAHToName (insert ah name) (set_sahCount S st)) in *.
  assert (Hn1 : mapSAHToName st1 !! ah = Some name) by (unfold st1; sproj; apply lookup_insert_eq).
  assert (Hd1 : (dirEntries st1).*1 = (dirEntries st).*1) by reflexivity.
  destruct clearFiles.
  - destruct (wf_names_file st1 Hwf1 ah name Hn1) as [c Hc1].
    erewrite bind_ok by (eapply sahTruncate_live; eassumption).
    pose proof (wf_dir_update name (sah_truncate c HEADER_OFFSET_DATA) st1 Hwf1) as Hwf2.
    pose proof (setAssociatedPath_frame (Some ah) EmptyString 0
                  (set_dirEntries (dir_update name (sah_truncate c HEADER_OFFSET_DATA)) st1))
      as (_ & _ & Hdn).
    split.
    + apply setAssociatedPath_wf; [exact Hwf2|].
      intros a p [= <-] Hp. exfalso. exact (Hfree p Hp).
    + etransitivity; [exact Hdn|]. sproj. rewrite dir_update_names. reflexivity.
  - destruct (getAssociatedPath_wf st1 ah name Hwf1 Hn1)
      as ([path|ex] & st2 & Hg & Hwf2 & Hn2 & Hu2 & Hc2 & Hd2 & Ha2);
      [|rewrite (bind_throw _ _ _ _ _ Hg); cbn [snd]; split; [exact Hwf2 | congruence]].
    rewrite (bind_ok _ _ _ _ _ Hg).
    destruct (bool_decide (path ≠ EmptyString)) eqn:Hp; cbn [modify snd]; sproj.
    + apply bool_decide_eq_true_1 in Hp. split; [|congruence].
      assert (Hnotin : ah ∉ availableSAH st2) by (rewrite Ha2; exact Hfa).
      rewrite <- (set_delete_id_state ah
                    (set_mapFilenameToSAH (insert path ah) st2)) by exact Hnotin.
      apply wf_assign; [exact Hwf2 | rewrite Hn2; eauto | exact Hp |].
      intros p Hpp. rewrite Hu2 in Hpp. exfalso. exact (Hfree p Hpp).
    + split; [|congruence].
      apply wf_release; [exact Hwf2 | rewrite Hn2; eauto |].
      intros p Hpp. rewrite Hu2 in Hpp. exact (Hfree p Hpp).
Qed.

Lemma acquire_one_wf clearFiles name st :
  wf st -> name ∈ (dirEntries st).*1 ->
  wf (acquire_one clearFiles name st).2 ∧
  (dirEntries (acquire_one clearFiles name st).2).*1 = (dirEntries st).*1.
Proof.
  intros Hwf Hin. pose proof (acquire_body_wf clearFiles name st Hwf Hin) as Hb.
  cbv zeta in Hb. unfold acquire_one, try_catch.
  match goal with |- context [match ?m st with _ => _ end] =>
    destruct (m st) as [[[]|ex] st1] end; cbn [snd] in Hb; [exact Hb|].
  unfold storeErr, releaseAccessHandles. rewrite bind_modify.
  unfold mbind, M_bind, modify, toss. cbn [snd]. destruct Hb as [Hb1 Hb2]. split.
  - apply wf_released. apply wf_set_err. exact Hb1.
  - exact Hb2.
Qed.

Lemma acquire_all_wf clearFiles files : ∀ st,
  wf st -> (∀ name, name ∈ files -> name ∈ (dirEntries st).*1) ->
  wf (acquire_all clearFiles files st).2.
Proof.
  induction files as [|name rest IH]; intros st Hwf Hin; cbn [acquire_all]; [exact Hwf|].
  destruct (acquire_one_wf clearFiles name st Hwf) as [Hwf1 Hd1]; [apply Hin; left|].
  assert (Hrest : wf (acquire_all clearFiles rest (acquire_one clearFiles name st).2).2).
  { apply IH; [exact Hwf1|]. intros n Hn. rewrite Hd1. apply Hin. right. exact Hn. }
  destruct (acquire_one clearFiles name st) as [[[]|ex] st1]; cbn [snd] in *; exact Hrest.
Qed.

Lemma releaseAccessHandles_eval st :
  releaseAccessHandles st =
  (Ok tt, set_availableSAH (fun _ => [])
            (set_mapFilenameToSAH (fun _ => ∅) (set_mapSAHToName (fun _ => ∅) st))).
Proof. reflexivity. Qed.

Lemma reset_wf clearFiles st : wf st -> wf (reset clearFiles st).2.
Proof.
  intros Hwf. unfold reset.
  rewrite (bind_ok _ _ _ _ _ (releaseAccessHandles_eval st)).
  unfold acquireAccessHandles. rewrite bind_gets. apply acquire_all_wf.
  - apply wf_released. exact Hwf.
  - intros name Hn. exact Hn.
Qed.

Lemma reduceCapacity_wf n st : wf st -> wf (reduceCapacity n st).2.
Proof.
  intros Hwf. unfold reduceCapacity. rewrite bind_gets.
  destruct (reduceCapacity_loop_spec n (availableSAH st) 0 st Hwf
              (wf_avail_nodup st Hwf) (fun _ H => H))
    as (k & st' & -> & _ & _ & Hwf' & _). exact Hwf'.
Qed.

Lemma OpfsSAHPool_isReady_wf clearOnInit initialCapacity st :
  wf st -> wf (OpfsSAHPool_isReady clearOnInit initialCapacity st).2.
Proof.
  intros Hwf. unfold OpfsSAHPool_isReady.
  pose proof (reset_wf clearOnInit st Hwf) as Hr.
  unfold mbind at 1. unfold M_bind at 1.
  destruct (reset clearOnInit st) as [[[]|ex] st1]; cbn [snd] in Hr; [|exact Hr].
  rewrite bind_gets. destruct (err st1); [exact Hr|].
  rewrite bind_gets. destruct (bool_decide _); [exact Hr|].
  pose proof (addCapacity_wf initialCapacity st1 Hr) as Ha.
  unfold mbind, M_bind.
  destruct (addCapacity initialCapacity st1) as [[k|ex] st2]; exact Ha.
Qed.

(** Every operation keeps the invariant, so every reachable state has it. *)
Lemma exec_wf op st : wf st -> wf (exec op st).
Proof.
  intros Hwf. destruct op; cbn [exec].
  - apply addCapacity_wf; exact Hwf.
  - apply reduceCapacity_wf; exact Hwf.
  - apply xOpen_wf; exact Hwf.
  - apply importDb_wf; exact Hwf.
  - apply deletePath_wf; exact Hwf.
  - apply xDelete_wf; exact Hwf.
  - apply xClose_wf; exact Hwf.
  - apply xWrite_wf; exact Hwf.
  - apply xTruncate_wf; exact Hwf.
  - apply reset_wf; exact Hwf.
  - apply OpfsSAHPool_isReady_wf. apply wf_new_pool. exact (wf_dir_nodup st Hwf).
Qed.

Lemma run_wf ops : ∀ st, wf st -> wf (run ops st).
Proof.
  unfold run. induction ops as [|op ops IH]; intros st Hwf; cbn [fold_left]; [exact Hwf|].
  apply IH. apply exec_wf. exact Hwf.
Qed.

Lemma reachable_wf st : reachable st -> wf st.
Proof. intros [ops ->]. apply run_wf. apply wf_new_pool. constructor. Qed.

(** The fields of the header buffer written for [path] and [flags]. *)
Lemma header_body_fields body path flags :
  length body = HEADER_CORPUS_SIZE ->
  (length (textEncode path) <= HEADER_MAX_PATH_SIZE)%nat ->
  take (length (textEncode path)) (header_body body path flags) = textEncode path ∧
  take HEADER_MAX_PATH_SIZE (header_body body path flags)
    = textEncode path ++ take (HEADER_MAX_PATH_SIZE - length (textEncode path))
                              (drop (length (textEncode path)) body) ∧
  drop HEADER_OFFSET_FLAGS (header_body body path flags) = be32 flags.
Proof.
  intros Hb Hk. rewrite header_body_shape by assumption.
  assert (Hl : length (textEncode path ++ take (HEADER_MAX_PATH_SIZE - length (textEncode path))
                         (drop (length (textEncode path)) body)) = HEADER_MAX_PATH_SIZE).
  { rewrite length_app, length_take, length_drop.
    unfold HEADER_CORPUS_SIZE, HEADER_MAX_PATH_SIZE, HEADER_FLAGS_SIZE in *. lia. }
  split; [apply take_app_length|]. rewrite app_assoc. split.
  - apply take_app_length'. symmetry. exact Hl.
  - apply drop_app_length'. symmetry. exact Hl.
Qed.

Lemma header_write_take c hb n :
  length hb = HEADER_CORPUS_SIZE -> (n <= HEADER_CORPUS_SIZE)%nat ->
  take n (header_write c hb) = take n hb.
Proof.
  intros Hl Hn. rewrite header_write_shape by exact Hl. apply take_app_le. lia.
Qed.

Lemma header_write_flags c hb :
  length hb = HEADER_CORPUS_SIZE ->
  take HEADER_FLAGS_SIZE (drop HEADER_OFFSET_FLAGS (header_write c hb))
  = drop HEADER_OFFSET_FLAGS hb.
Proof.
  intros Hl. rewrite header_write_shape by exact Hl.
  rewrite drop_app_le by (rewrite Hl; unfold HEADER_OFFSET_FLAGS, HEADER_CORPUS_SIZE; lia).
  apply take_app_length'. rewrite length_drop, Hl. reflexivity.
Qed.

Lemma sah_truncate_take c n k :
  (k <= n)%nat -> (k <= length c)%nat -> take k (sah_truncate c n) = take k c.
Proof.
  intros H1 H2. unfold sah_truncate.
  rewrite take_app_le by (rewrite length_take; lia). rewrite take_take. f_equal. lia.
Qed.

Lemma sah_truncate_drop_take c n a k :
  (a + k <= n)%nat -> (a + k <= length c)%nat ->
  take k (drop a (sah_truncate c n)) = take k (drop a c).
Proof.
  intros H1 H2. unfold sah_truncate.
  rewrite drop_app_le by (rewrite length_take; lia).
  rewrite take_app_le by (rewrite length_drop, length_take; lia).
  rewrite <- (take_drop n c) at 2. rewrite drop_app_le by (rewrite length_take; lia).
  rewrite take_app_le by (rewrite length_drop, length_take; lia). reflexivity.
Qed.

Lemma set_delete_head ah rest : NoDup (ah :: rest) -> set_delete ah (ah :: rest) = rest.
Proof.
  intros Hnd. inversion Hnd as [|? ? Hnotin _]; subst. unfold set_delete.
  rewrite filter_cons. destruct (decide (ah ≠ ah)) as [Hne|_]; [contradiction|].
  apply set_delete_notin. exact Hnotin.
Qed.

(** [xOpen] of an unmapped name with the create flag, on a pool without
    available slot whose counters agree. *)
Lemma xOpen_create_full st path pFile flags :
  mapFilenameToSAH st !! path = None ->
  Z.land flags SQLITE_OPEN_CREATE ≠ 0 ->
  (getFileCount st + length (availableSAH st) = getCapacity st)%nat ->
  availableSAH st = [] ->
  xOpen path pFile flags st = (Ok SQLITE_CANTOPEN, set_err (Some (PoolFull path)) st).
Proof.
  intros Hf Hc Hcnt Ha. unfold xOpen, try_catch. rewrite bind_gets, Hf.
  rewrite (bool_decide_eq_true_2 (None = None)) by reflexivity.
  rewrite (bool_decide_eq_true_2 _ Hc). cbn [andb].
  unfold mbind at 1. unfold M_bind at 1. rewrite bind_gets.
  rewrite bool_decide_eq_false_2 by (rewrite Ha in Hcnt; cbn [length] in Hcnt; lia).
  reflexivity.
Qed.

(** The same call when a slot is available and the path fits. *)
Lemma xOpen_create_assigns st path pFile flags ah nm c :
  mapFilenameToSAH st !! path = None ->
  Z.land flags SQLITE_OPEN_CREATE ≠ 0 ->
  path ≠ EmptyString ->
  (length (textEncode path) `min` length (apBody st) < HEADER_MAX_PATH_SIZE)%nat ->
  (getFileCount st + length (availableSAH st) = getCapacity st)%nat ->
  nextAvailableSAH st = Some ah ->
  mapSAHToName st !! ah = Some nm ->
  dir_lookup nm (dirEntries st) = Some c ->
  xOpen path pFile flags st =
  (Ok SQLITE_OK,
   mkSt (mapSAHToName st) (<[path := ah]> (mapFilenameToSAH st))
        (set_delete ah (availableSAH st))
        (<[pFile := mkOpenFile path flags ah SQLITE_LOCK_NONE]> (mapIdToFile st))
        (header_body (apBody st) path flags) (err st)
        (dir_update nm (header_write c (header_body (apBody st) path flags)) (dirEntries st))
        (sahCount st)).
Proof.
  intros Hf Hc Hne Hfit Hcnt Hnext Hn Hd. unfold xOpen, try_catch. rewrite bind_gets, Hf.
  rewrite (bool_decide_eq_true_2 (None = None)) by reflexivity.
  rewrite (bool_decide_eq_true_2 _ Hc). cbn [andb].
  unfold mbind at 1. unfold M_bind at 1. rewrite bind_gets.
  assert (Hroom : (getFileCount st < getCapacity st)%nat).
  { unfold nextAvailableSAH in Hnext. destruct (availableSAH st); [discriminate|].
    cbn [length] in Hcnt. lia. }
  rewrite (bool_decide_eq_true_2 _ Hroom). rewrite bind_gets, Hnext.
  destruct st as [names used avail files body e dir cnt]. sproj.
  erewrite bind_ok.
  2:{ rewrite (setAssociatedPath_live _ _ _ _ _ _ _ _ _ nm c) by assumption. cbv zeta.
      rewrite (bool_decide_eq_true_2 _ Hne). reflexivity. }
  reflexivity.
Qed.


(** The same call when a slot is available and the path does not fit:
    [setAssociatedPath] throws after [encodeInto] has written the buffer. *)
Lemma xOpen_create_long st path pFile flags ah :
  mapFilenameToSAH st !! path = None ->
  Z.land flags SQLITE_OPEN_CREATE ≠ 0 ->
  (HEADER_MAX_PATH_SIZE <= length (textEncode path) `min` length (apBody st))%nat ->
  (getFileCount st + length (availableSAH st) = getCapacity st)%nat ->
  nextAvailableSAH st = Some ah ->
  xOpen path pFile flags st =
  (Ok SQLITE_CANTOPEN,
   set_err (Some (PathTooLong path)) (set_apBody (overlay (textEncode path)) st)).
Proof.
  intros Hf Hc Hlong Hcnt Hnext. unfold xOpen, try_catch. rewrite bind_gets, Hf.
  rewrite (bool_decide_eq_true_2 (None = None)) by reflexivity.
  rewrite (bool_decide_eq_true_2 _ Hc). cbn [andb].
  unfold mbind at 1. unfold M_bind at 1. rewrite bind_gets.
  assert (Hroom : (getFileCount st < getCapacity st)%nat).
  { unfold nextAvailableSAH in Hnext. destruct (availableSAH st); [discriminate|].
    cbn [length] in Hcnt. lia. }
  rewrite (bool_decide_eq_true_2 _ Hroom). rewrite bind_gets, Hnext.
  rewrite (bind_throw _ _ _ _ _ (setAssociatedPath_long (Some ah) path flags st Hlong)).
  reflexivity.
Qed.

(** ** The counting invariant *)

Lemma length_set_add_new x s : x ∉ s -> length (set_add x s) = S (length s).
Proof.
  intros H. unfold set_add. rewrite bool_decide_eq_false_2 by exact H.
  rewrite length_app. cbn [length]. lia.
Qed.

Lemma set_add_old x s : x ∈ s -> set_add x s = s.
Proof. intros H. unfold set_add. rewrite bool_decide_eq_true_2 by exact H. reflexivity. Qed.

(** [setAssociatedPath] as [xOpen] and [importDb] call it: on the first
    available handle for an unmapped name, or on the handle of the name. *)
Lemma setAssociatedPath_count sah path flags st :
  wf st -> count_ok st ->
  (∀ ah, sah = Some ah ->
     (mapFilenameToSAH st !! path = None ∧ ah ∈ availableSAH st)
     ∨ (mapFilenameToSAH st !! path = Some ah ∧ path ≠ EmptyString)) ->
  count_ok (setAssociatedPath sah path flags st).2.
Proof.
  intros Hwf Hcnt Hpre.
  destruct (setAssociatedPath_cases sah path flags st)
    as [(ex & body' & Hl & ->) | (ah & nm & c & -> & Hn & Hd & Hfit)]; [exact Hcnt|].
  specialize (Hpre ah eq_refl).
  pose proof (wf_avail_nodup st Hwf) as Hnd.
  destruct st as [names used avail files body e dir cnt]. unfold count_ok, getFileCount,
    getCapacity in *. sproj.
  rewrite (setAssociatedPath_live _ _ _ _ _ _ _ _ _ nm c) by assumption. cbv zeta.
  destruct (bool_decide (path ≠ EmptyString)) eqn:E; sproj.
  - destruct Hpre as [[Hf Ha] | [Hf _]].
    + rewrite map_size_insert_None by exact Hf.
      pose proof (length_set_delete ah avail Hnd Ha). lia.
    + rewrite map_size_insert_Some by eauto.
      rewrite set_delete_notin; [exact Hcnt|].
      exact (wf_used_avail _ Hwf path ah Hf).
  - apply bool_decide_eq_false_1 in E. destruct Hpre as [[Hf Ha] | [_ Hne]]; [|contradiction].
    rewrite set_add_old by exact Ha. exact Hcnt.
Qed.

Lemma xOpen_count path pFile flags st :
  wf st -> count_ok st -> count_ok (xOpen path pFile flags st).2.
Proof.
  intros Hwf Hcnt. unfold xOpen, try_catch. rewrite bind_gets.
  destruct (mapFilenameToSAH st !! path) as [ah|] eqn:Hf.
  - rewrite (bool_decide_eq_false_2 (Some ah = None)) by discriminate.
    cbn [andb]. rewrite bind_ret, bind_modify. exact Hcnt.
  - rewrite (bool_decide_eq_true_2 (None = None)) by reflexivity. cbn [andb].
    destruct (bool_decide (Z.land flags SQLITE_OPEN_CREATE ≠ 0)).
    2:{ rewrite bind_ret. exact Hcnt. }
    unfold mbind at 1. unfold M_bind at 1. rewrite bind_gets.
    destruct (bool_decide (getFileCount st < getCapacity st)%nat); [|exact Hcnt].
    rewrite bind_gets.
    pose proof (setAssociatedPath_count (nextAvailableSAH st) path flags st Hwf Hcnt) as Hs.
    unfold mbind at 1. unfold M_bind at 1.
    assert (Hc1 : count_ok (setAssociatedPath (nextAvailableSAH st) path flags st).2).
    { apply Hs. intros ah Hh. left. split; [exact Hf | apply head_elem_of; exact Hh]. }
    destruct (setAssociatedPath (nextAvailableSAH st) path flags st) as [[[]|ex] st1];
      cbn [snd] in Hc1.
    + cbn [mret M_ret]. destruct (nextAvailableSAH st); exact Hc1.
    + exact Hc1.
Qed.

(** Releasing a slot the pool holds succeeds and adds it to the available
    set. *)
Lemma setAssociatedPath_release ah flags st nm c :
  mapSAHToName st !! ah = Some nm -> dir_lookup nm (dirEntries st) = Some c ->
  ∃ st', setAssociatedPath (Some ah) EmptyString flags st = (Ok tt, st') ∧
    mapSAHToName st' = mapSAHToName st ∧ mapFilenameToSAH st' = mapFilenameToSAH st ∧
    availableSAH st' = set_add ah (availableSAH st).
Proof.
  intros Hn Hd. destruct st as [names used avail files body e dir cnt]. sproj.
  rewrite (setAssociatedPath_live _ _ _ _ _ _ _ _ _ nm c); [|assumption|assumption|].
  2:{ rewrite textEncode_empty. cbn [length]. unfold HEADER_MAX_PATH_SIZE. lia. }
  cbv zeta. rewrite bool_decide_eq_false_2 by (intros H; apply H; reflexivity).
  eexists. split; [reflexivity|]. sproj. auto.
Qed.

Lemma deletePath_count path st :
  wf st -> count_ok st -> count_ok (deletePath path st).2.
Proof.
  intros Hwf Hcnt. unfold deletePath. rewrite bind_gets.
  destruct (mapFilenameToSAH st !! path) as [ah|] eqn:Hf; [|exact Hcnt].
  rewrite bind_modify.
  destruct (wf_used_live st Hwf path ah Hf) as [nm Hn].
  destruct (wf_names_file st Hwf ah nm Hn) as [c Hd].
  pose proof (wf_used_avail st Hwf path ah Hf) as Hna.
  destruct (setAssociatedPath_release ah 0 (set_mapFilenameToSAH (delete path) st) nm c)
    as (st' & Hs & Hn' & Hu' & Ha'); [destruct st; exact Hn | destruct st; exact Hd |].
  rewrite (bind_ok _ _ _ _ _ Hs). cbn [mret M_ret snd].
  unfold count_ok, getFileCount, getCapacity in *. rewrite Hn', Hu', Ha'.
  destruct st as [names used avail files body e dir cnt]. sproj.
  rewrite map_size_delete_Some by eauto. rewrite length_set_add_new by exact Hna.
  pose proof (map_size_ne_0_lookup_2 used path (ex_intro _ ah Hf)). lia.
Qed.

Lemma xDelete_count path st : wf st -> count_ok st -> count_ok (xDelete path st).2.
Proof.
  intros Hwf Hcnt. unfold xDelete, storeErr, try_catch. rewrite bind_modify.
  pose proof (deletePath_count path (set_err None st) (wf_set_err _ _ Hwf)) as Hd.
  unfold mbind, M_bind.
  destruct (deletePath path (set_err None st)) as [[b|ex] st1]; cbn [snd mret M_ret modify] in *.
  - apply Hd. destruct st; exact Hcnt.
  - specialize (Hd ltac:(destruct st; exact Hcnt)). destruct st1; exact Hd.
Qed.

Lemma addCapacity_count names st :
  wf st -> count_ok st -> count_ok (addCapacity names st).2.
Proof.
  revert st. induction names as [|name rest IH]; intros st Hwf Hcnt; cbn [addCapacity].
  - exact Hcnt.
  - unfold getFileHandle_create. rewrite bind_modify.
    apply (wf_getFileHandle_create name) in Hwf.
    assert (Hin : name ∈ (dirEntries (set_dirEntries (fun d => match dir_lookup name d with
                               | Some _ => d | None => d ++ [(name, [])] end) st)).*1).
    { sproj. destruct (dir_lookup name (dirEntries st)) eqn:Hd.
      - apply dir_lookup_is_Some. eauto.
      - rewrite fmap_app, elem_of_app. right. left. }
    assert (Hcnt1 : count_ok (set_dirEntries (fun d => match dir_lookup name d with
                               | Some _ => d | None => d ++ [(name, [])] end) st)).
    { destruct st; exact Hcnt. }
    revert Hwf Hin Hcnt1. generalize (set_dirEntries (fun d => match dir_lookup name d with
                               | Some _ => d | None => d ++ [(name, [])] end) st).
    clear st Hcnt. intros st Hwf Hin Hcnt.
    pose proof (createSyncAccessHandle_eval name st) as Hc.
    destruct (holds_lock (mapSAHToName st) name) eqn:Hlock.
    { rewrite (bind_throw _ _ _ _ _ Hc). exact Hcnt. }
    rewrite (bind_ok _ _ _ _ _ Hc). rewrite bind_modify.
    pose proof (wf_acquire st name Hwf Hlock Hin) as Hwf1.
    pose proof (fresh_not_avail st Hwf) as Hfa.
    assert (Hfn : mapSAHToName st !! sahCount st = None).
    { destruct (mapSAHToName st !! sahCount st) eqn:E; [|reflexivity].
      pose proof (wf_names_fresh st Hwf (sahCount st) (ex_intro _ _ E)). lia. }
    apply dir_lookup_is_Some in Hin as [c Hd].
    destruct (setAssociatedPath_release (sahCount st) 0
                (set_mapSAHToName (insert (sahCount st) name) (set_sahCount S st)) name c)
      as (st' & Hs & Hn' & Hu' & Ha').
    { destruct st; sproj. apply lookup_insert_eq. }
    { destruct st; exact Hd. }
    rewrite (bind_ok _ _ _ _ _ Hs).
    apply IH.
    + change st' with (Ok tt, st').2. rewrite <- Hs.
      apply setAssociatedPath_wf; [exact Hwf1|].
      intros a p [= <-] Hp. exfalso. exact (fresh_not_used st Hwf p Hp).
    + unfold count_ok, getFileCount, getCapacity in *. rewrite Hn', Hu', Ha'.
      destruct st as [nms used avail files body e dir cnt]. sproj.
      rewrite map_size_insert_None by exact Hfn.
      rewrite length_set_add_new by exact Hfa. lia.
Qed.

Lemma count_ok_frame st st' :
  mapSAHToName st' = mapSAHToName st -> mapFilenameToSAH st' = mapFilenameToSAH st ->
  availableSAH st' = availableSAH st -> count_ok st -> count_ok st'.
Proof.
  unfold count_ok, getFileCount, getCapacity. intros -> -> ->. exact id.
Qed.

Lemma count_ok_set_err e st : count_ok st -> count_ok (set_err e st).
Proof. destruct st. exact id. Qed.

Lemma count_ok_set_mapIdToFile f st : count_ok st -> count_ok (set_mapIdToFile f st).
Proof. destruct st. exact id. Qed.

Lemma sahWrite_count ah at_ data st : count_ok st -> count_ok (sahWrite ah at_ data st).2.
Proof.
  destruct (sahWrite_frame ah at_ data st) as (H1 & H2 & H3). apply count_ok_frame; assumption.
Qed.

Lemma sahTruncate_count ah n st : count_ok st -> count_ok (sahTruncate ah n st).2.
Proof.
  unfold sahTruncate, sah_content, sah_put, mbind, M_bind.
  destruct (mapSAHToName st !! ah) as [nm|]; [|exact id].
  destruct (dir_lookup nm (dirEntries st)); [|exact id].
  cbn [modify snd]. destruct st. exact id.
Qed.

Lemma importDb_count name bytes st :
  wf st -> count_ok st -> count_ok (importDb name bytes st).2.
Proof.
  intros Hwf Hcnt. unfold importDb. cbv zeta.
  destruct (_ || _); [exact Hcnt|].
  destruct (header_mismatch _ _); [exact Hcnt|].
  rewrite !bind_gets.
  assert (Hsel : ∀ sah,
    match mapFilenameToSAH st !! name with Some ah => Some ah | None => nextAvailableSAH st end
    = Some sah ->
    (mapFilenameToSAH st !! name = None ∧ sah ∈ availableSAH st)
    ∨ (mapFilenameToSAH st !! name = Some sah ∧ name ≠ EmptyString)).
  { intros sah Hsel. destruct (mapFilenameToSAH st !! name) as [ah|] eqn:Hf.
    - injection Hsel as ->. right. split; [reflexivity|].
      intros ->. rewrite (wf_used_nonempty st Hwf) in Hf. discriminate.
    - left. split; [reflexivity | apply head_elem_of; exact Hsel]. }
  destruct (match mapFilenameToSAH st !! name with Some ah => Some ah | None => _ end)
    as [sah|]; [|exact Hcnt].
  specialize (Hsel sah eq_refl).
  pose proof (sahWrite_wf sah HEADER_OFFSET_DATA bytes st Hwf) as Hw.
  pose proof (sahWrite_count sah HEADER_OFFSET_DATA bytes st Hcnt) as Hc.
  pose proof (sahWrite_frame sah HEADER_OFFSET_DATA bytes st) as (_ & Hfu & Hfa).
  unfold mbind, M_bind.
  destruct (sahWrite sah HEADER_OFFSET_DATA bytes st) as [[k|ex] st1]; cbn [snd] in *;
    [|exact Hc].
  apply setAssociatedPath_count; [exact Hw | exact Hc |].
  intros a [= <-]. rewrite Hfu, Hfa. exact Hsel.
Qed.

Lemma xWrite_count pFile src offset64 st :
  count_ok st -> count_ok (xWrite pFile src offset64 st).2.
Proof.
  intros Hcnt. unfold xWrite, storeErr, try_catch. rewrite bind_modify, bind_gets.
  apply (count_ok_set_err None) in Hcnt. revert Hcnt. generalize (set_err None st). clear st.
  intros st Hcnt.
  destruct (mapIdToFile st !! pFile) as [f|]; [|exact Hcnt].
  unfold deref. rewrite bind_ret. cbv zeta.
  destruct (_ <? 0).
  { cbn [toss]. rewrite bind_modify. cbn [mret M_ret snd]. apply count_ok_set_err. exact Hcnt. }
  pose proof (sahWrite_count (file_sah f) (Z.to_nat (Z.of_nat HEADER_OFFSET_DATA + offset64)) src
                st Hcnt) as Hw.
  unfold mbind at 1. unfold M_bind at 1.
  destruct (sahWrite _ _ _ _) as [[k|ex] st1]; cbn [snd mret M_ret] in *.
  - exact Hw.
  - rewrite bind_modify. cbn [mret M_ret snd]. apply count_ok_set_err. exact Hw.
Qed.

Lemma xTruncate_count pFile sz64 st :
  count_ok st -> count_ok (xTruncate pFile sz64 st).2.
Proof.
  intros Hcnt. unfold xTruncate, storeErr, try_catch. rewrite bind_modify, bind_gets.
  apply (count_ok_set_err None) in Hcnt. revert Hcnt. generalize (set_err None st). clear st.
  intros st Hcnt.
  destruct (mapIdToFile st !! pFile) as [f|]; unfold deref.
  2:{ cbn [toss mbind M_bind]. unfold mbind, M_bind. cbn [toss modify mret M_ret snd].
      apply count_ok_set_err. exact Hcnt. }
  rewrite bind_ret. cbv zeta.
  destruct (_ <? 0).
  { cbn [toss]. rewrite bind_modify. cbn [mret M_ret snd]. apply count_ok_set_err. exact Hcnt. }
  pose proof (sahTruncate_count (file_sah f) (Z.to_nat (Z.of_nat HEADER_OFFSET_DATA + sz64))
                st Hcnt) as Hw.
  unfold mbind at 1. unfold M_bind at 1.
  destruct (sahTruncate _ _ _) as [[|ex] st1]; cbn [snd mret M_ret] in *.
  - exact Hw.
  - rewrite bind_modify. cbn [mret M_ret snd]. apply count_ok_set_err. exact Hw.
Qed.

Lemma xClose_count pFile st : wf st -> count_ok st -> count_ok (xClose pFile st).2.
Proof.
  intros Hwf Hcnt. unfold xClose, storeErr, try_catch. rewrite bind_modify, bind_gets.
  apply (wf_set_err None) in Hwf. apply (count_ok_set_err None) in Hcnt.
  revert Hwf Hcnt. generalize (set_err None st). clear st.
  intros st Hwf Hcnt.
  destruct (mapIdToFile st !! pFile) as [f|]; [|exact Hcnt].
  pose proof (sahFlush_state (file_sah f) st) as Hfl.
  unfold mbind at 1. unfold M_bind at 1.
  destruct (sahFlush (file_sah f) st) as [[[]|ex] st1]; cbn [snd] in Hfl; subst st1.
  2:{ rewrite bind_modify. cbn [mret M_ret snd]. apply count_ok_set_err. exact Hcnt. }
  rewrite bind_modify.
  apply (wf_set_mapIdToFile (delete pFile)) in Hwf.
  apply (count_ok_set_mapIdToFile (delete pFile)) in Hcnt. revert Hwf Hcnt.
  generalize (set_mapIdToFile (delete pFile) st). clear st. intros st Hwf Hcnt.
  destruct (bool_decide _).
  - pose proof (deletePath_count (file_path f) st Hwf Hcnt) as Hd.
    unfold mbind, M_bind.
    destruct (deletePath (file_path f) st) as [[b|ex] st1]; cbn [snd mret M_ret modify] in *.
    + exact Hd.
    + apply count_ok_set_err. exact Hd.
  - rewrite bind_ret. exact Hcnt.
Qed.

Lemma reduceCapacity_count n st :
  wf st -> count_ok st -> count_ok (reduceCapacity n st).2.
Proof.
  intros Hwf Hcnt. unfold reduceCapacity. rewrite bind_gets.
  destruct (reduceCapacity_loop_spec n (availableSAH st) 0 st Hwf
              (wf_avail_nodup st Hwf) (fun _ H => H))
    as (k & st' & -> & _ & _ & _ & Hu & Hc & Ha & _). cbn [snd].
  unfold count_ok, getFileCount in *. rewrite Hu. lia.
Qed.

(** Every operation other than a rescan of the directory keeps the counting
    invariant. *)
Lemma exec_count_ok op st :
  wf st -> count_ok st -> is_rescan op = false -> count_ok (exec op st).
Proof.
  intros Hwf Hcnt Hop. destruct op; try discriminate Hop; cbn [exec].
  - apply addCapacity_count; assumption.
  - apply reduceCapacity_count; assumption.
  - apply xOpen_count; assumption.
  - apply importDb_count; assumption.
  - apply deletePath_count; assumption.
  - apply xDelete_count; assumption.
  - apply xClose_count; assumption.
  - apply xWrite_count; assumption.
  - apply xTruncate_count; assumption.
Qed.

Lemma run_count_ok ops : ∀ st,
  wf st -> count_ok st -> forallb (fun op => negb (is_rescan op)) ops = true ->
  count_ok (run ops st).
Proof.
  unfold run. induction ops as [|op ops IH]; intros st Hwf Hcnt Hops; cbn [fold_left];
    [exact Hcnt|].
  cbn [forallb] in Hops. apply andb_prop in Hops as [Hop Hops].
  apply negb_true_iff in Hop.
  apply IH; [apply exec_wf; exact Hwf | apply exec_count_ok; assumption | exact Hops].
Qed.

(** ** The digest in binary64 arithmetic *)

Lemma dg_bounds m : 2 ^ (dg m - 1) <= Z.pos m < 2 ^ dg m.
Proof.
  unfold dg. induction m as [m IH|m IH|]; cbn [digits2_pos].
  - rewrite Pos2Z.inj_succ. replace (Z.succ (Z.pos (digits2_pos m)) - 1) with
      (Z.succ (Z.pos (digits2_pos m) - 1)) by lia.
    rewrite !Z.pow_succ_r by lia. lia.
  - rewrite Pos2Z.inj_succ. replace (Z.succ (Z.pos (digits2_pos m)) - 1) with
      (Z.succ (Z.pos (digits2_pos m) - 1)) by lia.
    rewrite !Z.pow_succ_r by lia. lia.
  - cbn. lia.
Qed.

Lemma dg_pos m : 0 < dg m.
Proof. unfold dg. lia. Qed.

Lemma dg_ge m j : 0 <= j -> 2 ^ j <= Z.pos m -> j + 1 <= dg m.
Proof.
  intros Hj Hle. pose proof (dg_bounds m) as [_ Hlt].
  assert (H : 2 ^ j < 2 ^ dg m) by lia.
  apply Z.pow_lt_mono_r_iff in H; [lia | lia | pose proof (dg_pos m); lia].
Qed.

Lemma dg_le m j : 0 <= j -> Z.pos m < 2 ^ j -> dg m <= j.
Proof.
  intros Hj Hlt. pose proof (dg_bounds m) as [Hle _]. pose proof (dg_pos m).
  assert (H0 : 2 ^ (dg m - 1) < 2 ^ j) by lia.
  apply Z.pow_lt_mono_r_iff in H0; lia.
Qed.

Lemma dg_mul a b : dg a + dg b - 1 <= dg (a * b).
Proof.
  pose proof (dg_bounds a) as [Ha _]. pose proof (dg_bounds b) as [Hb _].
  pose proof (dg_pos a). pose proof (dg_pos b).
  replace (dg a + dg b - 1) with ((dg a - 1) + (dg b - 1) + 1) by lia.
  apply dg_ge; [lia|]. rewrite Z.pow_add_r by lia. rewrite Pos2Z.inj_mul.
  apply Z.mul_le_mono_nonneg; lia.
Qed.

Lemma dg_mono a b : (a <= b)%positive -> dg a <= dg b.
Proof.
  intros Hab. pose proof (dg_bounds a) as [Ha _]. pose proof (dg_pos a).
  assert (dg a - 1 + 1 <= dg b); [|lia]. apply dg_ge; lia.
Qed.

Lemma shr_1_m mrs : 0 <= shr_m mrs -> shr_m (shr_1 mrs) = shr_m mrs / 2.
Proof.
  destruct mrs as [m r s]. cbn [shr_m]. intros Hm.
  destruct m as [|[p|p|]|p]; cbn [shr_1 shr_m]; try lia.
  - reflexivity.
  - rewrite Pos2Z.inj_xI. apply Z.div_unique with 1; lia.
  - rewrite Pos2Z.inj_xO. apply Z.div_unique with 0; lia.
  - reflexivity.
Qed.

Lemma iter_shr_1_m p : ∀ mrs, 0 <= shr_m mrs ->
  shr_m (SpecFloat.iter_pos shr_1 p mrs) = shr_m mrs / 2 ^ Z.pos p.
Proof.
  induction p as [p IH|p IH|]; intros mrs Hm; cbn [SpecFloat.iter_pos].
  - assert (H1 : 0 <= shr_m (shr_1 mrs)).
    { rewrite shr_1_m by exact Hm. apply Z.div_pos; lia. }
    assert (H2 : 0 <= shr_m (SpecFloat.iter_pos shr_1 p (shr_1 mrs))).
    { rewrite IH by exact H1. apply Z.div_pos; [exact H1 | lia]. }
    rewrite IH by exact H2. rewrite IH by exact H1. rewrite shr_1_m by exact Hm.
    rewrite !Z.div_div by lia. f_equal.
    replace (Z.pos p~1) with (1 + Z.pos p + Z.pos p) by lia.
    rewrite !Z.pow_add_r by lia. lia.
  - assert (H2 : 0 <= shr_m (SpecFloat.iter_pos shr_1 p mrs)).
    { rewrite IH by exact Hm. apply Z.div_pos; [exact Hm | lia]. }
    rewrite IH by exact H2. rewrite IH by exact Hm.
    rewrite !Z.div_div by lia. f_equal.
    replace (Z.pos p~0) with (Z.pos p + Z.pos p) by lia.
    rewrite !Z.pow_add_r by lia. lia.
  - rewrite shr_1_m by exact Hm. reflexivity.
Qed.

Lemma round_nearest_even_cases m l :
  round_nearest_even m l = m ∨ round_nearest_even m l = m + 1.
Proof.
  destruct l as [|[]]; cbn [round_nearest_even]; auto. destruct (Z.even m); auto.
Qed.

Lemma shr_m_of_loc m l : shr_m (shr_record_of_loc m l) = m.
Proof. destruct l as [|[]]; reflexivity. Qed.

(** A mantissa of at most 53 digits is not shifted. *)
Lemma shr_fexp_fit m e l :
  dg m <= 53 -> -1021 <= dg m + e ->
  shr_fexp 53 1024 (Z.pos m) e l = (shr_record_of_loc (Z.pos m) l, e).
Proof.
  intros Hd He. unfold shr_fexp, fexp, emin, Zdigits2. fold (dg m).
  destruct (Z.max (dg m + e - 53) (3 - 1024 - 53) - e) as [|p|p] eqn:E; try reflexivity.
  exfalso. lia.
Qed.

(** A longer one is shifted down to 53 digits. *)
Lemma shr_fexp_shift m e l :
  53 < dg m -> -1021 <= dg m + e ->
  ∃ mrs, shr_fexp 53 1024 (Z.pos m) e l = (mrs, e + (dg m - 53)) ∧
         shr_m mrs = Z.pos m / 2 ^ (dg m - 53).
Proof.
  intros Hd He. unfold shr_fexp, fexp, emin, Zdigits2. fold (dg m).
  destruct (Z.max (dg m + e - 53) (3 - 1024 - 53) - e) as [|p|p] eqn:E; try (exfalso; lia).
  assert (Hp : Z.pos p = dg m - 53) by lia. cbn [shr]. rewrite <- Hp.
  eexists. split; [reflexivity|].
  rewrite iter_shr_1_m; rewrite shr_m_of_loc; [reflexivity | lia].
Qed.

(** Rounding a positive number in the normal range: the result is
    [+Infinity] or a positive float of at least the same magnitude. *)
Lemma binary_round_aux_mag m e :
  -1021 <= dg m + e ->
  binary_round_aux 53 1024 false (Z.pos m) e loc_Exact = S754_infinity false
  ∨ ∃ m' e', binary_round_aux 53 1024 false (Z.pos m) e loc_Exact = S754_finite false m' e' ∧
       dg m + e <= dg m' + e' ∧ dg m' <= 53 ∧ e' <= 971.
Proof.
  intros He. unfold binary_round_aux.
  destruct (Z_le_gt_dec (dg m) 53) as [Hd|Hd].
  - rewrite shr_fexp_fit by assumption.
    cbn [shr_record_of_loc loc_of_shr_record shr_m round_nearest_even].
    rewrite shr_fexp_fit by assumption. cbn [shr_record_of_loc shr_m].
    destruct (e <=? 1024 - 53) eqn:E; [|left; reflexivity].
    right. exists m, e. apply Z.leb_le in E. repeat split; lia.
  - destruct (shr_fexp_shift m e loc_Exact) as (mrs & -> & Hm); [lia | lia |].
    pose proof (dg_bounds m) as [Hlo Hhi].
    assert (Hk : 0 <= dg m - 53) by lia.
    assert (H1 : 2 ^ 52 <= shr_m mrs < 2 ^ 53).
    { rewrite Hm. split.
      - apply Z.div_le_lower_bound; [apply Z.pow_pos_nonneg; lia|].
        rewrite <- Z.pow_add_r by lia. replace (dg m - 53 + 52) with (dg m - 1) by lia.
        exact Hlo.
      - apply Z.div_lt_upper_bound; [apply Z.pow_pos_nonneg; lia|].
        rewrite <- Z.pow_add_r by lia. replace (dg m - 53 + 53) with (dg m) by lia.
        exact Hhi. }
    set (e1 := e + (dg m - 53)) in *.
    assert (H2 : 2 ^ 52 <= round_nearest_even (shr_m mrs) (loc_of_shr_record mrs) <= 2 ^ 53).
    { destruct (round_nearest_even_cases (shr_m mrs) (loc_of_shr_record mrs)) as [-> | ->];
        lia. }
    destruct (round_nearest_even (shr_m mrs) (loc_of_shr_record mrs)) as [|q|q] eqn:Eq;
      [exfalso; lia | | exfalso; lia].
    destruct (Z.eq_dec (Z.pos q) (2 ^ 53)) as [Htop|Hlt].
    + change (2 ^ 53) with 9007199254740992 in Htop. injection Htop as ->.
      unfold shr_fexp, fexp, emin.
      change (Zdigits2 9007199254740992) with 54.
      replace (Z.max (54 + e1 - 53) (3 - 1024 - 53) - e1) with 1 by lia.
      cbn [shr SpecFloat.iter_pos shr_record_of_loc shr_1 shr_m Pos.pow Pos.iter Pos.mul].
      destruct (e1 + 1 <=? 1024 - 53) eqn:E; [|left; reflexivity].
      right. eexists _, _. split; [reflexivity|]. apply Z.leb_le in E.
      change (dg 4503599627370496) with 53. unfold e1. lia.
    + assert (Hq : dg q = 53).
      { apply Z.le_antisymm; [apply dg_le; lia | apply (dg_ge q 52); lia]. }
      rewrite shr_fexp_fit by (unfold e1; lia). cbn [shr_record_of_loc shr_m].
      destruct (e1 <=? 1024 - 53) eqn:E; [|left; reflexivity].
      right. exists q, e1. apply Z.leb_le in E. unfold e1 in *. repeat split; lia.
Qed.

Lemma iter_xO m d : Z.pos (Pos.iter xO m d) = Z.pos m * 2 ^ Z.pos d.
Proof.
  induction d as [|d IH] using Pos.peano_ind.
  - cbn [Pos.iter]. lia.
  - rewrite Pos.iter_succ, Pos2Z.inj_xO, IH, Pos2Z.inj_succ, Z.pow_succ_r by lia. lia.
Qed.

Lemma shl_align_value m e e' :
  e' <= e -> Z.pos (shl_align m e e').1 = Z.pos m * 2 ^ (e - e').
Proof.
  intros Hle. unfold shl_align. destruct (e' - e) as [|d|d] eqn:E; cbn [fst].
  - replace (e - e') with 0 by lia. lia.
  - exfalso. lia.
  - rewrite iter_xO. f_equal. f_equal. lia.
Qed.

Lemma dg_shift m k : 0 <= k -> ∀ q, Z.pos q = Z.pos m * 2 ^ k -> dg m + k <= dg q.
Proof.
  intros Hk q Hq. pose proof (dg_bounds m) as [Hlo _]. pose proof (dg_pos m).
  replace (dg m + k) with (dg m - 1 + k + 1) by lia. apply dg_ge; [lia|].
  rewrite Hq, Z.pow_add_r by lia. apply Z.mul_le_mono_nonneg_r; [|exact Hlo].
  apply Z.pow_nonneg. lia.
Qed.

Lemma binary_round_mag m e :
  -1021 <= dg m + e ->
  binary_round 53 1024 false m e = S754_infinity false
  ∨ ∃ m' e', binary_round 53 1024 false m e = S754_finite false m' e' ∧
       dg m + e <= dg m' + e' ∧ dg m' <= 53 ∧ e' <= 971.
Proof.
  intros He. unfold binary_round. fold (dg m).
  destruct (shl_align m e (fexp 53 1024 (dg m + e))) as [mz ez] eqn:Ea.
  assert (Hmag : dg m + e <= dg mz + ez).
  { unfold shl_align in Ea. destruct (fexp 53 1024 (dg m + e) - e) as [|d|d] eqn:E;
      injection Ea as <- <-; try lia.
    pose proof (dg_shift m (Z.pos d) ltac:(lia) _ (iter_xO m d)). lia. }
  destruct (binary_round_aux_mag mz ez) as [-> | (m' & e' & -> & H1 & H2 & H3)]; [lia | auto |].
  right. exists m', e'. repeat split; try assumption; lia.
Qed.

Lemma addend_ok_byte v : 0 <= v < 256 -> addend_ok v = true.
Proof.
  intros Hv.
  assert (H : forallb addend_ok (map Z.of_nat (seq 0 256)) = true) by (vm_compute; reflexivity).
  rewrite forallb_forall in H. apply H. apply in_map_iff. exists (Z.to_nat v).
  split; [lia|]. apply in_seq. lia.
Qed.

Lemma mul31_grown k m e :
  0 <= k -> 31 + 4 * k <= dg m + e ->
  grown (k + 1) (num_mul (num_of_Z 31) (S754_finite false m e)).
Proof.
  intros Hk Hmag.
  change (num_of_Z 31) with (S754_finite false 8725724278030336 (-48)).
  unfold num_mul, SFmul. cbn [xorb].
  pose proof (dg_mul 8725724278030336 m) as Hd.
  change (dg 8725724278030336) with 53 in Hd.
  destruct (binary_round_aux_mag (8725724278030336 * m) (-48 + e))
    as [-> | (m' & e' & -> & H1 & H2 & H3)]; [lia | left; reflexivity |].
  right. exists m', e'. repeat split; try assumption; lia.
Qed.

Lemma add_grown k m e w :
  0 <= k -> 31 + 4 * k <= dg m + e ->
  w = S754_zero false ∨ (∃ m2 e2, w = S754_finite false m2 e2) ->
  dg m <= 53 -> e <= 971 ->
  grown k (num_add (S754_finite false m e) w).
Proof.
  intros Hk Hmag [-> | (m2 & e2 & ->)] Hd He.
  { right. exists m, e. auto. }
  unfold num_add, SFadd. cbv zeta. cbn [cond_Zopp].
  set (ez := Z.min e e2).
  pose proof (shl_align_value m e ez ltac:(unfold ez; lia)) as H1.
  pose proof (shl_align_value m2 e2 ez ltac:(unfold ez; lia)) as H2.
  destruct (shl_align m e ez) as [a1 x1]. destruct (shl_align m2 e2 ez) as [a2 x2].
  cbn [fst] in *.
  assert (Hs : dg m + e <= dg (a1 + a2) + ez).
  { pose proof (dg_shift m (e - ez) ltac:(unfold ez; lia) a1 H1).
    pose proof (dg_mono a1 (a1 + a2) ltac:(lia)). lia. }
  change (Z.pos a1 + Z.pos a2) with (Z.pos (a1 + a2)). cbn [binary_normalize].
  destruct (binary_round_mag (a1 + a2) ez) as [-> | (m' & e' & -> & H3 & H4 & H5)];
    [lia | left; reflexivity |].
  right. exists m', e'. repeat split; try assumption; lia.
Qed.

Lemma digest_step_grown k h v :
  0 <= k -> 0 <= v < 256 -> grown k h -> grown (k + 1) (digest_step h v).
Proof.
  intros Hk Hv Hh. unfold digest_step.
  pose proof (addend_ok_byte v Hv) as Hw. unfold addend_ok in Hw.
  assert (Hw' : num_mul (num_of_Z v) (num_of_Z 307) = S754_zero false
                ∨ ∃ m2 e2, num_mul (num_of_Z v) (num_of_Z 307) = S754_finite false m2 e2).
  { destruct (num_mul (num_of_Z v) (num_of_Z 307)) as [[]| | |[] m2 e2]; try discriminate;
      eauto. }
  clear Hw. revert Hw'. generalize (num_mul (num_of_Z v) (num_of_Z 307)). intros w Hw.
  destruct Hh as [-> | (m & e & -> & Hmag & Hd & He)].
  - left. change (num_mul (num_of_Z 31) (S754_infinity false)) with (S754_infinity false).
    destruct Hw as [-> | (m2 & e2 & ->)]; reflexivity.
  - destruct (mul31_grown k m e Hk Hmag) as [-> | (m' & e' & -> & H1 & H2 & H3)].
    + left. destruct Hw as [-> | (m2 & e2 & ->)]; reflexivity.
    + apply add_grown; try assumption; lia.
Qed.

Lemma digest_loop_grown l : ∀ k h,
  0 <= k -> Forall (fun v => 0 <= v < 256) l -> grown k h ->
  grown (k + Z.of_nat (length l)) (fold_left digest_step l h).
Proof.
  induction l as [|v l IH]; intros k h Hk Hl Hh; cbn [fold_left length].
  - replace (k + Z.of_nat 0) with k by lia. exact Hh.
  - inversion Hl as [|? ? Hv Hl']; subst.
    replace (k + Z.of_nat (S (length l))) with (k + 1 + Z.of_nat (length l)) by lia.
    apply IH; [lia | exact Hl' | apply digest_step_grown; assumption].
Qed.

Lemma grown_overflow k h : 249 <= k -> grown k h -> to_uint32 h = 0.
Proof.
  intros Hk [-> | (m & e & -> & Hmag & Hd & He)]; [reflexivity | exfalso; lia].
Qed.

(** Over a byte array of 249 bytes or more, so over every header body, both
    accumulators end as [+Infinity] and the digest is [[0, 0]]. *)
Lemma computeDigest_constant byteArray :
  (249 <= length byteArray)%nat -> Forall (fun v => 0 <= v < 256) byteArray ->
  computeDigest byteArray = (0, 0).
Proof.
  intros Hlen Hb. unfold computeDigest. cbv zeta. fold digest_step.
  assert (H1 : grown 0 (num_of_Z 0xdeadbeef)).
  { right. eexists _, _. split; [vm_compute; reflexivity|]. vm_compute.
    repeat split; discriminate. }
  assert (H2 : grown 0 (num_of_Z 0x41c6ce57)).
  { right. eexists _, _. split; [vm_compute; reflexivity|]. vm_compute.
    repeat split; discriminate. }
  apply (digest_loop_grown byteArray 0 _ ltac:(lia) Hb) in H1, H2.
  assert (Hk : 249 <= 0 + Z.of_nat (length byteArray)) by lia.
  rewrite (grown_overflow _ _ Hk H1), (grown_overflow _ _ Hk H2). reflexivity.
Qed.

Lemma flip_byte b j : 0 <= b < 256 -> (j < 8)%nat -> 0 <= Z.lxor b (2 ^ Z.of_nat j) < 256.
Proof.
  intros Hb Hj.
  assert (H : forallb (fun b => forallb (fun j =>
                (0 <=? Z.lxor (Z.of_nat b) (2 ^ Z.of_nat j))
                && (Z.lxor (Z.of_nat b) (2 ^ Z.of_nat j) <? 256)) (seq 0 8)) (seq 0 256) = true)
    by (vm_compute; reflexivity).
  rewrite forallb_forall in H. specialize (H (Z.to_nat b)).
  rewrite forallb_forall in H. specialize (H ltac:(apply in_seq; lia) j ltac:(apply in_seq; lia)).
  rewrite Z2Nat.id in H by lia. apply andb_prop in H as [H1 H2].
  apply Z.leb_le in H1. apply Z.ltb_lt in H2. lia.
Qed.

Lemma Forall_flip_bit l i j :
  Forall (fun v => 0 <= v < 256) l -> (j < 8)%nat ->
  Forall (fun v => 0 <= v < 256) (flip_bit l i j).
Proof.
  intros Hl Hj. unfold flip_bit. apply Forall_alter; [exact Hl|].
  intros b _ Hb. apply flip_byte; assumption.
Qed.

(** The digest check cannot see a change of the header body: a slot that
    passes it still passes it after any bit of its first 516 bytes is
    inverted. *)
Lemma holds_header_flip c hb i j :
  holds_header c hb -> Forall (fun v => 0 <= v < 256) hb ->
  (i < HEADER_CORPUS_SIZE)%nat -> (j < 8)%nat ->
  holds_header (flip_bit c i j) (flip_bit hb i j).
Proof.
  intros (Hl & Hh & Hdg) Hb Hi Hj. unfold holds_header, flip_bit, sah_read in *.
  rewrite length_alter. split; [exact Hl|]. split.
  - rewrite !drop_0 in *. rewrite take_alter_lt by exact Hi. rewrite Hh. reflexivity.
  - rewrite drop_alter_lt by exact Hi.
    rewrite Hdg.
    rewrite (computeDigest_constant hb), (computeDigest_constant (alter _ i hb));
      [reflexivity | | | | ].
    + rewrite length_alter, Hl. unfold HEADER_CORPUS_SIZE, HEADER_MAX_PATH_SIZE, HEADER_FLAGS_SIZE. lia.
    + apply (Forall_flip_bit hb i j); assumption.
    + rewrite Hl. unfold HEADER_CORPUS_SIZE, HEADER_MAX_PATH_SIZE, HEADER_FLAGS_SIZE. lia.
    + exact Hb.
Qed.

(** ** The digest modulo [2^32] *)

Lemma spec_step_range acc v : 0 <= spec_step acc v < 2^32.
Proof. unfold spec_step. apply Z.mod_pos_bound. reflexivity. Qed.

Lemma spec_fold_range l : ∀ s, 0 <= s < 2^32 -> 0 <= fold_left spec_step l s < 2^32.
Proof.
  induction l as [|v l IH]; intros s Hs; cbn [fold_left]; [exact Hs|].
  apply IH. apply spec_step_range.
Qed.

(** 31 is invertible modulo [2^32]: a step keeps different accumulators
    different. *)
Lemma spec_step_inj x y v :
  0 <= x < 2^32 -> 0 <= y < 2^32 -> spec_step x v = spec_step y v -> x = y.
Proof.
  unfold spec_step. change (2^32) with 4294967296. intros Hx Hy H.
  rewrite !Z.mod_eq in H by lia.
  set (qa := (31 * x + v * 307) / 4294967296) in H.
  set (qb := (31 * y + v * 307) / 4294967296) in H.
  assert (Ht : x - y = 4294967296 * (3186588639 * (qa - qb) - 23 * (x - y))) by lia.
  lia.
Qed.

Lemma spec_fold_inj l : ∀ x y,
  0 <= x < 2^32 -> 0 <= y < 2^32 ->
  fold_left spec_step l x = fold_left spec_step l y -> x = y.
Proof.
  induction l as [|v l IH]; intros x y Hx Hy H; cbn [fold_left] in H; [exact H|].
  apply IH in H; try apply spec_step_range. exact (spec_step_inj x y v Hx Hy H).
Qed.

Lemma flip_byte_ne b j : 0 <= b < 256 -> (j < 8)%nat -> Z.lxor b (2 ^ Z.of_nat j) ≠ b.
Proof.
  intros Hb Hj.
  assert (H : forallb (fun b => forallb (fun j =>
                negb (Z.lxor (Z.of_nat b) (2 ^ Z.of_nat j) =? Z.of_nat b)) (seq 0 8))
                (seq 0 256) = true)
    by (vm_compute; reflexivity).
  rewrite forallb_forall in H. specialize (H (Z.to_nat b)).
  rewrite forallb_forall in H. specialize (H ltac:(apply in_seq; lia) j ltac:(apply in_seq; lia)).
  rewrite Z2Nat.id in H by lia. apply negb_true_iff, Z.eqb_neq in H. exact H.
Qed.

Lemma spec_step_byte a v v' :
  0 <= v < 256 -> 0 <= v' < 256 -> spec_step a v = spec_step a v' -> v = v'.
Proof.
  unfold spec_step. change (2^32) with 4294967296. intros Hv Hv' H.
  rewrite !Z.mod_eq in H by lia.
  set (qa := (31 * a + v * 307) / 4294967296) in H.
  set (qb := (31 * a + v' * 307) / 4294967296) in H.
  lia.
Qed.

(** Reduced modulo [2^32] at every byte, each accumulator changes when one
    bit of the byte array is inverted. *)
Lemma spec_digest_flip hb i j :
  Forall (fun v => 0 <= v < 256) hb -> (i < length hb)%nat -> (j < 8)%nat ->
  (spec_digest (flip_bit hb i j)).1 ≠ (spec_digest hb).1
  ∧ (spec_digest (flip_bit hb i j)).2 ≠ (spec_digest hb).2.
Proof.
  intros Hb Hi Hj. unfold spec_digest. cbv zeta. fold spec_step. cbn [fst snd].
  destruct (lookup_lt_is_Some_2 hb i Hi) as [v Hv].
  assert (Hbv : 0 <= v < 256).
  { rewrite Forall_lookup in Hb. exact (Hb i v Hv). }
  pose proof (take_drop_middle hb i v Hv) as Hsplit.
  assert (Hflip : flip_bit hb i j = take i hb ++ Z.lxor v (2 ^ Z.of_nat j) :: drop (S i) hb).
  { unfold flip_bit. rewrite <- Hsplit at 1.
    rewrite alter_app_r_alt by (rewrite length_take; lia).
    rewrite length_take. replace (i - i `min` length hb)%nat with 0%nat by lia. reflexivity. }
  rewrite Hflip. clear Hflip. revert Hsplit. generalize (take i hb) (drop (S i) hb).
  intros l1 l2 Hsplit. rewrite <- Hsplit. rewrite !fold_left_app. cbn [fold_left].
  assert (Hne : ∀ s, 0 <= s < 2^32 ->
            fold_left spec_step l2 (spec_step (fold_left spec_step l1 s)
                                              (Z.lxor v (2 ^ Z.of_nat j)))
            ≠ fold_left spec_step l2 (spec_step (fold_left spec_step l1 s) v)).
  { intros s Hs H. apply spec_fold_inj in H; try apply spec_step_range.
    apply spec_step_byte in H; [|apply flip_byte; assumption | exact Hbv].
    exact (flip_byte_ne v j Hbv Hj H). }
  split; apply Hne; vm_compute; split; discriminate || reflexivity.
Qed.
Local Open Scope string_scope.
Local Open Scope list_scope.
Local Open Scope Z_scope.

(** * The claims of the specification *)

(** ** C1: used slots plus available slots make up the capacity *)

(** C1. In the reachable state left by [trace_three_files] the counters
    agree, 3 + 0 = 3. The third name was written over the longer second
    one in the shared header buffer, so two slots carry the header path
    ["/xycdef"]; after [reset(false)], and likewise after a restart of the
    pool over the same directory, the pool still holds three slots but
    maps two names and has no available slot: 2 + 0 < 3, against the
    invariant the claim states for every reachable state. *)
Theorem C1_count_invariant_broken_by_reset :
  let st := run trace_three_files (new_pool []) in
  let st' := run (trace_three_files ++ [OpReset false]) (new_pool []) in
  let st'' := run (trace_three_files ++ [OpRestart false ["n4"]]) (new_pool []) in
  reachable st ∧ reachable st' ∧ reachable st'' ∧
  (getFileCount st = 3 ∧ length (availableSAH st) = 0 ∧ getCapacity st = 3)%nat ∧
  textDecode (take 7 (slot_content "n2" st)) = "/xycdef" ∧
  textDecode (take 7 (slot_content "n3" st)) = "/xycdef" ∧
  (getFileCount st' = 2 ∧ length (availableSAH st') = 0 ∧ getCapacity st' = 3)%nat ∧
  (getFileCount st' + length (availableSAH st') ≠ getCapacity st')%nat ∧
  (getFileCount st'' = 2 ∧ length (availableSAH st'') = 0 ∧ getCapacity st'' = 3)%nat.
Proof.
  cbv zeta. split; [eexists; reflexivity|]. split; [eexists; reflexivity|].
  split; [eexists; reflexivity|].
  vm_compute. repeat split; try reflexivity. discriminate.
Qed.

(** ** C2: assigning a slot fails exactly when none is available *)

(** C2, as stated, fails: [pool_one_slot] has an available slot, the name
    [long_path] is not mapped and the create flag is set, yet [xOpen] does
    not assign the slot. The name is 512 bytes long, [setAssociatedPath]
    tosses "Path too long", and the slot stays available. *)
Lemma C2_counterexample_path_too_long :
  let st := pool_one_slot in
  let r := xOpen long_path 100 OPEN_MAIN_DB_CREATE st in
  mapFilenameToSAH st !! long_path = None ∧
  Z.land OPEN_MAIN_DB_CREATE SQLITE_OPEN_CREATE ≠ 0 ∧
  availableSAH st = [0%nat] ∧
  r.1 = Ok SQLITE_CANTOPEN ∧
  err r.2 = Some (PathTooLong long_path) ∧
  mapFilenameToSAH r.2 !! long_path = None ∧
  availableSAH r.2 = [0%nat] ∧
  ¬ (∃ st', xOpen long_path 100 OPEN_MAIN_DB_CREATE st = (Ok SQLITE_OK, st')).
Proof.
  cbv zeta. split; [vm_compute; reflexivity|]. split; [vm_compute; discriminate|].
  split; [vm_compute; reflexivity|]. split; [vm_compute; reflexivity|].
  split; [vm_compute; reflexivity|]. split; [vm_compute; reflexivity|].
  split; [vm_compute; reflexivity|].
  intros [st' H]. apply (f_equal fst) in H. vm_compute in H. discriminate.
Qed.

(** C2, amended. In a reachable state whose counters agree (used plus
    available equals capacity), [xOpen] with the create flag, for a
    non-empty unmapped name, fails with the pool-is-full error if and only
    if no slot is available. When a slot is available and the name is
    shorter than 512 bytes it succeeds: the first available slot leaves the
    available set and is mapped to the name, and its content starts with
    the header buffer (the name's bytes first, the flag word at offset 512)
    followed by the digest of that buffer. When a slot is available and the
    name has 512 bytes or more it fails with the path-too-long error: no
    name is mapped, the available set, the handles, the directory and the
    open files are as before. *)
Theorem C2_xOpen_assigns_slot (st : St) (path : string) (pFile flags : Z) :
  reachable st ->
  (getFileCount st + length (availableSAH st) = getCapacity st)%nat ->
  mapFilenameToSAH st !! path = None ->
  Z.land flags SQLITE_OPEN_CREATE ≠ 0 ->
  path ≠ "" ->
  (availableSAH st = [] <->
   ∃ st', xOpen path pFile flags st = (Ok SQLITE_CANTOPEN, st')
          ∧ err st' = Some (PoolFull path)) ∧
  (∀ ah, nextAvailableSAH st = Some ah ->
     (length (textEncode path) < HEADER_MAX_PATH_SIZE)%nat ->
     ∃ nm st' c',
       xOpen path pFile flags st = (Ok SQLITE_OK, st') ∧
       mapSAHToName st !! ah = Some nm ∧
       mapFilenameToSAH st' = (<[path := ah]> (mapFilenameToSAH st)) ∧
       availableSAH st' = tail (availableSAH st) ∧
       (ah ∉ availableSAH st') ∧
       dir_lookup nm (dirEntries st') = Some c' ∧
       holds_header c' (apBody st') ∧
       take (length (textEncode path)) c' = textEncode path ∧
       of_be32 (take HEADER_FLAGS_SIZE (drop HEADER_OFFSET_FLAGS c')) = flags mod 2^32) ∧
  (∀ ah, nextAvailableSAH st = Some ah ->
     (HEADER_MAX_PATH_SIZE <= length (textEncode path))%nat ->
     ∃ st',
       xOpen path pFile flags st = (Ok SQLITE_CANTOPEN, st') ∧
       err st' = Some (PathTooLong path) ∧
       mapFilenameToSAH st' = mapFilenameToSAH st ∧
       availableSAH st' = availableSAH st ∧
       mapSAHToName st' = mapSAHToName st ∧
       dirEntries st' = dirEntries st ∧
       mapIdToFile st' = mapIdToFile st).
Proof.
  intros Hreach Hcnt Hf Hc Hne. pose proof (reachable_wf st Hreach) as Hwf.
  pose proof (wf_body st Hwf) as Hb.
  assert (Hassign : ∀ ah, nextAvailableSAH st = Some ah ->
     (length (textEncode path) < HEADER_MAX_PATH_SIZE)%nat ->
     ∃ nm st' c',
       xOpen path pFile flags st = (Ok SQLITE_OK, st') ∧
       mapSAHToName st !! ah = Some nm ∧
       mapFilenameToSAH st' = (<[path := ah]> (mapFilenameToSAH st)) ∧
       availableSAH st' = tail (availableSAH st) ∧
       (ah ∉ availableSAH st') ∧
       dir_lookup nm (dirEntries st') = Some c' ∧
       holds_header c' (apBody st') ∧
       take (length (textEncode path)) c' = textEncode path ∧
       of_be32 (take HEADER_FLAGS_SIZE (drop HEADER_OFFSET_FLAGS c')) = flags mod 2^32).
  { intros ah Hnext Hk.
    assert (Hin : ah ∈ availableSAH st) by (apply head_elem_of; exact Hnext).
    destruct (wf_avail_live st Hwf ah Hin) as [nm Hn].
    destruct (wf_names_file st Hwf ah nm Hn) as [c Hd].
    set (hb := header_body (apBody st) path flags).
    assert (Hlen : length hb = HEADER_CORPUS_SIZE)
      by (unfold hb; rewrite length_header_body; exact Hb).
    destruct (header_body_fields (apBody st) path flags Hb ltac:(lia)) as (Hp & _ & Hfl).
    assert (Htl : set_delete ah (availableSAH st) = tail (availableSAH st)).
    { pose proof (wf_avail_nodup st Hwf) as Hnd. unfold nextAvailableSAH in Hnext.
      destruct (availableSAH st) as [|a rest]; [discriminate|]. injection Hnext as ->.
      apply set_delete_head. exact Hnd. }
    exists nm. eexists. exists (header_write c hb).
    split.
    { apply (xOpen_create_assigns st path pFile flags ah nm c); auto. rewrite Hb.
      unfold HEADER_CORPUS_SIZE, HEADER_MAX_PATH_SIZE, HEADER_FLAGS_SIZE in *. lia. }
    sproj. split; [exact Hn|]. split; [reflexivity|]. split; [exact Htl|].
    split.
    { rewrite Htl. pose proof (wf_avail_nodup st Hwf) as Hnd. unfold nextAvailableSAH in Hnext.
      destruct (availableSAH st) as [|a rest]; [discriminate|]. injection Hnext as ->.
      inversion Hnd; assumption. }
    split; [apply dir_lookup_update; eauto|].
    split; [apply holds_header_write; exact Hlen|].
    split.
    - rewrite header_write_take by
        (auto; unfold HEADER_CORPUS_SIZE, HEADER_MAX_PATH_SIZE, HEADER_FLAGS_SIZE in *; lia).
      exact Hp.
    - rewrite header_write_flags by exact Hlen. fold hb in Hfl. rewrite Hfl.
      apply of_be32_be32. }
  assert (Hlong : ∀ ah, nextAvailableSAH st = Some ah ->
     (HEADER_MAX_PATH_SIZE <= length (textEncode path))%nat ->
     xOpen path pFile flags st =
     (Ok SQLITE_CANTOPEN,
      set_err (Some (PathTooLong path)) (set_apBody (overlay (textEncode path)) st))).
  { intros ah Hnext Hk. apply (xOpen_create_long st path pFile flags ah); auto.
    rewrite Hb. unfold HEADER_CORPUS_SIZE, HEADER_MAX_PATH_SIZE, HEADER_FLAGS_SIZE in *. lia. }
  split; [|split; [exact Hassign|]].
  - split.
    + intros Ha. eexists. split; [apply xOpen_create_full; assumption | reflexivity].
    + intros (st' & Hx & He). destruct (availableSAH st) as [|ah rest] eqn:Ha; [reflexivity|].
      assert (Hnext : nextAvailableSAH st = Some ah)
        by (unfold nextAvailableSAH; rewrite Ha; reflexivity).
      destruct (le_lt_dec HEADER_MAX_PATH_SIZE (length (textEncode path))) as [Hk|Hk].
      * rewrite (Hlong ah Hnext Hk) in Hx. injection Hx as <-. discriminate He.
      * destruct (Hassign ah Hnext Hk) as (nm & st2 & c' & Hx2 & _).
        rewrite Hx in Hx2. discriminate.
  - intros ah Hnext Hk. eexists. split; [exact (Hlong ah Hnext Hk)|].
    repeat split; reflexivity.
Qed.

Lemma C2_xOpen_assigns_slot_witness :
  reachable pool_one_slot ∧
  (getFileCount pool_one_slot + length (availableSAH pool_one_slot)
   = getCapacity pool_one_slot)%nat ∧
  mapFilenameToSAH pool_one_slot !! "/a" = None ∧
  Z.land OPEN_MAIN_DB_CREATE SQLITE_OPEN_CREATE ≠ 0 ∧
  "/a" ≠ "" ∧
  (availableSAH pool_one_slot = [] <->
   ∃ st', xOpen "/a" 100 OPEN_MAIN_DB_CREATE pool_one_slot = (Ok SQLITE_CANTOPEN, st')
          ∧ err st' = Some (PoolFull "/a")) ∧
  (∀ ah, nextAvailableSAH pool_one_slot = Some ah ->
     (length (textEncode "/a") < HEADER_MAX_PATH_SIZE)%nat ->
     ∃ nm st' c',
       xOpen "/a" 100 OPEN_MAIN_DB_CREATE pool_one_slot = (Ok SQLITE_OK, st') ∧
       mapSAHToName pool_one_slot !! ah = Some nm ∧
       mapFilenameToSAH st' = (<["/a" := ah]> (mapFilenameToSAH pool_one_slot)) ∧
       availableSAH st' = tail (availableSAH pool_one_slot) ∧
       (ah ∉ availableSAH st') ∧
       dir_lookup nm (dirEntries st') = Some c' ∧
       holds_header c' (apBody st') ∧
       take (length (textEncode "/a")) c' = textEncode "/a" ∧
       of_be32 (take HEADER_FLAGS_SIZE (drop HEADER_OFFSET_FLAGS c'))
       = OPEN_MAIN_DB_CREATE mod 2^32) ∧
  (∀ ah, nextAvailableSAH pool_one_slot = Some ah ->
     (HEADER_MAX_PATH_SIZE <= length (textEncode "/a"))%nat ->
     ∃ st',
       xOpen "/a" 100 OPEN_MAIN_DB_CREATE pool_one_slot = (Ok SQLITE_CANTOPEN, st') ∧
       err st' = Some (PathTooLong "/a") ∧
       mapFilenameToSAH st' = mapFilenameToSAH pool_one_slot ∧
       availableSAH st' = availableSAH pool_one_slot ∧
       mapSAHToName st' = mapSAHToName pool_one_slot ∧
       dirEntries st' = dirEntries pool_one_slot ∧
       mapIdToFile st' = mapIdToFile pool_one_slot).
Proof.
  assert (H1 : reachable pool_one_slot) by (eexists; reflexivity).
  assert (H2 : (getFileCount pool_one_slot + length (availableSAH pool_one_slot)
                = getCapacity pool_one_slot)%nat) by (vm_compute; reflexivity).
  assert (H3 : mapFilenameToSAH pool_one_slot !! "/a" = None) by (vm_compute; reflexivity).
  assert (H4 : Z.land OPEN_MAIN_DB_CREATE SQLITE_OPEN_CREATE ≠ 0) by (vm_compute; discriminate).
  assert (H5 : "/a" ≠ "") by discriminate.
  exact (conj H1 (conj H2 (conj H3 (conj H4 (conj H5
          (C2_xOpen_assigns_slot pool_one_slot "/a" 100 OPEN_MAIN_DB_CREATE
             H1 H2 H3 H4 H5)))))).
Defined.

(** ** C3: decoding an encoded header gives the pair back *)

(** Where the round trip holds. For a non-empty name without NUL byte,
    shorter than 512 bytes, that [TextDecoder] gives back, and flags (a
    32-bit value) with a persistent file type and without the
    delete-on-close bit: when the shared header buffer holds a zero byte
    right behind the position where the name ends, [setAssociatedPath]
    followed by [getAssociatedPath] on an open handle returns the name,
    the flags are read back unchanged, and the slot keeps its
    association. *)
Lemma setAssociatedPath_then_getAssociatedPath st ah nm c path flags :
  mapSAHToName st !! ah = Some nm ->
  dir_lookup nm (dirEntries st) = Some c ->
  length (apBody st) = HEADER_CORPUS_SIZE ->
  path ≠ EmptyString ->
  (length (textEncode path) < HEADER_MAX_PATH_SIZE)%nat ->
  Forall (fun b => b ≠ 0) (textEncode path) ->
  apBody st !! length (textEncode path) = Some 0 ->
  0 <= flags < 2^32 ->
  Z.land flags SQLITE_OPEN_DELETEONCLOSE = 0 ->
  Z.land flags PERSISTENT_FILE_TYPES ≠ 0 ->
  textDecode (textEncode path) = path ->
  ∃ st1 st2,
    setAssociatedPath (Some ah) path flags st = (Ok tt, st1) ∧
    getAssociatedPath ah st1 = (Ok path, st2) ∧
    dvBody_getUint32 HEADER_OFFSET_FLAGS st2 = flags ∧
    (∃ c1, dir_lookup nm (dirEntries st2) = Some c1 ∧
           textDecode (take (length (textEncode path)) c1) = path ∧
           of_be32 (take HEADER_FLAGS_SIZE (drop HEADER_OFFSET_FLAGS c1)) = flags) ∧
    mapFilenameToSAH st2 = mapFilenameToSAH st1 ∧
    availableSAH st2 = availableSAH st1.
Proof.
  destruct st as [names used avail files body e dir cnt]. cbn [mapSAHToName dirEntries apBody].
  intros Hn Hd Hb Hne Hk Hnz Hz Hfl Hdc Hpf Hdec.
  rewrite (setAssociatedPath_live _ _ _ _ _ _ _ _ _ nm c) by (auto; lia). cbv zeta.
  rewrite bool_decide_eq_true_2 by assumption.
  eexists. eexists. split; [reflexivity|].
  set (hb := header_body body path flags).
  assert (Hlen : length hb = HEADER_CORPUS_SIZE) by (unfold hb; rewrite length_header_body; exact Hb).
  assert (Hshape : ∃ rest, hb = textEncode path ++ 0 :: rest ++ be32 flags
                           ∧ length (textEncode path ++ 0 :: rest) = HEADER_MAX_PATH_SIZE).
  { unfold hb. rewrite header_body_shape by (auto; lia).
    rewrite (drop_S _ _ _ Hz).
    destruct (HEADER_MAX_PATH_SIZE - length (textEncode path))%nat as [|m] eqn:Em; [lia|].
    cbn [take]. exists (take m (drop (S (length (textEncode path))) body)).
    split; [reflexivity|].
    rewrite length_app. cbn [length]. rewrite length_take, length_drop.
    unfold HEADER_CORPUS_SIZE, HEADER_MAX_PATH_SIZE, HEADER_FLAGS_SIZE in *. lia. }
  destruct Hshape as (rest & Hshape & Hlp).
  assert (Hshape2 : hb = (textEncode path ++ 0 :: rest) ++ be32 flags).
  { rewrite Hshape, <- app_assoc. reflexivity. }
  assert (Hflags : of_be32 (drop HEADER_OFFSET_FLAGS hb) = flags).
  { rewrite Hshape2.
    rewrite drop_app_length' by (symmetry; exact Hlp).
    rewrite of_be32_be32. apply Z.mod_small. exact Hfl. }
  assert (H0 : ∃ b, hb !! 0%nat = Some b ∧ b ≠ 0).
  { rewrite Hshape. destruct (textEncode path) as [|b p] eqn:Ep.
    - pose proof (textEncode_nonempty path Hne) as Hl0. rewrite Ep in Hl0.
      cbn [length] in Hl0. lia.
    - exists b. split; [reflexivity|]. inversion Hnz; assumption. }
  assert (Hfi : findIndex0 hb 0 = Z.of_nat (length (textEncode path))).
  { rewrite Hshape. rewrite findIndex0_app by assumption. lia. }
  assert (Hpos : (0 < length (textEncode path))%nat).
  { apply textEncode_nonempty. exact Hne. }
  rewrite (getAssociatedPath_holds_header _ _ _ _ _ _ _ _ _ nm (header_write c hb) hb).
  2: assumption.
  2: apply dir_lookup_update; eauto.
  2: exact Hlen.
  2: apply holds_header_write; exact Hlen.
  cbv zeta. rewrite Hflags.
  rewrite (bool_decide_eq_false_2 (Z.land flags SQLITE_OPEN_DELETEONCLOSE ≠ 0)) by tauto.
  rewrite (bool_decide_eq_false_2 (Z.land flags PERSISTENT_FILE_TYPES = 0)) by assumption.
  rewrite andb_false_r.
  rewrite Hfi.
  rewrite bool_decide_eq_true_2 by lia. rewrite bool_decide_eq_false_2 by lia.
  assert (Hsub : subarray0 hb (Z.of_nat (length (textEncode path))) = textEncode path).
  { unfold subarray0. cbv zeta.
    destruct (Z.ltb_spec (Z.of_nat (length (textEncode path))) 0); [lia|].
    rewrite Z.min_l by (rewrite Hlen; unfold HEADER_CORPUS_SIZE, HEADER_MAX_PATH_SIZE, HEADER_FLAGS_SIZE in *; lia).
    rewrite Nat2Z.id, Hshape. apply take_app_length. }
  rewrite Hsub, Hdec.
  split; [reflexivity|]. cbn [mapFilenameToSAH availableSAH dirEntries].
  split; [exact Hflags|].
  split; [|split; reflexivity].
  exists (header_write c hb). split; [apply dir_lookup_update; eauto|].
  rewrite header_write_shape by exact Hlen.
  split.
  - rewrite Hshape at 1. rewrite <- !app_assoc. rewrite take_app_length. exact Hdec.
  - rewrite Hshape2 at 1. rewrite <- (app_assoc _ (be32 flags)).
    rewrite drop_app_length' by (symmetry; exact Hlp).
    rewrite take_app_length' by reflexivity.
    rewrite of_be32_be32. apply Z.mod_small. exact Hfl.
Qed.


(** C3. The pair [("/xy", OPEN_MAIN_DB_CREATE)] is valid: a non-empty name
    of three bytes, flags with a persistent file type and without the
    delete-on-close bit. In the reachable pool of two slots where
    ["/abcdef"] was opened before, [setAssociatedPath] writes it to the
    free slot and succeeds, the flag word is stored intact, but
    [getAssociatedPath] on that slot returns ["/xycdef"], not ["/xy"]: the
    bytes ["cdef"] of the earlier name are still in the shared buffer
    behind the new name, and the header is read up to its first zero
    byte. *)
Theorem C3_roundtrip_broken_by_stale_bytes :
  let st := run [OpAddCapacity ["n1"; "n2"];
                 OpOpen "/abcdef" 100 OPEN_MAIN_DB_CREATE] (new_pool []) in
  let r1 := setAssociatedPath (Some 1%nat) "/xy" OPEN_MAIN_DB_CREATE st in
  let r2 := getAssociatedPath 1%nat r1.2 in
  reachable st ∧
  mapSAHToName st !! 1%nat = Some "n2" ∧
  availableSAH st = [1%nat] ∧
  (0 < length (textEncode "/xy") < HEADER_MAX_PATH_SIZE)%nat ∧
  Z.land OPEN_MAIN_DB_CREATE PERSISTENT_FILE_TYPES ≠ 0 ∧
  Z.land OPEN_MAIN_DB_CREATE SQLITE_OPEN_DELETEONCLOSE = 0 ∧
  r1.1 = Ok tt ∧
  mapFilenameToSAH r1.2 !! "/xy" = Some 1%nat ∧
  of_be32 (take HEADER_FLAGS_SIZE (drop HEADER_OFFSET_FLAGS (slot_content "n2" r1.2)))
  = OPEN_MAIN_DB_CREATE ∧
  take 8 (slot_content "n2" r1.2) = textEncode "/xycdef" ++ [0] ∧
  r2.1 = Ok "/xycdef" ∧
  r2.1 ≠ Ok "/xy".
Proof.
  cbv zeta. split; [eexists; reflexivity|].
  vm_compute. repeat split; try reflexivity; try discriminate; lia.
Qed.

(** ** C4: a flipped header bit is reported as corruption *)

(** C4. The slot of [pool_one_file] holds the header of ["/a"]; inverting
    bit 1 of its byte 1 turns the stored name into ["/c"]. The digest
    [computeDigest] of both header buffers is [(0,0)], the accumulators
    having overflowed to infinity, so [getAssociatedPath] accepts the
    changed header and returns ["/c"], and [reset(false)] maps the slot
    under that name. The digest of the specification, reduced modulo
    [2^32] at every byte, tells the two buffers apart. The example is an
    instance of [holds_header_flip]: since [computeDigest] is [(0,0)] on
    every header body ([computeDigest_constant]), no bit inverted in the
    first 516 bytes of a slot fails the digest test, whereas
    [spec_digest] changes with every such bit ([spec_digest_flip]). *)
Theorem C4_bit_flip_undetected :
  let st := pool_one_file in
  let c := slot_content "n1" st in
  let c' := flip_bit c 1 1 in
  let st' := set_dirEntries (dir_update "n1" c') st in
  mapSAHToName st !! 0%nat = Some "n1" ∧
  (getAssociatedPath 0%nat st).1 = Ok "/a" ∧
  c' ≠ c ∧ textDecode (take 2 c') = "/c" ∧
  (getAssociatedPath 0%nat st').1 = Ok "/c" ∧
  availableSAH (getAssociatedPath 0%nat st').2 = [] ∧
  mapFilenameToSAH (run [OpReset false] st') !! "/c" = Some 1%nat ∧
  mapFilenameToSAH (run [OpReset false] st') !! "/a" = None ∧
  computeDigest (take HEADER_CORPUS_SIZE c) = (0, 0) ∧
  computeDigest (take HEADER_CORPUS_SIZE c') = (0, 0) ∧
  spec_digest (take HEADER_CORPUS_SIZE c) ≠ spec_digest (take HEADER_CORPUS_SIZE c') ∧
  spec_digest (take HEADER_CORPUS_SIZE c) ≠ computeDigest (take HEADER_CORPUS_SIZE c).
Proof.
  vm_compute. repeat split; try reflexivity; discriminate.
Qed.

(** ** C5: a reset keeps the capacity and the used slots *)

(** C5. In the state left by [trace_two_files] the pool has a capacity of
    3: ["/abcdef"] and ["/xy"] are mapped, the slot of ["/xy"] holds a
    persistent flag, a valid digest and three bytes of payload, and the
    slot ["n3"] was added last by [addCapacity]. The header of ["n3"] has
    the flag word 0 and a first byte that is not zero, left in the shared
    buffer by the names encoded before. [reset(false)] takes such a header
    for a file with unexpected flags, calls [warn], which is not bound in
    the scope of the class, and throws [ReferenceError]; the callback
    stores the error and releases every handle. The capacity is 0 after
    the reset, not 3, and no name is mapped: the payload of ["/xy"] can no
    longer be read. A new session over the same directory fails in the
    same way. *)
Theorem C5_reset_after_addCapacity_throws :
  let st := run trace_two_files (new_pool []) in
  let st' := run (trace_two_files ++ [OpReset false]) (new_pool []) in
  reachable st ∧ reachable st' ∧
  getCapacity st = 3%nat ∧
  mapFilenameToSAH st !! "/abcdef" = Some 0%nat ∧
  mapFilenameToSAH st !! "/xy" = Some 1%nat ∧
  mapSAHToName st !! 1%nat = Some "n2" ∧
  (exportFile "/xy" st).1 = Ok [1; 2; 3] ∧
  Z.land (of_be32 (drop HEADER_OFFSET_FLAGS (slot_content "n2" st))) PERSISTENT_FILE_TYPES ≠ 0 ∧
  holds_header (slot_content "n2" st) (take HEADER_CORPUS_SIZE (slot_content "n2" st)) ∧
  mapSAHToName st !! 2%nat = Some "n3" ∧
  availableSAH st = [2%nat] ∧
  take 1 (slot_content "n3" st) = textEncode "/" ∧
  of_be32 (take HEADER_FLAGS_SIZE (drop HEADER_OFFSET_FLAGS (slot_content "n3" st))) = 0 ∧
  (reset false st).1 = Throw ReferenceError ∧
  st' = (reset false st).2 ∧
  err st' = Some ReferenceError ∧
  getCapacity st' = 0%nat ∧
  getFileCount st' = 0%nat ∧
  availableSAH st' = [] ∧
  mapFilenameToSAH st' !! "/abcdef" = None ∧
  mapFilenameToSAH st' !! "/xy" = None ∧
  (exportFile "/xy" st').1 = Throw (FileNotFound "/xy") ∧
  (OpfsSAHPool_isReady false ["n4"] (new_pool (dirEntries st))).1 = Throw ReferenceError.
Proof.
  cbv zeta. split; [eexists; reflexivity|]. split; [eexists; reflexivity|].
  vm_compute. repeat split; try reflexivity. discriminate.
Qed.

(** ** C6: unassociating a slot *)

(** What [deletePath] does to a mapped name whose handle is open. *)
Lemma deletePath_live st path ah nm c :
  mapFilenameToSAH st !! path = Some ah ->
  mapSAHToName st !! ah = Some nm ->
  dir_lookup nm (dirEntries st) = Some c ->
  length (apBody st) = HEADER_CORPUS_SIZE ->
  deletePath path st =
  (Ok true,
   mkSt (mapSAHToName st) (delete path (mapFilenameToSAH st))
        (set_add ah (availableSAH st)) (mapIdToFile st)
        (header_body (apBody st) EmptyString 0) (err st)
        (dir_update nm
           (sah_truncate (header_write c (header_body (apBody st) EmptyString 0))
                         HEADER_OFFSET_DATA) (dirEntries st))
        (sahCount st)).
Proof.
  intros Hu Hn Hd Hb. unfold deletePath. rewrite bind_gets, Hu, bind_modify.
  destruct st as [names used avail files body e dir cnt]. sproj.
  unfold set_mapFilenameToSAH. sproj.
  erewrite bind_ok.
  2:{ rewrite (setAssociatedPath_live _ _ _ _ _ _ _ _ _ nm c)
        by (auto; rewrite textEncode_empty; cbn [length]; unfold HEADER_MAX_PATH_SIZE; lia).
      cbv zeta. rewrite bool_decide_eq_false_2 by (intros H; apply H; reflexivity).
      reflexivity. }
  reflexivity.
Qed.




(** ** C7: reducing the capacity *)

(** C7. In every reachable state [reduceCapacity(n)], for a count
    [n >= 0], returns a number between 0 and the minimum of [n] and the
    number of available slots at the call; the capacity and the available
    set shrink by exactly that number; the map of names is unchanged and
    every mapped slot keeps its handle, its directory entry and its
    content; every handle that left the pool was available at the call. *)
Theorem C7_reduceCapacity_removes_available_only (st : St) (n : Z) :
  reachable st ->
  0 <= n ->
  ∃ nRm st',
    reduceCapacity n st = (Ok nRm, st') ∧
    0 <= nRm <= Z.min n (Z.of_nat (length (availableSAH st))) ∧
    Z.of_nat (getCapacity st') = Z.of_nat (getCapacity st) - nRm ∧
    Z.of_nat (length (availableSAH st')) = Z.of_nat (length (availableSAH st)) - nRm ∧
    mapFilenameToSAH st' = mapFilenameToSAH st ∧
    (∀ path ah, mapFilenameToSAH st !! path = Some ah ->
       ∃ nm c, mapSAHToName st !! ah = Some nm ∧ mapSAHToName st' !! ah = Some nm ∧
               dir_lookup nm (dirEntries st) = Some c ∧
               dir_lookup nm (dirEntries st') = Some c) ∧
    (∀ ah, is_Some (mapSAHToName st !! ah) -> mapSAHToName st' !! ah = None ->
           ah ∈ availableSAH st).
Proof.
  intros Hreach Hn. pose proof (reachable_wf st Hreach) as Hwf.
  unfold reduceCapacity. rewrite bind_gets.
  destruct (reduceCapacity_loop_spec n (availableSAH st) 0 st Hwf
              (wf_avail_nodup st Hwf) (fun _ H => H))
    as (k & st' & Hrun & Hk & Hle & Hwf' & Hu & Hc & Ha & Hkeep & Hsurv).
  exists (0 + Z.of_nat k), st'. split; [exact Hrun|].
  split; [specialize (Hle Hn); lia|]. split; [lia|]. split; [lia|].
  split; [exact Hu|]. split.
  - intros path ah Hp.
    destruct (wf_used_live st Hwf path ah Hp) as [nm Hnm].
    destruct (wf_names_file st Hwf ah nm Hnm) as [c Hd].
    assert (Hnm' : mapSAHToName st' !! ah = Some nm).
    { rewrite Hkeep; [exact Hnm|]. eapply wf_used_avail; eauto. }
    exists nm, c. split; [exact Hnm|]. split; [exact Hnm'|]. split; [exact Hd|].
    destruct (Hsurv ah nm Hnm') as [_ ->]. exact Hd.
  - intros ah [nm Hnm] Hgone.
    destruct (decide (ah ∈ availableSAH st)) as [Hin|Hnin]; [exact Hin|].
    rewrite (Hkeep ah Hnin), Hnm in Hgone. discriminate.
Qed.

Lemma C7_reduceCapacity_removes_available_only_witness :
  reachable pool_three_slots ∧
  0 <= 1 ∧
  ∃ nRm st',
    reduceCapacity 1 pool_three_slots = (Ok nRm, st') ∧
    0 <= nRm <= Z.min 1 (Z.of_nat (length (availableSAH pool_three_slots))) ∧
    Z.of_nat (getCapacity st') = Z.of_nat (getCapacity pool_three_slots) - nRm ∧
    Z.of_nat (length (availableSAH st'))
    = Z.of_nat (length (availableSAH pool_three_slots)) - nRm ∧
    mapFilenameToSAH st' = mapFilenameToSAH pool_three_slots ∧
    (∀ path ah, mapFilenameToSAH pool_three_slots !! path = Some ah ->
       ∃ nm c, mapSAHToName pool_three_slots !! ah = Some nm ∧
               mapSAHToName st' !! ah = Some nm ∧
               dir_lookup nm (dirEntries pool_three_slots) = Some c ∧
               dir_lookup nm (dirEntries st') = Some c) ∧
    (∀ ah, is_Some (mapSAHToName pool_three_slots !! ah) ->
           mapSAHToName st' !! ah = None -> ah ∈ availableSAH pool_three_slots).
Proof.
  assert (H1 : reachable pool_three_slots) by (eexists; reflexivity).
  assert (H2 : 0 <= 1) by lia.
  exact (conj H1 (conj H2 (C7_reduceCapacity_removes_available_only pool_three_slots 1 H1 H2))).
Defined.

(** ** C8: importing something that is not a database *)

(** C8. [importDb] throws, and leaves the whole state as it was (no slot
    taken, no name mapped, no byte written), whenever the byte array is
    shorter than 512 bytes, or its length is not a multiple of 512, or its
    first 15 bytes are not ["SQLite format 3"]. *)
Theorem C8_importDb_rejects_without_effect (name : string) (bytes : list Z) (st : St) :
  (length bytes < 512)%nat ∨ (length bytes mod 512 ≠ 0)%nat
  ∨ take 15 bytes ≠ textEncode "SQLite format 3" ->
  ∃ e, importDb name bytes st = (Throw e, st) ∧ (e = InvalidDbSize ∨ e = InvalidDbHeader).
Proof.
  intros H. unfold importDb. cbv zeta.
  destruct (bool_decide (length bytes < 512)%nat || bool_decide (length bytes mod 512 ≠ 0)%nat) eqn:E.
  - exists InvalidDbSize. split; [reflexivity | left; reflexivity].
  - apply orb_false_iff in E as [E1 E2].
    apply bool_decide_eq_false_1 in E1. apply bool_decide_eq_false_1 in E2.
    destruct H as [H | [H | H]]; [contradiction | contradiction |].
    destruct (header_mismatch (textEncode "SQLite format 3") bytes) eqn:Hm.
    + exists InvalidDbHeader. split; [reflexivity | right; reflexivity].
    + apply header_mismatch_false in Hm. contradiction.
Qed.

Lemma C8_importDb_rejects_without_effect_witness :
  ((length (replicate 512 7) < 512)%nat ∨ (length (replicate 512 7) mod 512 ≠ 0)%nat
   ∨ take 15 (replicate 512 7) ≠ textEncode "SQLite format 3") ∧
  ∃ e, importDb "/a" (replicate 512 7) pool_one_slot = (Throw e, pool_one_slot)
       ∧ (e = InvalidDbSize ∨ e = InvalidDbHeader).
Proof.
  assert (H1 : (length (replicate 512 7) < 512)%nat ∨ (length (replicate 512 7) mod 512 ≠ 0)%nat
               ∨ take 15 (replicate 512 7) ≠ textEncode "SQLite format 3")
    by (right; right; vm_compute; discriminate).
  exact (conj H1 (C8_importDb_rejects_without_effect "/a" (replicate 512 7) pool_one_slot H1)).
Defined.

(** ** C9: short reads *)

(** C9. For a file that is open on a slot the pool holds, and an offset
    [offset64 >= 0]: when the payload has fewer bytes past the offset than
    the [n] bytes of the destination, [xRead] fills the destination with
    those bytes followed by zeros and returns [SQLITE_IOERR_SHORT_READ],
    which differs from [SQLITE_IOERR]; when it has at least [n] bytes,
    [xRead] delivers the first [n] of them and returns [SQLITE_OK]. The
    pool is unchanged but for its error slot, which is cleared. *)
Theorem C9_xRead_short_read (st : St) (pFile : Z) (f : OpenFile) (nm : Name)
    (c dest : list Z) (offset64 : Z) :
  mapIdToFile st !! pFile = Some f ->
  mapSAHToName st !! file_sah f = Some nm ->
  dir_lookup nm (dirEntries st) = Some c ->
  0 <= offset64 ->
  let past := drop (Z.to_nat offset64) (drop HEADER_OFFSET_DATA c) in
  SQLITE_IOERR_SHORT_READ ≠ SQLITE_IOERR ∧
  ((length past < length dest)%nat ->
     xRead pFile dest offset64 st =
     (Ok (SQLITE_IOERR_SHORT_READ, past ++ replicate (length dest - length past) 0),
      set_err None st)) ∧
  ((length dest <= length past)%nat ->
     xRead pFile dest offset64 st =
     (Ok (SQLITE_OK, take (length dest) past), set_err None st)).
Proof.
  intros Hf Hn Hd Hoff past.
  pose proof (xRead_live st pFile f nm c dest offset64 Hf Hn Hd Hoff) as Hx.
  cbv zeta in Hx. fold past in Hx.
  split; [discriminate|]. split; intros Hlen; rewrite Hx.
  - rewrite bool_decide_eq_true_2 by exact Hlen. reflexivity.
  - rewrite bool_decide_eq_false_2 by lia. reflexivity.
Qed.

Lemma C9_xRead_short_read_witness :
  mapIdToFile pool_three_slots !! 100 = Some (mkOpenFile "/a" OPEN_MAIN_DB_CREATE 0%nat 0) ∧
  mapSAHToName pool_three_slots !! 0%nat = Some "n1" ∧
  dir_lookup "n1" (dirEntries pool_three_slots) = Some (slot_content "n1" pool_three_slots) ∧
  0 <= 1 ∧
  let past := drop (Z.to_nat 1) (drop HEADER_OFFSET_DATA (slot_content "n1" pool_three_slots)) in
  SQLITE_IOERR_SHORT_READ ≠ SQLITE_IOERR ∧
  ((length past < length [9; 9; 9; 9])%nat ->
     xRead 100 [9; 9; 9; 9] 1 pool_three_slots =
     (Ok (SQLITE_IOERR_SHORT_READ, past ++ replicate (length [9; 9; 9; 9] - length past) 0),
      set_err None pool_three_slots)) ∧
  ((length [9; 9; 9; 9] <= length past)%nat ->
     xRead 100 [9; 9; 9; 9] 1 pool_three_slots =
     (Ok (SQLITE_OK, take (length [9; 9; 9; 9]) past), set_err None pool_three_slots)).
Proof.
  assert (H1 : mapIdToFile pool_three_slots !! 100
               = Some (mkOpenFile "/a" OPEN_MAIN_DB_CREATE 0%nat 0))
    by (vm_compute; reflexivity).
  assert (H2 : mapSAHToName pool_three_slots !! 0%nat = Some "n1") by (vm_compute; reflexivity).
  assert (H3 : dir_lookup "n1" (dirEntries pool_three_slots)
               = Some (slot_content "n1" pool_three_slots)) by (vm_compute; reflexivity).
  assert (H4 : 0 <= 1) by lia.
  exact (conj H1 (conj H2 (conj H3 (conj H4
           (C9_xRead_short_read pool_three_slots 100
              (mkOpenFile "/a" OPEN_MAIN_DB_CREATE 0%nat 0) "n1"
              (slot_content "n1" pool_three_slots) [9; 9; 9; 9] 1 H1 H2 H3 H4))))).
Defined.

(** ** C10: exporting a file *)

(** C10. In every reachable state, [exportFile] of a mapped name returns
    the bytes of its slot from offset 4096 on, that is
    [max (size - 4096) 0] bytes; a slot shorter than 4096 bytes gives the
    empty array. The pool is unchanged. *)
Theorem C10_exportFile_payload (st : St) (name : string) (ah : SAH) :
  reachable st ->
  mapFilenameToSAH st !! name = Some ah ->
  ∃ nm c b,
    mapSAHToName st !! ah = Some nm ∧
    dir_lookup nm (dirEntries st) = Some c ∧
    exportFile name st = (Ok b, st) ∧
    b = drop HEADER_OFFSET_DATA c ∧
    Z.of_nat (length b) = Z.max (Z.of_nat (length c) - Z.of_nat HEADER_OFFSET_DATA) 0 ∧
    ((length c < HEADER_OFFSET_DATA)%nat -> b = []).
Proof.
  intros Hreach Hu. pose proof (reachable_wf st Hreach) as Hwf.
  destruct (wf_used_live st Hwf name ah Hu) as [nm Hnm].
  destruct (wf_names_file st Hwf ah nm Hnm) as [c Hd].
  exists nm, c, (drop HEADER_OFFSET_DATA c).
  split; [exact Hnm|]. split; [exact Hd|].
  split; [apply (exportFile_live st name ah nm c); assumption|].
  split; [reflexivity|]. split.
  - rewrite length_drop. lia.
  - intros Hlt. apply drop_ge. lia.
Qed.

Lemma C10_exportFile_payload_witness :
  reachable pool_one_file ∧
  mapFilenameToSAH pool_one_file !! "/a" = Some 0%nat ∧
  ∃ nm c b,
    mapSAHToName pool_one_file !! 0%nat = Some nm ∧
    dir_lookup nm (dirEntries pool_one_file) = Some c ∧
    exportFile "/a" pool_one_file = (Ok b, pool_one_file) ∧
    b = drop HEADER_OFFSET_DATA c ∧
    Z.of_nat (length b) = Z.max (Z.of_nat (length c) - Z.of_nat HEADER_OFFSET_DATA) 0 ∧
    ((length c < HEADER_OFFSET_DATA)%nat -> b = []).
Proof.
  assert (H1 : reachable pool_one_file) by (eexists; reflexivity).
  assert (H2 : mapFilenameToSAH pool_one_file !! "/a" = Some 0%nat)
    by (vm_compute; reflexivity).
  exact (conj H1 (conj H2 (C10_exportFile_payload pool_one_file "/a" 0%nat H1 H2))).
Defined.

(** ** Counting the slots *)

(** The handles of the mapped names, one per name. *)
Lemma used_handles_NoDup (m : gmap string SAH) :
  (∀ p1 p2 ah, m !! p1 = Some ah -> m !! p2 = Some ah -> p1 = p2) ->
  NoDup (map_to_list m).*2.
Proof.
  intros Hinj. apply NoDup_fmap_2_strong; [|apply NoDup_map_to_list].
  intros [p1 a1] [p2 a2] H1 H2 Heq. cbn [snd] in Heq. subst a2.
  apply elem_of_map_to_list in H1, H2. f_equal. eapply Hinj; eauto.
Qed.

Lemma NoDup_length_le_size (l : list SAH) (m : gmap SAH Name) :
  NoDup l -> (∀ x, x ∈ l -> is_Some (m !! x)) -> (length l <= size m)%nat.
Proof.
  intros Hnd Hin.
  rewrite <- (size_list_to_set (C := gset SAH) l Hnd), <- (size_dom m).
  apply subseteq_size. intros x Hx. apply elem_of_list_to_set in Hx.
  apply elem_of_dom. auto.
Qed.

Lemma wf_count_le st :
  wf st -> (getFileCount st + length (availableSAH st) <= getCapacity st)%nat.
Proof.
  intros Hwf. unfold getFileCount, getCapacity.
  rewrite <- (length_map_to_list (mapFilenameToSAH st)).
  rewrite <- (length_fmap snd (map_to_list (mapFilenameToSAH st))).
  rewrite <- length_app. apply NoDup_length_le_size.
  - apply NoDup_app. split; [|split].
    + apply used_handles_NoDup. exact (wf_used_inj st Hwf).
    + intros ah Hu Ha. apply list_elem_of_fmap in Hu as [[p a] [-> Hu]].
      apply elem_of_map_to_list in Hu. exact (wf_used_avail st Hwf p a Hu Ha).
    + exact (wf_avail_nodup st Hwf).
  - intros ah Hin. apply elem_of_app in Hin as [Hu|Ha].
    + apply list_elem_of_fmap in Hu as [[p a] [-> Hu]].
      apply elem_of_map_to_list in Hu. exact (wf_used_live st Hwf p a Hu).
    + exact (wf_avail_live st Hwf ah Ha).
Qed.

(** ** Growing the pool *)

Lemma dir_lookup_snoc_ne nm name c d :
  nm ≠ name -> dir_lookup nm (d ++ [(name, c)]) = dir_lookup nm d.
Proof.
  intros Hne. unfold dir_lookup. induction d as [|[n x] d IH]; cbn [app find fst].
  - rewrite bool_decide_eq_false_2 by (intros E; apply Hne; symmetry; exact E). reflexivity.
  - destruct (bool_decide (n = nm)); [reflexivity | exact IH].
Qed.

(** A handle just created on the entry [name] is released into the
    available set: the step shared by [addCapacity] and by
    [acquireAccessHandles(true)]. *)
Lemma release_fresh st name c :
  wf st -> dir_lookup name (dirEntries st) = Some c ->
  setAssociatedPath (Some (sahCount st)) EmptyString 0
    (set_mapSAHToName (insert (sahCount st) name) (set_sahCount S st)) =
  (Ok tt,
   mkSt (<[sahCount st := name]> (mapSAHToName st)) (mapFilenameToSAH st)
        (availableSAH st ++ [sahCount st]) (mapIdToFile st)
        (header_body (apBody st) EmptyString 0) (err st)
        (dir_update name
           (sah_truncate (header_write c (header_body (apBody st) EmptyString 0))
              HEADER_OFFSET_DATA) (dirEntries st))
        (S (sahCount st))).
Proof.
  intros Hwf Hd. pose proof (fresh_not_avail st Hwf) as Hfa.
  destruct st as [names used avail files body e dir cnt]. sproj.
  unfold set_mapSAHToName, set_sahCount. sproj.
  rewrite (setAssociatedPath_live _ _ _ _ _ _ _ _ _ name c);
    [| apply lookup_insert_eq | exact Hd |].
  2:{ rewrite textEncode_empty. cbn [length]. unfold HEADER_MAX_PATH_SIZE. lia. }
  cbv zeta. rewrite bool_decide_eq_false_2 by (intros H; apply H; reflexivity).
  unfold set_add. rewrite bool_decide_eq_false_2 by exact Hfa. reflexivity.
Qed.

Lemma addCapacity_fresh names : ∀ st,
  wf st -> NoDup names ->
  (∀ nm, nm ∈ names -> holds_lock (mapSAHToName st) nm = false) ->
  ∃ st',
    addCapacity names st = (Ok (getCapacity st + length names)%nat, st') ∧
    wf st' ∧
    getCapacity st' = (getCapacity st + length names)%nat ∧
    mapFilenameToSAH st' = mapFilenameToSAH st ∧
    availableSAH st' = availableSAH st ++ seq (sahCount st) (length names) ∧
    sahCount st' = (sahCount st + length names)%nat ∧
    mapIdToFile st' = mapIdToFile st ∧ err st' = err st ∧
    (∀ ah, (ah < sahCount st)%nat -> mapSAHToName st' !! ah = mapSAHToName st !! ah) ∧
    (∀ i nm, names !! i = Some nm -> mapSAHToName st' !! (sahCount st + i)%nat = Some nm) ∧
    (∀ nm, nm ∈ names ->
       ∃ c, dir_lookup nm (dirEntries st') = Some c ∧ length c = HEADER_OFFSET_DATA) ∧
    (∀ nm, nm ∉ names -> dir_lookup nm (dirEntries st') = dir_lookup nm (dirEntries st)).
Proof.
  induction names as [|name rest IH]; intros st Hwf Hnd Hfree; cbn [addCapacity].
  { exists st. cbn [length seq]. rewrite Nat.add_0_r, app_nil_r.
    split; [reflexivity|]. split; [exact Hwf|]. do 3 (split; [reflexivity|]).
    split; [lia|]. do 3 (split; [reflexivity|]).
    split; [intros i nm Hi; rewrite lookup_nil in Hi; discriminate|].
    split; [intros nm Hin; inversion Hin | reflexivity]. }
  inversion Hnd as [|? ? Hnotin Hnd']; subst.
  unfold getFileHandle_create. rewrite bind_modify.
  set (st0 := set_dirEntries (fun d => match dir_lookup name d with
                               | Some _ => d | None => d ++ [(name, [])] end) st).
  assert (Hwf0 : wf st0) by (apply wf_getFileHandle_create; exact Hwf).
  assert (Hin0 : name ∈ (dirEntries st0).*1).
  { unfold st0. sproj. destruct (dir_lookup name (dirEntries st)) eqn:Hd.
    - apply dir_lookup_is_Some. eauto.
    - rewrite fmap_app, elem_of_app. right. left. }
  assert (Hother0 : ∀ nm, nm ≠ name -> dir_lookup nm (dirEntries st0) = dir_lookup nm (dirEntries st)).
  { intros nm Hne. unfold st0. sproj. destruct (dir_lookup name (dirEntries st)); [reflexivity|].
    apply dir_lookup_snoc_ne. exact Hne. }
  assert (Hsame : mapSAHToName st0 = mapSAHToName st ∧ mapFilenameToSAH st0 = mapFilenameToSAH st
                  ∧ availableSAH st0 = availableSAH st ∧ sahCount st0 = sahCount st
                  ∧ mapIdToFile st0 = mapIdToFile st ∧ err st0 = err st).
  { unfold st0, set_dirEntries. sproj. repeat split; reflexivity. }
  destruct Hsame as (Hs1 & Hs2 & Hs3 & Hs4 & Hs5 & Hs6).
  clearbody st0.
  pose proof (createSyncAccessHandle_eval name st0) as Hc.
  rewrite Hs1, (Hfree name ltac:(left)) in Hc.
  rewrite (bind_ok _ _ _ _ _ Hc). rewrite bind_modify.
  apply dir_lookup_is_Some in Hin0 as Hd0. destruct Hd0 as [c Hd0].
  pose proof (release_fresh st0 name c Hwf0 Hd0) as Hrel.
  assert (Hwf1 : wf (setAssociatedPath (Some (sahCount st0)) EmptyString 0
            (set_mapSAHToName (insert (sahCount st0) name) (set_sahCount S st0))).2).
  { apply setAssociatedPath_wf.
    - apply wf_acquire; [exact Hwf0 | rewrite Hs1; apply Hfree; left | exact Hin0].
    - intros a p [= <-] Hp. exfalso. exact (fresh_not_used st0 Hwf0 p Hp). }
  rewrite Hrel in Hwf1. cbn [snd] in Hwf1.
  erewrite bind_ok; [|exact Hrel]. clear Hrel Hc.
  rewrite Hs1, Hs2, Hs3, Hs4, Hs5, Hs6 in *.
  set (st1 := mkSt _ _ _ _ _ _ _ _) in *.
  assert (Hfresh : mapSAHToName st !! sahCount st = None).
  { destruct (mapSAHToName st !! sahCount st) eqn:E; [|reflexivity].
    pose proof (wf_names_fresh st Hwf (sahCount st) (ex_intro _ _ E)). lia. }
  destruct (IH st1 Hwf1 Hnd') as (st' & Hrun & Hwf' & Hcap & Hu & Ha & Hcnt & Hf & He & Hold & Hnew & Hdir & Hdir').
  { intros nm Hin. apply holds_lock_false. intros ah Hah. unfold st1 in Hah. sproj.
    apply lookup_insert_Some in Hah as [[_ <-] | [_ Hah]].
    - contradiction.
    - pose proof (Hfree nm ltac:(right; exact Hin)) as Hl.
      rewrite holds_lock_false in Hl. exact (Hl ah Hah). }
  assert (Hcap1 : getCapacity st1 = S (getCapacity st)).
  { unfold getCapacity, st1. sproj.
    rewrite map_size_insert_None by exact Hfresh. reflexivity. }
  exists st'. cbn [length]. rewrite Hcap1 in Hrun, Hcap.
  replace (getCapacity st + S (length rest))%nat with (S (getCapacity st) + length rest)%nat by lia.
  split; [exact Hrun|]. split; [exact Hwf'|]. split; [exact Hcap|].
  split; [rewrite Hu; reflexivity|].
  split.
  { rewrite Ha. unfold st1. sproj. rewrite <- app_assoc. reflexivity. }
  split; [rewrite Hcnt; unfold st1; sproj; lia|].
  split; [rewrite Hf; reflexivity|].
  split; [rewrite He; reflexivity|].
  split.
  { intros ah Hlt. rewrite Hold by (unfold st1; sproj; lia). unfold st1. sproj.
    apply lookup_insert_ne. lia. }
  split.
  { intros [|i] nm Hi; cbn [lookup list_lookup] in Hi.
    - injection Hi as <-. rewrite Nat.add_0_r. rewrite Hold by (unfold st1; sproj; lia).
      unfold st1. sproj. apply lookup_insert_eq.
    - specialize (Hnew i nm Hi). change (sahCount st1) with (S (sahCount st)) in Hnew.
      replace (sahCount st + S i)%nat with (S (sahCount st) + i)%nat by lia. exact Hnew. }
  split.
  { intros nm Hin. destruct (decide (nm ∈ rest)) as [Hr|Hr]; [exact (Hdir nm Hr)|].
    assert (nm = name) by (inversion Hin; subst; [reflexivity | contradiction]). subst nm.
    rewrite (Hdir' name Hr). unfold st1. sproj. eexists. split.
    - apply dir_lookup_update. eauto.
    - apply length_sah_truncate. }
  intros nm Hnin. rewrite Hdir' by (intros H; apply Hnin; right; exact H).
  assert (Hne : name ≠ nm) by (intros ->; apply Hnin; left).
  unfold st1. sproj. rewrite dir_lookup_update_ne by exact Hne. apply Hother0. auto.
Qed.

(** ** Shrinking the pool *)

Lemma dir_lookup_remove_eq nm d : dir_lookup nm (dir_remove nm d) = None.
Proof.
  unfold dir_lookup, dir_remove. induction d as [|[n x] d IH]; [reflexivity|].
  rewrite filter_cons. cbn [fst]. destruct (decide (n ≠ nm)) as [Hn|Hn]; [|exact IH].
  cbn [find fst]. rewrite bool_decide_eq_false_2 by exact Hn. exact IH.
Qed.

Lemma dir_lookup_remove_None nm x d :
  dir_lookup nm d = None -> dir_lookup nm (dir_remove x d) = None.
Proof.
  intros H. destruct (decide (x = nm)) as [->|Hne]; [apply dir_lookup_remove_eq|].
  rewrite dir_lookup_remove_ne by exact Hne. exact H.
Qed.

Lemma reduceCapacity_loop_exact n snapshot : ∀ nRm st,
  wf st -> count_ok st -> availableSAH st = snapshot ->
  let k := removable n nRm (length snapshot) in
  ∃ st',
    reduceCapacity_loop n snapshot nRm st = (Ok (nRm + Z.of_nat k), st') ∧
    wf st' ∧ count_ok st' ∧
    availableSAH st' = drop k snapshot ∧
    mapFilenameToSAH st' = mapFilenameToSAH st ∧
    mapIdToFile st' = mapIdToFile st ∧
    (getCapacity st' + k = getCapacity st)%nat ∧
    (∀ ah, ah ∉ take k snapshot -> mapSAHToName st' !! ah = mapSAHToName st !! ah) ∧
    (∀ ah nm, ah ∈ take k snapshot -> mapSAHToName st !! ah = Some nm ->
        mapSAHToName st' !! ah = None ∧ dir_lookup nm (dirEntries st') = None) ∧
    (∀ nm, dir_lookup nm (dirEntries st) = None -> dir_lookup nm (dirEntries st') = None).
Proof.
  induction snapshot as [|ah rest IH]; intros nRm st Hwf Hcnt Hav; cbn [reduceCapacity_loop].
  { assert (Hk : removable n nRm (length (@nil SAH)) = 0%nat).
    { unfold removable. cbn [length]. destruct (bool_decide _); lia. }
    cbv zeta. rewrite Hk. exists st. cbn [mret M_ret take drop]. rewrite Z.add_0_r, Nat.add_0_r.
    do 7 (split; [assumption || reflexivity|]).
    split; [reflexivity|]. split; [|auto]. intros a nm' Hin. inversion Hin. }
  rewrite bind_gets.
  assert (Hfull : bool_decide (getFileCount st = getCapacity st) = false).
  { apply bool_decide_eq_false_2. unfold count_ok in Hcnt. rewrite Hav in Hcnt.
    cbn [length] in Hcnt. lia. }
  rewrite Hfull, orb_false_r. cbv zeta.
  destruct (decide (nRm = n)) as [->|Hne].
  { rewrite bool_decide_eq_true_2 by reflexivity.
    assert (Hk : removable n n (length (ah :: rest)) = 0%nat).
    { unfold removable. rewrite bool_decide_eq_true_2 by lia.
      replace (n - n) with 0 by lia. reflexivity. }
    rewrite Hk. exists st. cbn [mret M_ret take drop]. rewrite Z.add_0_r, Nat.add_0_r.
    do 7 (split; [assumption || reflexivity|]).
    split; [reflexivity|]. split; [|auto]. intros a nm' Hin. inversion Hin. }
  rewrite bool_decide_eq_false_2 by exact Hne.
  assert (Ha : ah ∈ availableSAH st) by (rewrite Hav; left).
  destruct (wf_avail_live st Hwf ah Ha) as [nm Hnm].
  rewrite bind_gets, Hnm.
  pose proof (removeEntry_eval nm st) as Hr.
  rewrite bool_decide_eq_true_2 in Hr by (eapply wf_names_file; eauto).
  rewrite (bind_ok _ _ _ _ _ Hr). rewrite !bind_modify.
  pose proof (wf_avail_nodup st Hwf) as Hnd. rewrite Hav in Hnd.
  inversion Hnd as [|? ? Hnotin Hnd']; subst.
  set (st1 := set_availableSAH (set_delete ah)
                (set_mapSAHToName (delete ah) (set_dirEntries (dir_remove nm) st))).
  assert (Hwf1 : wf st1) by (apply wf_remove_slot; assumption).
  assert (Hav1 : availableSAH st1 = rest).
  { unfold st1. sproj. rewrite Hav. apply set_delete_head. exact Hnd. }
  assert (Hcap1 : (getCapacity st1 + 1 = getCapacity st)%nat).
  { unfold getCapacity, st1; sproj.
    rewrite map_size_delete_Some by eauto.
    pose proof (map_size_ne_0_lookup_2 (mapSAHToName st) ah (ex_intro _ nm Hnm)). lia. }
  assert (Hcnt1 : count_ok st1).
  { unfold count_ok in *. rewrite Hav1. rewrite Hav in Hcnt. cbn [length] in Hcnt.
    replace (getFileCount st1) with (getFileCount st) by reflexivity. lia. }
  destruct (IH (nRm + 1) st1 Hwf1 Hcnt1 Hav1)
    as (st' & Hrun & Hwf' & Hcnt' & Hav' & Hu & Hf & Hc & Hkeep & Hgone & Hnone).
  assert (Hk : removable n nRm (length (ah :: rest))
               = S (removable n (nRm + 1) (length rest))).
  { unfold removable. cbn [length].
    destruct (decide (nRm <= n)) as [Hle|Hgt].
    - rewrite !bool_decide_eq_true_2 by lia.
      replace (Z.to_nat (n - nRm)) with (S (Z.to_nat (n - (nRm + 1)))) by lia. lia.
    - rewrite !bool_decide_eq_false_2 by lia. reflexivity. }
  rewrite Hk. set (k' := removable n (nRm + 1) (length rest)) in *.
  exists st'. rewrite Hrun. split; [f_equal; f_equal; lia|].
  split; [exact Hwf'|]. split; [exact Hcnt'|]. split; [exact Hav'|].
  split; [rewrite Hu; reflexivity|]. split; [rewrite Hf; reflexivity|].
  split; [lia|]. cbn [take].
  split.
  { intros a Hnin. rewrite Hkeep by (intros Hin; apply Hnin; right; exact Hin).
    unfold st1; sproj. apply lookup_delete_ne. intros ->. apply Hnin. left. }
  split.
  { intros a nm' Hin Hl. apply elem_of_cons in Hin as [-> | Hin'].
    - assert (nm' = nm) by congruence. subst nm'. split.
      + rewrite Hkeep.
        * unfold st1; sproj. apply lookup_delete_eq.
        * intros Hin'. apply Hnotin. eapply (subseteq_take k' rest); eauto.
      + apply Hnone. unfold st1; sproj. apply dir_lookup_remove_eq.
    - apply (Hgone a nm' Hin'). unfold st1; sproj.
      rewrite lookup_delete_ne; [exact Hl|]. intros ->. apply Hnotin.
      eapply (subseteq_take k' rest); eauto. }
  intros nm' Hd. apply Hnone. unfold st1; sproj. apply dir_lookup_remove_None. exact Hd.
Qed.

(** ** Wiping the pool *)

Lemma acquire_one_clear st name c :
  wf st -> dir_lookup name (dirEntries st) = Some c ->
  holds_lock (mapSAHToName st) name = false ->
  ∃ c',
    length c' = HEADER_OFFSET_DATA ∧
    acquire_one true name st =
    (Ok tt,
     mkSt (<[sahCount st := name]> (mapSAHToName st)) (mapFilenameToSAH st)
          (availableSAH st ++ [sahCount st]) (mapIdToFile st)
          (header_body (apBody st) EmptyString 0) (err st)
          (dir_update name c' (dirEntries st))
          (S (sahCount st))).
Proof.
  intros Hwf Hd Hlock.
  set (c1 := sah_truncate c HEADER_OFFSET_DATA).
  set (st2 := set_dirEntries (dir_update name c1) st).
  assert (Hwf2 : wf st2) by (apply wf_dir_update; exact Hwf).
  assert (Hd2 : dir_lookup name (dirEntries st2) = Some c1).
  { unfold st2. sproj. apply dir_lookup_update. eauto. }
  pose proof (release_fresh st2 name c1 Hwf2 Hd2) as Hrel.
  eexists. split; [|].
  2:{ unfold acquire_one, try_catch.
      pose proof (createSyncAccessHandle_eval name st) as Hc. rewrite Hlock in Hc.
      rewrite (bind_ok _ _ _ _ _ Hc). rewrite bind_modify.
      erewrite bind_ok.
      2:{ apply (sahTruncate_live _ _ name c); [unfold set_mapSAHToName; sproj; apply lookup_insert_eq | exact Hd]. }
      change (set_dirEntries (dir_update name (sah_truncate c HEADER_OFFSET_DATA))
                (set_mapSAHToName <[sahCount st:=name]> (set_sahCount S st)))
        with (set_mapSAHToName <[sahCount st2:=name]> (set_sahCount S st2)).
      change (Some (sahCount st)) with (Some (sahCount st2)).
      rewrite Hrel. unfold st2. sproj. rewrite dir_update_update. reflexivity. }
  apply length_sah_truncate.
Qed.

Lemma acquire_all_clear files : ∀ st,
  wf st -> NoDup files ->
  (∀ nm, nm ∈ files -> nm ∈ (dirEntries st).*1 ∧ holds_lock (mapSAHToName st) nm = false) ->
  ∃ st',
    acquire_all true files st = (Ok tt, st') ∧ wf st' ∧
    getCapacity st' = (getCapacity st + length files)%nat ∧
    mapFilenameToSAH st' = mapFilenameToSAH st ∧
    availableSAH st' = availableSAH st ++ seq (sahCount st) (length files) ∧
    sahCount st' = (sahCount st + length files)%nat ∧
    mapIdToFile st' = mapIdToFile st ∧ err st' = err st ∧
    (dirEntries st').*1 = (dirEntries st).*1 ∧
    (∀ ah, (ah < sahCount st)%nat -> mapSAHToName st' !! ah = mapSAHToName st !! ah) ∧
    (∀ i nm, files !! i = Some nm -> mapSAHToName st' !! (sahCount st + i)%nat = Some nm) ∧
    (∀ nm, nm ∈ files ->
       ∃ c, dir_lookup nm (dirEntries st') = Some c ∧ length c = HEADER_OFFSET_DATA) ∧
    (∀ nm, nm ∉ files -> dir_lookup nm (dirEntries st') = dir_lookup nm (dirEntries st)).
Proof.
  induction files as [|name rest IH]; intros st Hwf Hnd Hfree; cbn [acquire_all].
  { exists st. cbn [length seq]. rewrite Nat.add_0_r, app_nil_r.
    split; [reflexivity|]. split; [exact Hwf|]. do 3 (split; [reflexivity|]).
    split; [lia|]. do 4 (split; [reflexivity|]).
    split; [intros i nm Hi; rewrite lookup_nil in Hi; discriminate|].
    split; [intros nm Hin; inversion Hin | reflexivity]. }
  inversion Hnd as [|? ? Hnotin Hnd']; subst.
  destruct (Hfree name ltac:(left)) as [Hin Hlock].
  apply dir_lookup_is_Some in Hin as Hd. destruct Hd as [c Hd].
  destruct (acquire_one_clear st name c Hwf Hd Hlock) as (c' & Hlen & Hone).
  pose proof (acquire_one_wf true name st Hwf Hin) as [Hwf1 _].
  rewrite Hone in Hwf1. cbn [snd] in Hwf1.
  rewrite Hone.
  set (st1 := mkSt _ _ _ _ _ _ _ _) in *.
  assert (Hfresh : mapSAHToName st !! sahCount st = None).
  { destruct (mapSAHToName st !! sahCount st) eqn:E; [|reflexivity].
    pose proof (wf_names_fresh st Hwf (sahCount st) (ex_intro _ _ E)). lia. }
  destruct (IH st1 Hwf1 Hnd')
    as (st' & Hrun & Hwf' & Hcap & Hu & Ha & Hcnt & Hf & He & Hdn & Hold & Hnew & Hdir & Hdir').
  { intros nm Hinr. destruct (Hfree nm ltac:(right; exact Hinr)) as [Hi Hl]. split.
    - unfold st1. sproj. rewrite dir_update_names. exact Hi.
    - apply holds_lock_false. intros ah Hah. unfold st1 in Hah. sproj.
      apply lookup_insert_Some in Hah as [[_ <-] | [_ Hah]]; [contradiction|].
      rewrite holds_lock_false in Hl. exact (Hl ah Hah). }
  assert (Hcap1 : getCapacity st1 = S (getCapacity st)).
  { unfold getCapacity, st1. sproj.
    rewrite map_size_insert_None by exact Hfresh. reflexivity. }
  exists st'. cbn [length]. rewrite Hcap1 in Hcap.
  split; [exact Hrun|]. split; [exact Hwf'|]. split; [lia|].
  split; [rewrite Hu; reflexivity|].
  split.
  { rewrite Ha. unfold st1. sproj. rewrite <- app_assoc. reflexivity. }
  split; [rewrite Hcnt; unfold st1; sproj; lia|].
  split; [rewrite Hf; reflexivity|].
  split; [rewrite He; reflexivity|].
  split; [rewrite Hdn; unfold st1; sproj; apply dir_update_names|].
  split.
  { intros ah Hlt. rewrite Hold by (unfold st1; sproj; lia). unfold st1. sproj.
    apply lookup_insert_ne. lia. }
  split.
  { intros [|i] nm Hi; cbn [lookup list_lookup] in Hi.
    - injection Hi as <-. rewrite Nat.add_0_r. rewrite Hold by (unfold st1; sproj; lia).
      unfold st1. sproj. apply lookup_insert_eq.
    - specialize (Hnew i nm Hi). change (sahCount st1) with (S (sahCount st)) in Hnew.
      replace (sahCount st + S i)%nat with (S (sahCount st) + i)%nat by lia. exact Hnew. }
  split.
  { intros nm Hinn. destruct (decide (nm ∈ rest)) as [Hr|Hr]; [exact (Hdir nm Hr)|].
    assert (nm = name) by (inversion Hinn; subst; [reflexivity | contradiction]). subst nm.
    rewrite (Hdir' name Hr). unfold st1. sproj. exists c'. split; [|exact Hlen].
    apply dir_lookup_update. eauto. }
  intros nm Hnin. rewrite Hdir' by (intros H; apply Hnin; right; exact H).
  assert (Hne : name ≠ nm) by (intros ->; apply Hnin; left).
  unfold st1. sproj. apply dir_lookup_update_ne. exact Hne.
Qed.

(** ** Importing and exporting *)

Lemma drop_sah_write_at c at_ data :
  drop at_ (sah_write c at_ data) = data ++ drop (at_ + length data) c.
Proof.
  unfold sah_write. rewrite app_assoc.
  rewrite drop_app_length'; [reflexivity|].
  rewrite length_app, length_take, length_replicate. lia.
Qed.

Lemma length_sah_write c at_ data :
  length (sah_write c at_ data) = (length c `max` (at_ + length data))%nat.
Proof.
  unfold sah_write. rewrite !length_app, length_take, length_replicate, length_drop. lia.
Qed.

Lemma drop_header_write c hb n :
  length hb = HEADER_CORPUS_SIZE -> (HEADER_CORPUS_SIZE + HEADER_DIGEST_SIZE <= n)%nat ->
  drop n (header_write c hb) = drop n c.
Proof.
  intros Hl Hn. rewrite header_write_shape by exact Hl. rewrite app_assoc.
  rewrite drop_app_ge by (rewrite length_app, length_app, !length_le32, Hl;
                          unfold HEADER_DIGEST_SIZE in *; lia).
  rewrite drop_drop. f_equal.
  rewrite length_app, length_app, !length_le32, Hl. unfold HEADER_DIGEST_SIZE in *. lia.
Qed.

(** [importDb] of an acceptable byte array under a name that fits, into
    the slot [ah] of the name or else the first available one. *)
Lemma importDb_live st name bytes ah nm c :
  (512 <= length bytes)%nat -> (length bytes mod 512 = 0)%nat ->
  take 15 bytes = textEncode "SQLite format 3" ->
  name ≠ EmptyString ->
  (length (textEncode name) `min` length (apBody st) < HEADER_MAX_PATH_SIZE)%nat ->
  match mapFilenameToSAH st !! name with
  | Some a => a = ah
  | None => nextAvailableSAH st = Some ah
  end ->
  mapSAHToName st !! ah = Some nm ->
  dir_lookup nm (dirEntries st) = Some c ->
  importDb name bytes st =
  (Ok tt,
   mkSt (mapSAHToName st) (<[name := ah]> (mapFilenameToSAH st))
        (set_delete ah (availableSAH st)) (mapIdToFile st)
        (header_body (apBody st) name SQLITE_OPEN_MAIN_DB) (err st)
        (dir_update nm
           (header_write (sah_write c HEADER_OFFSET_DATA bytes)
              (header_body (apBody st) name SQLITE_OPEN_MAIN_DB)) (dirEntries st))
        (sahCount st)).
Proof.
  intros Hlen Hmod Hhdr Hne Hfit Hsel Hn Hd. unfold importDb. cbv zeta.
  rewrite (bool_decide_eq_false_2 (length bytes < 512)%nat) by lia.
  rewrite (bool_decide_eq_false_2 (length bytes mod 512 ≠ 0)%nat) by (intros H; apply H; exact Hmod).
  cbn [orb].
  rewrite (proj2 (header_mismatch_false (textEncode "SQLite format 3") bytes)) by exact Hhdr.
  rewrite !bind_gets.
  assert (Hsel' : match mapFilenameToSAH st !! name with
                  | Some a => Some a | None => nextAvailableSAH st end = Some ah).
  { destruct (mapFilenameToSAH st !! name); [congruence | exact Hsel]. }
  rewrite Hsel'.
  erewrite bind_ok by (eapply sahWrite_live; eassumption).
  destruct st as [names used avail files body e dir cnt]. unfold set_dirEntries. sproj.
  rewrite (setAssociatedPath_live _ _ _ _ _ _ _ _ _ nm (sah_write c HEADER_OFFSET_DATA bytes));
    [| exact Hn | apply dir_lookup_update; eauto | exact Hfit].
  cbv zeta. rewrite bool_decide_eq_true_2 by exact Hne.
  rewrite dir_update_update. reflexivity.
Qed.

(** ** Input and output on an open file *)

Lemma xWrite_live st pFile f nm c src offset64 :
  mapIdToFile st !! pFile = Some f ->
  mapSAHToName st !! file_sah f = Some nm ->
  dir_lookup nm (dirEntries st) = Some c ->
  0 <= offset64 ->
  xWrite pFile src offset64 st =
  (Ok SQLITE_OK,
   set_dirEntries
     (dir_update nm (sah_write c (HEADER_OFFSET_DATA + Z.to_nat offset64) src))
     (set_err None st)).
Proof.
  intros Hf Hn Hd Hoff. unfold xWrite, storeErr.
  rewrite bind_modify, bind_gets.
  replace (mapIdToFile (set_err None st)) with (mapIdToFile st) by reflexivity.
  rewrite Hf. unfold deref. rewrite bind_ret. unfold try_catch. cbv zeta.
  destruct (Z.ltb_spec (Z.of_nat HEADER_OFFSET_DATA + offset64) 0) as [?|_]; [lia|].
  erewrite bind_ok by (apply (sahWrite_live _ _ nm c); assumption).
  rewrite bool_decide_eq_true_2 by reflexivity.
  replace (Z.to_nat (Z.of_nat HEADER_OFFSET_DATA + offset64))
    with (HEADER_OFFSET_DATA + Z.to_nat offset64)%nat by lia.
  reflexivity.
Qed.

Lemma xTruncate_live st pFile f nm c sz64 :
  mapIdToFile st !! pFile = Some f ->
  mapSAHToName st !! file_sah f = Some nm ->
  dir_lookup nm (dirEntries st) = Some c ->
  0 <= sz64 ->
  xTruncate pFile sz64 st =
  (Ok SQLITE_OK,
   set_dirEntries
     (dir_update nm (sah_truncate c (HEADER_OFFSET_DATA + Z.to_nat sz64)))
     (set_err None st)).
Proof.
  intros Hf Hn Hd Hsz. unfold xTruncate, storeErr.
  rewrite bind_modify, bind_gets.
  replace (mapIdToFile (set_err None st)) with (mapIdToFile st) by reflexivity.
  rewrite Hf. unfold deref, try_catch. rewrite bind_ret. cbv zeta.
  destruct (Z.ltb_spec (Z.of_nat HEADER_OFFSET_DATA + sz64) 0) as [?|_]; [lia|].
  erewrite bind_ok by (apply (sahTruncate_live _ _ nm c); assumption).
  replace (Z.to_nat (Z.of_nat HEADER_OFFSET_DATA + sz64))
    with (HEADER_OFFSET_DATA + Z.to_nat sz64)%nat by lia.
  reflexivity.
Qed.

Lemma xFileSize_live st pFile f nm c :
  mapIdToFile st !! pFile = Some f ->
  mapSAHToName st !! file_sah f = Some nm ->
  dir_lookup nm (dirEntries st) = Some c ->
  xFileSize pFile st =
  (Ok (SQLITE_OK, Z.of_nat (length c) - Z.of_nat HEADER_OFFSET_DATA), st).
Proof.
  intros Hf Hn Hd. unfold xFileSize. rewrite bind_gets, Hf. unfold deref. rewrite bind_ret.
  erewrite bind_ok by (apply (sahGetSize_live _ _ nm c); assumption). reflexivity.
Qed.

Lemma xSync_live st pFile f nm c :
  mapIdToFile st !! pFile = Some f ->
  mapSAHToName st !! file_sah f = Some nm ->
  dir_lookup nm (dirEntries st) = Some c ->
  xSync pFile st = (Ok SQLITE_OK, set_err None st).
Proof.
  intros Hf Hn Hd. unfold xSync, storeErr. rewrite bind_modify, bind_gets.
  replace (mapIdToFile (set_err None st)) with (mapIdToFile st) by reflexivity.
  rewrite Hf. unfold deref, try_catch. rewrite bind_ret.
  erewrite bind_ok by (apply (sahFlush_live _ _ nm c); assumption). reflexivity.
Qed.

(** Any use of a handle that the pool does not hold fails. *)
Lemma sah_content_dead st ah :
  mapSAHToName st !! ah = None -> sah_content ah st = (Throw InvalidStateError, st).
Proof. intros H. unfold sah_content. rewrite H. reflexivity. Qed.

(** ** Closing a file *)

(** [xClose] of a file whose handle the pool holds. *)
Lemma xClose_live st pFile f nm c :
  mapIdToFile st !! pFile = Some f ->
  mapSAHToName st !! file_sah f = Some nm ->
  dir_lookup nm (dirEntries st) = Some c ->
  xClose pFile st =
  let st1 := set_mapIdToFile (delete pFile) (set_err None st) in
  if bool_decide (Z.land (file_flags f) SQLITE_OPEN_DELETEONCLOSE ≠ 0)
  then match deletePath (file_path f) st1 with
       | (Ok _, st2) => (Ok SQLITE_OK, st2)
       | (Throw e, st2) => (Ok SQLITE_IOERR, set_err (Some e) st2)
       end
  else (Ok SQLITE_OK, st1).
Proof.
  intros Hf Hn Hd. unfold xClose, storeErr. rewrite bind_modify, bind_gets.
  replace (mapIdToFile (set_err None st)) with (mapIdToFile st) by reflexivity.
  rewrite Hf. unfold try_catch.
  erewrite bind_ok by (apply (sahFlush_live _ _ nm c); assumption).
  rewrite bind_modify. cbv zeta.
  destruct (bool_decide (Z.land (file_flags f) SQLITE_OPEN_DELETEONCLOSE ≠ 0)).
  - unfold mbind, M_bind.
    destruct (deletePath (file_path f) _) as [[b|ex] st2]; reflexivity.
  - reflexivity.
Qed.

(** [reset(true)]: every entry of the directory becomes an available
    slot. *)
Lemma reset_clear st :
  wf st ->
  ∃ st',
    reset true st = (Ok tt, st') ∧ wf st' ∧
    mapFilenameToSAH st' = ∅ ∧
    availableSAH st' = seq (sahCount st) (length (dirEntries st)) ∧
    getCapacity st' = length (dirEntries st) ∧
    sahCount st' = (sahCount st + length (dirEntries st))%nat ∧
    mapIdToFile st' = mapIdToFile st ∧ err st' = err st ∧
    (dirEntries st').*1 = (dirEntries st).*1 ∧
    (∀ ah, (ah < sahCount st)%nat -> mapSAHToName st' !! ah = None) ∧
    (∀ i nm, (dirEntries st).*1 !! i = Some nm ->
       mapSAHToName st' !! (sahCount st + i)%nat = Some nm) ∧
    (∀ nm c, dir_lookup nm (dirEntries st') = Some c -> length c = HEADER_OFFSET_DATA).
Proof.
  intros Hwf. unfold reset.
  rewrite (bind_ok _ _ _ _ _ (releaseAccessHandles_eval st)).
  unfold acquireAccessHandles. rewrite bind_gets.
  set (st0 := set_availableSAH (fun _ => [])
                (set_mapFilenameToSAH (fun _ => ∅) (set_mapSAHToName (fun _ => ∅) st))).
  assert (Hwf0 : wf st0) by (apply wf_released; exact Hwf).
  destruct (acquire_all_clear (dirEntries st0).*1 st0 Hwf0)
    as (st' & Hrun & Hwf' & Hcap & Hu & Ha & Hcnt & Hf & He & Hdn & Hold & Hnew & Hdir & Hdir').
  { exact (wf_dir_nodup st0 Hwf0). }
  { intros nm Hin. split; [exact Hin|]. apply holds_lock_false. intros ah Hah.
    unfold st0 in Hah. sproj. rewrite lookup_empty in Hah. discriminate. }
  exists st'. split; [exact Hrun|]. split; [exact Hwf'|].
  rewrite length_fmap in *.
  split; [rewrite Hu; reflexivity|].
  split; [rewrite Ha; reflexivity|].
  split; [rewrite Hcap; unfold getCapacity, st0; sproj; rewrite map_size_empty; reflexivity|].
  split; [exact Hcnt|]. split; [exact Hf|]. split; [exact He|]. split; [exact Hdn|].
  split.
  { intros ah Hlt. rewrite Hold by exact Hlt. unfold st0. sproj. apply lookup_empty. }
  split; [exact Hnew|].
  intros nm c Hc. destruct (Hdir nm) as (c' & Hc' & Hl).
  - rewrite <- Hdn. apply dir_lookup_is_Some. eauto.
  - congruence.
Qed.

(** ** Scanning the directory *)

(** Decoding the slot of a file gives its name and changes no slot. *)
Lemma getAssociatedPath_file names used avail files body e dir cnt ah nm c path :
  names !! ah = Some nm ->
  dir_lookup nm dir = Some c ->
  length body = HEADER_CORPUS_SIZE ->
  slot_of_file c path ->
  getAssociatedPath ah (mkSt names used avail files body e dir cnt) =
  (Ok path, mkSt names used avail files (take HEADER_CORPUS_SIZE c) e dir cnt).
Proof.
  intros Hn Hd Hb (Hh & Hne & Hk & Hnz & Hp & Hz & Hdc & Hpf & Hdec).
  set (hb := take HEADER_CORPUS_SIZE c) in *.
  pose proof Hh as (Hlen & _ & _).
  rewrite (getAssociatedPath_holds_header _ _ _ _ _ _ _ _ _ nm c hb) by assumption.
  cbv zeta.
  rewrite (bool_decide_eq_false_2 (Z.land _ SQLITE_OPEN_DELETEONCLOSE ≠ 0))
    by (intros H; apply H; exact Hdc).
  rewrite (bool_decide_eq_false_2 (Z.land _ PERSISTENT_FILE_TYPES = 0)) by exact Hpf.
  rewrite andb_false_r.
  assert (Hshape : hb = textEncode path ++ 0 :: drop (S (length (textEncode path))) hb).
  { rewrite <- (take_drop (length (textEncode path)) hb) at 1. rewrite Hp.
    rewrite (drop_S _ _ _ Hz). reflexivity. }
  assert (Hfi : findIndex0 hb 0 = Z.of_nat (length (textEncode path))).
  { rewrite Hshape. rewrite findIndex0_app by assumption. lia. }
  assert (Hpos : (0 < length (textEncode path))%nat).
  { apply textEncode_nonempty. exact Hne. }
  rewrite Hfi.
  rewrite bool_decide_eq_true_2 by lia. rewrite bool_decide_eq_false_2 by lia.
  assert (Hsub : subarray0 hb (Z.of_nat (length (textEncode path))) = textEncode path).
  { unfold subarray0. cbv zeta.
    destruct (Z.ltb_spec (Z.of_nat (length (textEncode path))) 0); [lia|].
    rewrite Z.min_l by (rewrite Hlen; unfold HEADER_CORPUS_SIZE, HEADER_MAX_PATH_SIZE,
                          HEADER_FLAGS_SIZE in *; lia).
    rewrite Nat2Z.id. exact Hp. }
  rewrite Hsub, Hdec. reflexivity.
Qed.

(** Decoding a free slot gives the empty name; the slot is cut to its
    header sector and no other slot changes. *)
Lemma getAssociatedPath_free names used avail files body e dir cnt ah nm c :
  names !! ah = Some nm ->
  dir_lookup nm dir = Some c ->
  length body = HEADER_CORPUS_SIZE ->
  slot_free c ->
  getAssociatedPath ah (mkSt names used avail files body e dir cnt) =
  (Ok EmptyString,
   mkSt names used avail files (take HEADER_CORPUS_SIZE c) e
        (dir_update nm (sah_truncate c HEADER_OFFSET_DATA) dir) cnt).
Proof.
  intros Hn Hd Hb (Hh & H0).
  set (hb := take HEADER_CORPUS_SIZE c) in *.
  pose proof Hh as (Hlen & _ & _).
  rewrite (getAssociatedPath_holds_header _ _ _ _ _ _ _ _ _ nm c hb) by assumption.
  cbv zeta.
  rewrite (bool_decide_eq_false_2 (hb !! 0%nat ≠ Some 0 ∧ hb !! 0%nat ≠ None))
    by (intros [H _]; apply H; exact H0).
  cbn [andb].
  assert (Hfi : findIndex0 hb 0 = 0).
  { destruct hb as [|b hb']; [discriminate|]. injection H0 as ->. reflexivity. }
  rewrite Hfi.
  rewrite bool_decide_eq_false_2 by (intros H; apply H; reflexivity).
  rewrite bool_decide_eq_true_2 by reflexivity. reflexivity.
Qed.

Lemma acquire_one_file st name c path :
  wf st -> dir_lookup name (dirEntries st) = Some c ->
  holds_lock (mapSAHToName st) name = false ->
  slot_of_file c path ->
  acquire_one false name st =
  (Ok tt,
   mkSt (<[sahCount st := name]> (mapSAHToName st))
        (<[path := sahCount st]> (mapFilenameToSAH st))
        (availableSAH st) (mapIdToFile st) (take HEADER_CORPUS_SIZE c) (err st)
        (dirEntries st) (S (sahCount st))).
Proof.
  intros Hwf Hd Hlock Hs. pose proof (wf_body st Hwf) as Hb.
  pose proof Hs as (_ & Hne & _).
  unfold acquire_one, try_catch.
  pose proof (createSyncAccessHandle_eval name st) as Hc. rewrite Hlock in Hc.
  rewrite (bind_ok _ _ _ _ _ Hc). rewrite bind_modify.
  destruct st as [names used avail files body e dir cnt].
  unfold set_mapSAHToName, set_sahCount. sproj.
  erewrite bind_ok.
  2:{ apply (getAssociatedPath_file _ _ _ _ _ _ _ _ _ name c path);
        [apply lookup_insert_eq | exact Hd | exact Hb | exact Hs]. }
  rewrite bool_decide_eq_true_2 by exact Hne. reflexivity.
Qed.

Lemma acquire_one_free st name c :
  wf st -> dir_lookup name (dirEntries st) = Some c ->
  holds_lock (mapSAHToName st) name = false ->
  slot_free c ->
  ∃ body' c',
    acquire_one false name st =
    (Ok tt,
     mkSt (<[sahCount st := name]> (mapSAHToName st)) (mapFilenameToSAH st)
          (availableSAH st ++ [sahCount st]) (mapIdToFile st) body' (err st)
          (dir_update name c' (dirEntries st)) (S (sahCount st))) ∧
    length c' = HEADER_OFFSET_DATA.
Proof.
  intros Hwf Hd Hlock Hs. pose proof (wf_body st Hwf) as Hb.
  pose proof (fresh_not_avail st Hwf) as Hfa.
  unfold acquire_one, try_catch.
  pose proof (createSyncAccessHandle_eval name st) as Hc. rewrite Hlock in Hc.
  rewrite (bind_ok _ _ _ _ _ Hc). rewrite bind_modify.
  destruct st as [names used avail files body e dir cnt].
  unfold set_mapSAHToName, set_sahCount. sproj.
  erewrite bind_ok
    by (apply (getAssociatedPath_free _ _ _ _ _ _ _ _ _ name c);
        [apply lookup_insert_eq | exact Hd | exact Hb | exact Hs]).
  rewrite bool_decide_eq_false_2 by (intros H; apply H; reflexivity).
  eexists _, _. split; [|apply (length_sah_truncate c)].
  unfold modify, set_availableSAH. sproj.
  unfold set_add. rewrite bool_decide_eq_false_2 by exact Hfa. reflexivity.
Qed.

Lemma acquire_all_scan ents : ∀ paths st,
  wf st -> count_ok st ->
  Forall2 scan_ok ents paths ->
  NoDup ents.*1 ->
  (∀ nm c, (nm, c) ∈ ents ->
     dir_lookup nm (dirEntries st) = Some c ∧ holds_lock (mapSAHToName st) nm = false) ->
  NoDup (omap id paths) ->
  (∀ p, Some p ∈ paths -> mapFilenameToSAH st !! p = None) ->
  ∃ st',
    acquire_all false ents.*1 st = (Ok tt, st') ∧ wf st' ∧ count_ok st' ∧
    sahCount st' = (sahCount st + length ents)%nat ∧
    getCapacity st' = (getCapacity st + length ents)%nat ∧
    mapIdToFile st' = mapIdToFile st ∧ err st' = err st ∧
    (∀ ah, (ah < sahCount st)%nat -> mapSAHToName st' !! ah = mapSAHToName st !! ah) ∧
    (∀ i nm, ents.*1 !! i = Some nm -> mapSAHToName st' !! (sahCount st + i)%nat = Some nm) ∧
    (∀ i nm c path, ents !! i = Some (nm, c) -> paths !! i = Some (Some path) ->
       mapFilenameToSAH st' !! path = Some (sahCount st + i)%nat ∧
       dir_lookup nm (dirEntries st') = Some c) ∧
    (∀ i nm c, ents !! i = Some (nm, c) -> paths !! i = Some None ->
       (sahCount st + i)%nat ∈ availableSAH st' ∧
       ∃ c', dir_lookup nm (dirEntries st') = Some c' ∧ length c' = HEADER_OFFSET_DATA) ∧
    (∀ p, Some p ∉ paths -> mapFilenameToSAH st' !! p = mapFilenameToSAH st !! p) ∧
    (∀ ah, ah ∈ availableSAH st -> ah ∈ availableSAH st') ∧
    (∀ nm, nm ∉ ents.*1 -> dir_lookup nm (dirEntries st') = dir_lookup nm (dirEntries st)).
Proof.
  induction ents as [|[name c] rest IH]; intros paths st Hwf Hcnt Hscan Hnd Hdir Hpnd Hpfree.
  { inversion Hscan; subst. exists st. cbn [fmap list_fmap acquire_all length].
    rewrite !Nat.add_0_r.
    split; [reflexivity|]. split; [exact Hwf|]. split; [exact Hcnt|].
    do 4 (split; [reflexivity|]). split; [reflexivity|].
    split; [intros i nm Hi; rewrite lookup_nil in Hi; discriminate|].
    split; [intros i nm c path Hi; rewrite lookup_nil in Hi; discriminate|].
    split; [intros i nm c Hi; rewrite lookup_nil in Hi; discriminate|].
    split; [reflexivity|]. split; [auto | reflexivity]. }
  inversion Hscan as [|? p ? prest Hs Hscan']; subst.
  cbn [fmap list_fmap fst] in Hnd |- *. cbn [acquire_all].
  inversion Hnd as [|? ? Hnotin Hnd']; subst.
  destruct (Hdir name c ltac:(left)) as [Hd Hlock].
  assert (Hin : name ∈ (dirEntries st).*1) by (apply dir_lookup_is_Some; eauto).
  pose proof (acquire_one_wf false name st Hwf Hin) as [Hwf1 _].
  assert (Hfresh : mapSAHToName st !! sahCount st = None).
  { destruct (mapSAHToName st !! sahCount st) eqn:E; [|reflexivity].
    pose proof (wf_names_fresh st Hwf (sahCount st) (ex_intro _ _ E)). lia. }
  (* the state after the first entry *)
  assert (Hone : ∃ st1,
    acquire_one false name st = (Ok tt, st1) ∧
    mapSAHToName st1 = <[sahCount st := name]> (mapSAHToName st) ∧
    sahCount st1 = S (sahCount st) ∧
    mapIdToFile st1 = mapIdToFile st ∧ err st1 = err st ∧ count_ok st1 ∧
    (∀ nm, nm ≠ name -> dir_lookup nm (dirEntries st1) = dir_lookup nm (dirEntries st)) ∧
    match p with
    | Some path =>
        mapFilenameToSAH st1 = <[path := sahCount st]> (mapFilenameToSAH st) ∧
        availableSAH st1 = availableSAH st ∧
        dir_lookup name (dirEntries st1) = Some c
    | None =>
        mapFilenameToSAH st1 = mapFilenameToSAH st ∧
        availableSAH st1 = availableSAH st ++ [sahCount st] ∧
        ∃ c', dir_lookup name (dirEntries st1) = Some c' ∧ length c' = HEADER_OFFSET_DATA
    end).
  { destruct p as [path|]; cbn [scan_ok snd] in Hs.
    - eexists. split; [apply (acquire_one_file st name c path); assumption|]. sproj.
      do 4 (split; [reflexivity|]).
      split.
      { unfold count_ok, getFileCount, getCapacity in Hcnt |- *. sproj.
        rewrite !map_size_insert_None by (first [exact Hfresh | apply Hpfree; left]).
        lia. }
      split; [reflexivity|]. auto.
    - destruct (acquire_one_free st name c Hwf Hd Hlock Hs) as (body' & c' & Hrun & Hlc).
      eexists. split; [exact Hrun|]. sproj.
      do 4 (split; [reflexivity|]).
      split.
      { unfold count_ok, getFileCount, getCapacity in Hcnt |- *. sproj.
        rewrite map_size_insert_None by exact Hfresh. rewrite length_app. cbn [length]. lia. }
      split; [intros nm Hne; apply dir_lookup_update_ne; congruence|].
      split; [reflexivity|]. split; [reflexivity|].
      exists c'. split; [apply dir_lookup_update; eauto | exact Hlc]. }
  destruct Hone as (st1 & Hrun1 & Hn1 & Hc1 & Hf1 & He1 & Hcnt1 & Hdir1 & Hp1).
  rewrite Hrun1 in Hwf1. cbn [snd] in Hwf1.
  rewrite Hrun1.
  assert (Hpnd' : NoDup (omap id prest)).
  { destruct p; cbn [omap list_omap id] in Hpnd; [inversion Hpnd; assumption | exact Hpnd]. }
  assert (Hused1 : ∀ q, Some q ∈ prest -> mapFilenameToSAH st1 !! q = None).
  { intros q Hq. destruct p as [path|].
    - destruct Hp1 as (-> & _). rewrite lookup_insert_ne; [apply Hpfree; right; exact Hq|].
      intros ->. cbn [omap list_omap id] in Hpnd. inversion Hpnd as [|? ? Hni _]; subst.
      apply Hni. apply list_elem_of_omap. exists (Some q). split; [exact Hq | reflexivity].
    - destruct Hp1 as (-> & _). apply Hpfree. right. exact Hq. }
  destruct (IH prest st1 Hwf1 Hcnt1 Hscan' Hnd')
    as (st' & Hrun & Hwf' & Hcnt' & Hsc & Hcap & Hf & He & Hold & Hnew & Hfile & Hfree & Hup
        & Hav & Hdirf); [| exact Hpnd' | exact Hused1 |].
  { intros nm cc Hinr. destruct (Hdir nm cc ltac:(right; exact Hinr)) as [Hdd Hll].
    assert (Hne : nm ≠ name).
    { intros ->. apply Hnotin. apply list_elem_of_fmap. exists (name, cc). auto. }
    split; [rewrite Hdir1 by exact Hne; exact Hdd|].
    apply holds_lock_false. intros ah Hah. rewrite Hn1 in Hah.
    apply lookup_insert_Some in Hah as [[_ <-] | [_ Hah]]; [congruence|].
    rewrite holds_lock_false in Hll. exact (Hll ah Hah). }
  assert (Hcap1 : getCapacity st1 = S (getCapacity st)).
  { unfold getCapacity. rewrite Hn1. rewrite map_size_insert_None by exact Hfresh. reflexivity. }
  exists st'. cbn [length]. rewrite Hc1 in *. rewrite Hcap1 in Hcap.
  split; [exact Hrun|]. split; [exact Hwf'|]. split; [exact Hcnt'|].
  split; [lia|]. split; [lia|].
  split; [congruence|]. split; [congruence|].
  split.
  { intros ah Hlt. rewrite Hold by lia. rewrite Hn1. apply lookup_insert_ne. lia. }
  split.
  { intros [|i] nm Hi; cbn [lookup list_lookup] in Hi.
    - injection Hi as <-. rewrite Nat.add_0_r. rewrite Hold by lia. rewrite Hn1.
      apply lookup_insert_eq.
    - replace (sahCount st + S i)%nat with (S (sahCount st) + i)%nat by lia. exact (Hnew i nm Hi). }
  split.
  { intros [|i] nm cc path Hi Hpi; cbn [lookup list_lookup] in Hi, Hpi.
    - injection Hi as <- <-. injection Hpi as ->. destruct Hp1 as (Hu1 & _ & Hd1).
      rewrite Nat.add_0_r. split.
      + rewrite Hup.
        * rewrite Hu1. apply lookup_insert_eq.
        * intros Hq. cbn [omap list_omap id] in Hpnd. inversion Hpnd as [|? ? Hni _]; subst.
          apply Hni. apply list_elem_of_omap. exists (Some path). split; [exact Hq | reflexivity].
      + rewrite Hdirf by exact Hnotin. exact Hd1.
    - replace (sahCount st + S i)%nat with (S (sahCount st) + i)%nat by lia.
      exact (Hfile i nm cc path Hi Hpi). }
  split.
  { intros [|i] nm cc Hi Hpi; cbn [lookup list_lookup] in Hi, Hpi.
    - injection Hi as <- <-. injection Hpi as ->. destruct Hp1 as (_ & Ha1 & c' & Hd1 & Hl1).
      rewrite Nat.add_0_r. split.
      + apply Hav. rewrite Ha1. apply elem_of_app. right. left.
      + exists c'. split; [|exact Hl1]. rewrite Hdirf by exact Hnotin. exact Hd1.
    - replace (sahCount st + S i)%nat with (S (sahCount st) + i)%nat by lia.
      exact (Hfree i nm cc Hi Hpi). }
  split.
  { intros q Hq. rewrite Hup by (intros H; apply Hq; right; exact H).
    destruct p as [path|]; destruct Hp1 as (-> & _); [|reflexivity].
    apply lookup_insert_ne. intros ->. apply Hq. left. }
  split.
  { intros ah Hah. apply Hav. destruct p as [path|].
    - destruct Hp1 as (_ & -> & _). exact Hah.
    - destruct Hp1 as (_ & -> & _). apply elem_of_app. left. exact Hah. }
  intros nm Hnin. rewrite Hdirf by (intros H; apply Hnin; right; exact H).
  apply Hdir1. intros ->. apply Hnin. left.
Qed.

Lemma dir_lookup_elem nm c d : NoDup d.*1 -> (nm, c) ∈ d -> dir_lookup nm d = Some c.
Proof.
  unfold dir_lookup. induction d as [|[n x] d IH]; intros Hnd Hin; [inversion Hin|].
  cbn [fmap list_fmap fst] in Hnd. inversion Hnd as [|? ? Hni Hnd']; subst.
  cbn [find fst]. apply elem_of_cons in Hin as [Heq | Hin].
  - injection Heq as -> ->. rewrite bool_decide_eq_true_2 by reflexivity. reflexivity.
  - rewrite bool_decide_eq_false_2; [exact (IH Hnd' Hin)|].
    intros ->. apply Hni. apply list_elem_of_fmap. exists (nm, c). auto.
Qed.

(** [reset(false)] over a directory of which every entry is the slot of a
    file or a free slot, the files having different names. *)
Lemma reset_scan st paths :
  wf st ->
  Forall2 scan_ok (dirEntries st) paths ->
  NoDup (omap id paths) ->
  ∃ st',
    reset false st = (Ok tt, st') ∧ wf st' ∧ count_ok st' ∧
    err st' = err st ∧ mapIdToFile st' = mapIdToFile st ∧
    getCapacity st' = length (dirEntries st) ∧
    (∀ i nm c path, dirEntries st !! i = Some (nm, c) -> paths !! i = Some (Some path) ->
       mapFilenameToSAH st' !! path = Some (sahCount st + i)%nat ∧
       mapSAHToName st' !! (sahCount st + i)%nat = Some nm ∧
       dir_lookup nm (dirEntries st') = Some c) ∧
    (∀ i nm c, dirEntries st !! i = Some (nm, c) -> paths !! i = Some None ->
       (sahCount st + i)%nat ∈ availableSAH st' ∧
       mapSAHToName st' !! (sahCount st + i)%nat = Some nm) ∧
    (∀ p, Some p ∉ paths -> mapFilenameToSAH st' !! p = None).
Proof.
  intros Hwf Hscan Hpnd. unfold reset.
  rewrite (bind_ok _ _ _ _ _ (releaseAccessHandles_eval st)).
  unfold acquireAccessHandles. rewrite bind_gets.
  set (st0 := set_availableSAH (fun _ => [])
                (set_mapFilenameToSAH (fun _ => ∅) (set_mapSAHToName (fun _ => ∅) st))).
  assert (Hwf0 : wf st0) by (apply wf_released; exact Hwf).
  change (dirEntries st0) with (dirEntries st).
  destruct (acquire_all_scan (dirEntries st) paths st0 Hwf0)
    as (st' & Hrun & Hwf' & Hcnt' & Hsc & Hcap & Hf & He & Hold & Hnew & Hfile & Hfree & Hup
        & _ & _).
  { unfold count_ok, getFileCount, getCapacity, st0. sproj. rewrite !map_size_empty. reflexivity. }
  { exact Hscan. }
  { exact (wf_dir_nodup st Hwf). }
  { intros nm c Hin. split.
    - apply dir_lookup_elem; [exact (wf_dir_nodup st Hwf) | exact Hin].
    - apply holds_lock_false. intros ah Hah. unfold st0 in Hah. sproj.
      rewrite lookup_empty in Hah. discriminate. }
  { exact Hpnd. }
  { intros p _. unfold st0. sproj. apply lookup_empty. }
  change (sahCount st0) with (sahCount st) in *.
  exists st'. split; [exact Hrun|]. split; [exact Hwf'|]. split; [exact Hcnt'|].
  split; [exact He|]. split; [exact Hf|].
  split.
  { rewrite Hcap. unfold getCapacity, st0. sproj. rewrite map_size_empty. reflexivity. }
  split.
  { intros i nm c path Hi Hp. destruct (Hfile i nm c path Hi Hp) as [H1 H2].
    split; [exact H1|]. split; [|exact H2]. apply Hnew.
    rewrite list_lookup_fmap, Hi. reflexivity. }
  split.
  { intros i nm c Hi Hp. destruct (Hfree i nm c Hi Hp) as [H1 _].
    split; [exact H1|]. apply Hnew. rewrite list_lookup_fmap, Hi. reflexivity. }
  intros p Hp. rewrite Hup by exact Hp. unfold st0. sproj. apply lookup_empty.
Qed.

(** * Further properties of the code *)

(** ** X1: the slots of a reachable pool *)

(** X1. In every reachable state the header buffer has its 516 bytes; the
    available set has no duplicates and holds open handles only; a mapped
    name is not empty and its handle is open and not available; two names
    never share a handle; every open handle has its entry in the directory
    and two handles never share an entry; so the used and the available
    slots together never exceed the capacity. *)
Theorem X1_reachable_slots_consistent (st : St) :
  reachable st ->
  length (apBody st) = HEADER_CORPUS_SIZE ∧
  NoDup (availableSAH st) ∧
  (∀ ah, ah ∈ availableSAH st -> is_Some (mapSAHToName st !! ah)) ∧
  (∀ path ah, mapFilenameToSAH st !! path = Some ah ->
     path ≠ "" ∧ is_Some (mapSAHToName st !! ah) ∧ ah ∉ availableSAH st) ∧
  (∀ p1 p2 ah, mapFilenameToSAH st !! p1 = Some ah ->
     mapFilenameToSAH st !! p2 = Some ah -> p1 = p2) ∧
  (∀ ah nm, mapSAHToName st !! ah = Some nm -> is_Some (dir_lookup nm (dirEntries st))) ∧
  (∀ a1 a2 nm, mapSAHToName st !! a1 = Some nm ->
     mapSAHToName st !! a2 = Some nm -> a1 = a2) ∧
  (getFileCount st + length (availableSAH st) <= getCapacity st)%nat.
Proof.
  intros Hreach. pose proof (reachable_wf st Hreach) as Hwf.
  split; [exact (wf_body st Hwf)|]. split; [exact (wf_avail_nodup st Hwf)|].
  split; [exact (wf_avail_live st Hwf)|].
  split.
  { intros path ah Hp. split; [|split].
    - intros ->. rewrite (wf_used_nonempty st Hwf) in Hp. discriminate.
    - exact (wf_used_live st Hwf path ah Hp).
    - exact (wf_used_avail st Hwf path ah Hp). }
  split; [exact (wf_used_inj st Hwf)|]. split; [exact (wf_names_file st Hwf)|].
  split; [exact (wf_names_inj st Hwf)|]. exact (wf_count_le st Hwf).
Qed.

Lemma X1_reachable_slots_consistent_witness :
  reachable pool_three_slots ∧
  length (apBody pool_three_slots) = HEADER_CORPUS_SIZE ∧
  NoDup (availableSAH pool_three_slots) ∧
  (∀ ah, ah ∈ availableSAH pool_three_slots ->
     is_Some (mapSAHToName pool_three_slots !! ah)) ∧
  (∀ path ah, mapFilenameToSAH pool_three_slots !! path = Some ah ->
     path ≠ "" ∧ is_Some (mapSAHToName pool_three_slots !! ah)
     ∧ ah ∉ availableSAH pool_three_slots) ∧
  (∀ p1 p2 ah, mapFilenameToSAH pool_three_slots !! p1 = Some ah ->
     mapFilenameToSAH pool_three_slots !! p2 = Some ah -> p1 = p2) ∧
  (∀ ah nm, mapSAHToName pool_three_slots !! ah = Some nm ->
     is_Some (dir_lookup nm (dirEntries pool_three_slots))) ∧
  (∀ a1 a2 nm, mapSAHToName pool_three_slots !! a1 = Some nm ->
     mapSAHToName pool_three_slots !! a2 = Some nm -> a1 = a2) ∧
  (getFileCount pool_three_slots + length (availableSAH pool_three_slots)
   <= getCapacity pool_three_slots)%nat.
Proof.
  assert (H1 : reachable pool_three_slots) by (eexists; reflexivity).
  exact (conj H1 (X1_reachable_slots_consistent pool_three_slots H1)).
Defined.

(** ** X2: the counting invariant without a rescan *)

Lemma reachable_run ops st : reachable st -> reachable (run ops st).
Proof.
  intros [ops0 ->]. exists (ops0 ++ ops). unfold run. rewrite fold_left_app. reflexivity.
Qed.

(** X2. From a reachable state in which used plus available slots make up
    the capacity, every sequence of operations that holds no [reset] and
    no restart ([addCapacity], [reduceCapacity], [xOpen], [importDb],
    [unlink], [xDelete], [xClose], [xWrite], [xTruncate]) leads to a state
    in which they still do. *)
Theorem X2_count_kept_without_rescan (ops : list Op) (st : St) :
  reachable st ->
  (getFileCount st + length (availableSAH st) = getCapacity st)%nat ->
  forallb (fun op => negb (is_rescan op)) ops = true ->
  (getFileCount (run ops st) + length (availableSAH (run ops st))
   = getCapacity (run ops st))%nat.
Proof.
  intros Hreach Hcnt Hops.
  exact (run_count_ok ops st (reachable_wf st Hreach) Hcnt Hops).
Qed.

Lemma X2_count_kept_without_rescan_witness :
  reachable (new_pool []) ∧
  (getFileCount (new_pool []) + length (availableSAH (new_pool []))
   = getCapacity (new_pool []))%nat ∧
  forallb (fun op => negb (is_rescan op)) trace_two_files = true ∧
  (getFileCount (run trace_two_files (new_pool []))
   + length (availableSAH (run trace_two_files (new_pool [])))
   = getCapacity (run trace_two_files (new_pool [])))%nat.
Proof.
  assert (H1 : reachable (new_pool [])) by (exists []; reflexivity).
  assert (H2 : (getFileCount (new_pool []) + length (availableSAH (new_pool []))
                = getCapacity (new_pool []))%nat) by (vm_compute; reflexivity).
  assert (H3 : forallb (fun op => negb (is_rescan op)) trace_two_files = true)
    by (vm_compute; reflexivity).
  exact (conj H1 (conj H2 (conj H3
           (X2_count_kept_without_rescan trace_two_files (new_pool []) H1 H2 H3)))).
Defined.

(** ** X3: the digest of a header *)

(** X3. On every array of at least 249 bytes, so on every 516-byte header
    body, [computeDigest] returns [[0, 0]]: both accumulators have grown
    to [Infinity], which [>>>0] turns into 0. *)
Theorem X3_computeDigest_of_header_is_zero (byteArray : list Z) :
  (249 <= length byteArray)%nat ->
  Forall (fun v => 0 <= v < 256) byteArray ->
  computeDigest byteArray = (0, 0).
Proof.
  intros Hlen Hb. unfold computeDigest. cbv zeta. fold digest_step.
  assert (H1 : grown 0 (num_of_Z 0xdeadbeef)).
  { right. eexists _, _. split; [vm_compute; reflexivity|]. vm_compute.
    repeat split; discriminate. }
  assert (H2 : grown 0 (num_of_Z 0x41c6ce57)).
  { right. eexists _, _. split; [vm_compute; reflexivity|]. vm_compute.
    repeat split; discriminate. }
  apply (digest_loop_grown byteArray 0 _ ltac:(lia) Hb) in H1, H2.
  assert (Hk : 249 <= 0 + Z.of_nat (length byteArray)) by lia.
  rewrite (grown_overflow _ _ Hk H1), (grown_overflow _ _ Hk H2). reflexivity.
Qed.

Lemma X3_computeDigest_of_header_is_zero_witness :
  (249 <= length (replicate 516 97))%nat ∧
  Forall (fun v => 0 <= v < 256) (replicate 516 97) ∧
  computeDigest (replicate 516 97) = (0, 0).
Proof.
  assert (H1 : (249 <= length (replicate 516 97))%nat) by (vm_compute; lia).
  assert (H2 : Forall (fun v => 0 <= v < 256) (replicate 516 97)).
  { apply Forall_forall. intros x Hx. apply elem_of_replicate in Hx as [-> _]. lia. }
  exact (conj H1 (conj H2 (X3_computeDigest_of_header_is_zero (replicate 516 97) H1 H2))).
Defined.

(** ** X4: adding capacity *)

(** X4. In a reachable state, [addCapacity] with [n] distinct random names,
    none of them the entry of an open handle, returns the old capacity
    plus [n]. The new handles join the available set in the order of their
    creation, each on its entry, which is 4096 bytes long; no name is
    mapped or unmapped; every slot the pool had keeps its handle and its
    content. *)
Theorem X4_addCapacity_adds_available_slots (st : St) (names : list Name) :
  reachable st ->
  NoDup names ->
  (∀ nm ah, nm ∈ names -> mapSAHToName st !! ah ≠ Some nm) ->
  ∃ st',
    addCapacity names st = (Ok (getCapacity st + length names)%nat, st') ∧
    getCapacity st' = (getCapacity st + length names)%nat ∧
    mapFilenameToSAH st' = mapFilenameToSAH st ∧
    availableSAH st' = availableSAH st ++ seq (sahCount st) (length names) ∧
    (∀ i nm, names !! i = Some nm ->
       mapSAHToName st' !! (sahCount st + i)%nat = Some nm ∧
       ∃ c, dir_lookup nm (dirEntries st') = Some c ∧ length c = HEADER_OFFSET_DATA) ∧
    (∀ ah nm, mapSAHToName st !! ah = Some nm ->
       mapSAHToName st' !! ah = Some nm ∧
       dir_lookup nm (dirEntries st') = dir_lookup nm (dirEntries st)).
Proof.
  intros Hreach Hnd Hfree. pose proof (reachable_wf st Hreach) as Hwf.
  destruct (addCapacity_fresh names st Hwf Hnd)
    as (st' & Hrun & _ & Hcap & Hu & Ha & _ & _ & _ & Hold & Hnew & Hdir & Hdir').
  { intros nm Hin. apply holds_lock_false. intros ah. exact (Hfree nm ah Hin). }
  exists st'. split; [exact Hrun|]. split; [exact Hcap|]. split; [exact Hu|].
  split; [exact Ha|]. split.
  - intros i nm Hi. split; [exact (Hnew i nm Hi)|].
    apply Hdir. eapply list_elem_of_lookup_2. exact Hi.
  - intros ah nm Hn. split.
    + rewrite Hold; [exact Hn|]. exact (wf_names_fresh st Hwf ah (ex_intro _ nm Hn)).
    + apply Hdir'. intros Hin. exact (Hfree nm ah Hin Hn).
Qed.

Lemma X4_addCapacity_adds_available_slots_witness :
  reachable pool_three_slots ∧
  NoDup ["n4"; "n5"] ∧
  (∀ nm ah, nm ∈ ["n4"; "n5"] -> mapSAHToName pool_three_slots !! ah ≠ Some nm) ∧
  ∃ st',
    addCapacity ["n4"; "n5"] pool_three_slots
    = (Ok (getCapacity pool_three_slots + length ["n4"; "n5"])%nat, st') ∧
    getCapacity st' = (getCapacity pool_three_slots + length ["n4"; "n5"])%nat ∧
    mapFilenameToSAH st' = mapFilenameToSAH pool_three_slots ∧
    availableSAH st' = availableSAH pool_three_slots
                       ++ seq (sahCount pool_three_slots) (length ["n4"; "n5"]) ∧
    (∀ i nm, ["n4"; "n5"] !! i = Some nm ->
       mapSAHToName st' !! (sahCount pool_three_slots + i)%nat = Some nm ∧
       ∃ c, dir_lookup nm (dirEntries st') = Some c ∧ length c = HEADER_OFFSET_DATA) ∧
    (∀ ah nm, mapSAHToName pool_three_slots !! ah = Some nm ->
       mapSAHToName st' !! ah = Some nm ∧
       dir_lookup nm (dirEntries st') = dir_lookup nm (dirEntries pool_three_slots)).
Proof.
  assert (H1 : reachable pool_three_slots) by (eexists; reflexivity).
  assert (H2 : NoDup ["n4"; "n5"]).
  { apply (bool_decide_unpack _). vm_compute. reflexivity. }
  assert (H3 : ∀ nm ah, nm ∈ ["n4"; "n5"] -> mapSAHToName pool_three_slots !! ah ≠ Some nm).
  { intros nm ah Hin Hah.
    destruct (wf_names_file _ (reachable_wf _ H1) ah nm Hah) as [c Hc].
    apply elem_of_cons in Hin as [-> | Hin]; [vm_compute in Hc; discriminate|].
    apply elem_of_cons in Hin as [-> | Hin]; [vm_compute in Hc; discriminate|].
    inversion Hin. }
  exact (conj H1 (conj H2 (conj H3
           (X4_addCapacity_adds_available_slots pool_three_slots ["n4"; "n5"] H1 H2 H3)))).
Defined.

(** ** X5: reserving a minimum capacity *)

(** X5. [reserveMinimumCapacity(min)] on a pool of capacity [c >= min]
    returns [c] and changes nothing. On a smaller pool, with distinct
    random names that are no entry of an open handle, it returns [min],
    which is the new capacity; the [min - c] new slots are available and
    no name is mapped or unmapped. *)
Theorem X5_reserveMinimumCapacity (st : St) (min : Z) (rand : nat -> Name)
    (names : list Name) :
  reachable st ->
  names = rand <$> seq 0 (Z.to_nat (min - Z.of_nat (getCapacity st))) ->
  NoDup names ->
  (∀ nm ah, nm ∈ names -> mapSAHToName st !! ah ≠ Some nm) ->
  if Z.of_nat (getCapacity st) <? min then
    ∃ st',
      reserveMinimumCapacity min rand st = (Ok (Z.to_nat min), st') ∧
      Z.of_nat (getCapacity st') = min ∧
      mapFilenameToSAH st' = mapFilenameToSAH st ∧
      availableSAH st' = availableSAH st ++ seq (sahCount st) (length names)
  else reserveMinimumCapacity min rand st = (Ok (getCapacity st), st).
Proof.
  intros Hreach Hnames Hnd Hfree. unfold reserveMinimumCapacity. rewrite bind_gets.
  destruct (Z.ltb_spec (Z.of_nat (getCapacity st)) min) as [Hlt|Hge]; [|reflexivity].
  pose proof (reachable_wf st Hreach) as Hwf.
  destruct (addCapacity_fresh names st Hwf Hnd)
    as (st' & Hrun & _ & Hcap & Hu & Ha & _).
  { intros nm Hin. apply holds_lock_false. intros ah. exact (Hfree nm ah Hin). }
  assert (Hl : length names = Z.to_nat (min - Z.of_nat (getCapacity st))).
  { rewrite Hnames, length_fmap, length_seq. reflexivity. }
  exists st'. rewrite <- Hnames. rewrite Hrun. split; [do 2 f_equal; lia|].
  split; [lia|]. split; [exact Hu | exact Ha].
Qed.

Lemma X5_reserveMinimumCapacity_witness :
  reachable pool_one_file ∧
  ["A"; "B"] = rand_letters <$> seq 0 (Z.to_nat (3 - Z.of_nat (getCapacity pool_one_file))) ∧
  NoDup ["A"; "B"] ∧
  (∀ nm ah, nm ∈ ["A"; "B"] -> mapSAHToName pool_one_file !! ah ≠ Some nm) ∧
  if Z.of_nat (getCapacity pool_one_file) <? 3 then
    ∃ st',
      reserveMinimumCapacity 3 rand_letters pool_one_file = (Ok (Z.to_nat 3), st') ∧
      Z.of_nat (getCapacity st') = 3 ∧
      mapFilenameToSAH st' = mapFilenameToSAH pool_one_file ∧
      availableSAH st' = availableSAH pool_one_file
                         ++ seq (sahCount pool_one_file) (length ["A"; "B"])
  else reserveMinimumCapacity 3 rand_letters pool_one_file
       = (Ok (getCapacity pool_one_file), pool_one_file).
Proof.
  assert (H1 : reachable pool_one_file) by (eexists; reflexivity).
  assert (H2 : ["A"; "B"]
               = rand_letters <$> seq 0 (Z.to_nat (3 - Z.of_nat (getCapacity pool_one_file))))
    by (vm_compute; reflexivity).
  assert (H3 : NoDup ["A"; "B"]).
  { apply (bool_decide_unpack _). vm_compute. reflexivity. }
  assert (H4 : ∀ nm ah, nm ∈ ["A"; "B"] -> mapSAHToName pool_one_file !! ah ≠ Some nm).
  { intros nm ah Hin Hah.
    destruct (wf_names_file _ (reachable_wf _ H1) ah nm Hah) as [c Hc].
    apply elem_of_cons in Hin as [-> | Hin]; [vm_compute in Hc; discriminate|].
    apply elem_of_cons in Hin as [-> | Hin]; [vm_compute in Hc; discriminate|].
    inversion Hin. }
  exact (conj H1 (conj H2 (conj H3 (conj H4
           (X5_reserveMinimumCapacity pool_one_file 3 rand_letters ["A"; "B"] H1 H2 H3 H4))))).
Defined.

(** ** X6: how many slots [reduceCapacity] removes *)

(** X6. In a reachable state where used plus available slots make up the
    capacity, [reduceCapacity(n)] removes exactly [min(n, available)]
    slots for [n >= 0], and every available slot for a negative [n] (which
    the loop counter never meets). It removes the oldest available slots:
    the available set loses its first [k] handles, which are closed and
    whose entries leave the directory; no name is mapped or unmapped. *)
Theorem X6_reduceCapacity_removes_oldest_available (st : St) (n : Z) :
  reachable st ->
  (getFileCount st + length (availableSAH st) = getCapacity st)%nat ->
  let k := if bool_decide (0 <= n)
           then Nat.min (Z.to_nat n) (length (availableSAH st))
           else length (availableSAH st) in
  ∃ st',
    reduceCapacity n st = (Ok (Z.of_nat k), st') ∧
    availableSAH st' = drop k (availableSAH st) ∧
    (getCapacity st' + k = getCapacity st)%nat ∧
    mapFilenameToSAH st' = mapFilenameToSAH st ∧
    (∀ ah nm, ah ∈ take k (availableSAH st) -> mapSAHToName st !! ah = Some nm ->
       mapSAHToName st' !! ah = None ∧ dir_lookup nm (dirEntries st') = None) ∧
    (∀ ah, ah ∉ take k (availableSAH st) -> mapSAHToName st' !! ah = mapSAHToName st !! ah).
Proof.
  intros Hreach Hcnt k. pose proof (reachable_wf st Hreach) as Hwf.
  unfold reduceCapacity. rewrite bind_gets.
  destruct (reduceCapacity_loop_exact n (availableSAH st) 0 st Hwf Hcnt eq_refl)
    as (st' & Hrun & _ & _ & Ha & Hu & _ & Hc & Hkeep & Hgone & _).
  assert (Hk : removable n 0 (length (availableSAH st)) = k).
  { unfold removable, k. replace (n - 0) with n by lia. reflexivity. }
  rewrite Hk in *. exists st'. rewrite Hrun. split; [reflexivity|].
  split; [exact Ha|]. split; [exact Hc|]. split; [exact Hu|]. split; [exact Hgone | exact Hkeep].
Qed.

Lemma X6_reduceCapacity_removes_oldest_available_witness :
  reachable pool_three_slots ∧
  (getFileCount pool_three_slots + length (availableSAH pool_three_slots)
   = getCapacity pool_three_slots)%nat ∧
  let k := if bool_decide (0 <= 5)
           then Nat.min (Z.to_nat 5) (length (availableSAH pool_three_slots))
           else length (availableSAH pool_three_slots) in
  ∃ st',
    reduceCapacity 5 pool_three_slots = (Ok (Z.of_nat k), st') ∧
    availableSAH st' = drop k (availableSAH pool_three_slots) ∧
    (getCapacity st' + k = getCapacity pool_three_slots)%nat ∧
    mapFilenameToSAH st' = mapFilenameToSAH pool_three_slots ∧
    (∀ ah nm, ah ∈ take k (availableSAH pool_three_slots) ->
       mapSAHToName pool_three_slots !! ah = Some nm ->
       mapSAHToName st' !! ah = None ∧ dir_lookup nm (dirEntries st') = None) ∧
    (∀ ah, ah ∉ take k (availableSAH pool_three_slots) ->
       mapSAHToName st' !! ah = mapSAHToName pool_three_slots !! ah).
Proof.
  assert (H1 : reachable pool_three_slots) by (eexists; reflexivity).
  assert (H2 : (getFileCount pool_three_slots + length (availableSAH pool_three_slots)
                = getCapacity pool_three_slots)%nat) by (vm_compute; reflexivity).
  exact (conj H1 (conj H2
           (X6_reduceCapacity_removes_oldest_available pool_three_slots 5 H1 H2))).
Defined.

(** ** X7: unlinking a name that is not mapped *)

(** X7. In a reachable state [unlink] returns whether the name was mapped;
    for a name that is not mapped it changes nothing. After it the name is
    not mapped: a second [unlink] returns [false], and [xDelete] of the
    name returns [SQLITE_OK], both without touching a slot. *)
Theorem X7_unlink_twice (st : St) (path : string) :
  reachable st ->
  ∃ st1,
    unlink path st = (Ok (bool_decide (is_Some (mapFilenameToSAH st !! path))), st1) ∧
    (mapFilenameToSAH st !! path = None -> st1 = st) ∧
    mapFilenameToSAH st1 !! path = None ∧
    unlink path st1 = (Ok false, st1) ∧
    xDelete path st1 = (Ok SQLITE_OK, set_err None st1).
Proof.
  intros Hreach. pose proof (reachable_wf st Hreach) as Hwf.
  assert (Hmiss : ∀ s, mapFilenameToSAH s !! path = None ->
            unlink path s = (Ok false, s) ∧ xDelete path s = (Ok SQLITE_OK, set_err None s)).
  { intros s Hs. split.
    - unfold unlink, deletePath. rewrite bind_gets, Hs. reflexivity.
    - unfold xDelete, storeErr, try_catch. rewrite bind_modify.
      unfold deletePath. unfold mbind at 1. unfold M_bind at 1. rewrite bind_gets.
      replace (mapFilenameToSAH (set_err None s)) with (mapFilenameToSAH s) by reflexivity.
      rewrite Hs. reflexivity. }
  destruct (mapFilenameToSAH st !! path) as [ah|] eqn:Hp.
  - destruct (wf_used_live st Hwf path ah Hp) as [nm Hn].
    destruct (wf_names_file st Hwf ah nm Hn) as [c Hd].
    eexists. split.
    { unfold unlink. rewrite (deletePath_live st path ah nm c Hp Hn Hd (wf_body st Hwf)).
      rewrite bool_decide_eq_true_2 by eauto. reflexivity. }
    split; [discriminate|].
    assert (Hgone : delete path (mapFilenameToSAH st) !! path = None) by apply lookup_delete_eq.
    split; [exact Hgone|]. apply Hmiss. exact Hgone.
  - exists st. split.
    { rewrite bool_decide_eq_false_2 by (intros [? H]; discriminate).
      apply Hmiss. exact Hp. }
    split; [reflexivity|]. split; [exact Hp|]. apply Hmiss. exact Hp.
Qed.

Lemma X7_unlink_twice_witness :
  reachable pool_three_slots ∧
  ∃ st1,
    unlink "/a" pool_three_slots
    = (Ok (bool_decide (is_Some (mapFilenameToSAH pool_three_slots !! "/a"))), st1) ∧
    (mapFilenameToSAH pool_three_slots !! "/a" = None -> st1 = pool_three_slots) ∧
    mapFilenameToSAH st1 !! "/a" = None ∧
    unlink "/a" st1 = (Ok false, st1) ∧
    xDelete "/a" st1 = (Ok SQLITE_OK, set_err None st1).
Proof.
  assert (H1 : reachable pool_three_slots) by (eexists; reflexivity).
  exact (conj H1 (X7_unlink_twice pool_three_slots "/a" H1)).
Defined.

(** ** X8: opening without creating *)

(** X8. When the name is mapped, or the create flag is not set, [xOpen]
    takes no slot and writes no header. For a mapped name it returns
    [SQLITE_OK] and registers the file object with the given flags on the
    slot of the name; for a name that is not mapped it returns
    [SQLITE_CANTOPEN] and stores the "file not found" error. *)
Theorem X8_xOpen_without_creating (st : St) (path : string) (pFile flags : Z) :
  is_Some (mapFilenameToSAH st !! path) ∨ Z.land flags SQLITE_OPEN_CREATE = 0 ->
  xOpen path pFile flags st =
  match mapFilenameToSAH st !! path with
  | Some ah =>
      (Ok SQLITE_OK,
       set_mapIdToFile (insert pFile (mkOpenFile path flags ah SQLITE_LOCK_NONE)) st)
  | None => (Ok SQLITE_CANTOPEN, set_err (Some (FileNotFound path)) st)
  end.
Proof.
  intros H. unfold xOpen, try_catch. rewrite bind_gets.
  destruct (mapFilenameToSAH st !! path) as [ah|] eqn:Hp.
  - rewrite (bool_decide_eq_false_2 (Some ah = None)) by discriminate. reflexivity.
  - destruct H as [[? H]|H]; [discriminate|].
    rewrite (bool_decide_eq_false_2 (Z.land flags SQLITE_OPEN_CREATE ≠ 0)) by tauto.
    rewrite andb_false_r. reflexivity.
Qed.

Lemma X8_xOpen_without_creating_witness :
  (is_Some (mapFilenameToSAH pool_one_file !! "/b")
   ∨ Z.land SQLITE_OPEN_READWRITE SQLITE_OPEN_CREATE = 0) ∧
  xOpen "/b" 7 SQLITE_OPEN_READWRITE pool_one_file =
  match mapFilenameToSAH pool_one_file !! "/b" with
  | Some ah =>
      (Ok SQLITE_OK,
       set_mapIdToFile
         (insert 7 (mkOpenFile "/b" SQLITE_OPEN_READWRITE ah SQLITE_LOCK_NONE)) pool_one_file)
  | None => (Ok SQLITE_CANTOPEN, set_err (Some (FileNotFound "/b")) pool_one_file)
  end.
Proof.
  assert (H1 : is_Some (mapFilenameToSAH pool_one_file !! "/b")
               ∨ Z.land SQLITE_OPEN_READWRITE SQLITE_OPEN_CREATE = 0)
    by (right; vm_compute; reflexivity).
  exact (conj H1 (X8_xOpen_without_creating pool_one_file "/b" 7 SQLITE_OPEN_READWRITE H1)).
Defined.

(** ** X9: reading back what was written *)

(** X9. On a file that is open on a slot the pool holds, [xWrite] of
    [src] at an offset [offset64 >= 0] returns [SQLITE_OK]; an [xRead] of
    as many bytes at the same offset then delivers [src] and returns
    [SQLITE_OK]; [xFileSize] reports the old size or the end of the written
    range, whichever is larger. The write touches no map of the pool. *)
Theorem X9_xWrite_then_xRead (st : St) (pFile : Z) (f : OpenFile) (nm : Name)
    (c src dest : list Z) (offset64 : Z) :
  mapIdToFile st !! pFile = Some f ->
  mapSAHToName st !! file_sah f = Some nm ->
  dir_lookup nm (dirEntries st) = Some c ->
  0 <= offset64 ->
  length dest = length src ->
  ∃ st1,
    xWrite pFile src offset64 st = (Ok SQLITE_OK, st1) ∧
    xRead pFile dest offset64 st1 = (Ok (SQLITE_OK, src), st1) ∧
    xFileSize pFile st1 =
      (Ok (SQLITE_OK,
           Z.max (Z.of_nat (length c) - Z.of_nat HEADER_OFFSET_DATA)
                 (offset64 + Z.of_nat (length src))), st1) ∧
    mapSAHToName st1 = mapSAHToName st ∧ mapFilenameToSAH st1 = mapFilenameToSAH st ∧
    availableSAH st1 = availableSAH st ∧ mapIdToFile st1 = mapIdToFile st.
Proof.
  intros Hf Hn Hd Hoff Hlen.
  set (c1 := sah_write c (HEADER_OFFSET_DATA + Z.to_nat offset64) src).
  set (st1 := set_dirEntries (dir_update nm c1) (set_err None st)).
  assert (Hd1 : dir_lookup nm (dirEntries st1) = Some c1).
  { unfold st1. sproj. apply dir_lookup_update. eauto. }
  exists st1. split; [exact (xWrite_live st pFile f nm c src offset64 Hf Hn Hd Hoff)|].
  split.
  { rewrite (xRead_live st1 pFile f nm c1 dest offset64 Hf Hn Hd1 Hoff). cbv zeta.
    rewrite drop_drop. unfold c1. rewrite drop_sah_write_at.
    rewrite bool_decide_eq_false_2 by (rewrite length_app; lia).
    rewrite Hlen, take_app_length. reflexivity. }
  split.
  { rewrite (xFileSize_live st1 pFile f nm c1 Hf Hn Hd1). do 3 f_equal.
    unfold c1. rewrite length_sah_write. lia. }
  repeat split; reflexivity.
Qed.

Lemma X9_xWrite_then_xRead_witness :
  mapIdToFile pool_three_slots !! 100 = Some (mkOpenFile "/a" OPEN_MAIN_DB_CREATE 0%nat 0) ∧
  mapSAHToName pool_three_slots !! 0%nat = Some "n1" ∧
  dir_lookup "n1" (dirEntries pool_three_slots) = Some (slot_content "n1" pool_three_slots) ∧
  0 <= 2 ∧
  length [0; 0] = length [8; 9] ∧
  ∃ st1,
    xWrite 100 [8; 9] 2 pool_three_slots = (Ok SQLITE_OK, st1) ∧
    xRead 100 [0; 0] 2 st1 = (Ok (SQLITE_OK, [8; 9]), st1) ∧
    xFileSize 100 st1 =
      (Ok (SQLITE_OK,
           Z.max (Z.of_nat (length (slot_content "n1" pool_three_slots))
                  - Z.of_nat HEADER_OFFSET_DATA)
                 (2 + Z.of_nat (length [8; 9]))), st1) ∧
    mapSAHToName st1 = mapSAHToName pool_three_slots ∧
    mapFilenameToSAH st1 = mapFilenameToSAH pool_three_slots ∧
    availableSAH st1 = availableSAH pool_three_slots ∧
    mapIdToFile st1 = mapIdToFile pool_three_slots.
Proof.
  assert (H1 : mapIdToFile pool_three_slots !! 100
               = Some (mkOpenFile "/a" OPEN_MAIN_DB_CREATE 0%nat 0))
    by (vm_compute; reflexivity).
  assert (H2 : mapSAHToName pool_three_slots !! 0%nat = Some "n1") by (vm_compute; reflexivity).
  assert (H3 : dir_lookup "n1" (dirEntries pool_three_slots)
               = Some (slot_content "n1" pool_three_slots)) by (vm_compute; reflexivity).
  assert (H4 : 0 <= 2) by lia.
  assert (H5 : length [0; 0] = length [8; 9]) by reflexivity.
  exact (conj H1 (conj H2 (conj H3 (conj H4 (conj H5
           (X9_xWrite_then_xRead pool_three_slots 100
              (mkOpenFile "/a" OPEN_MAIN_DB_CREATE 0%nat 0) "n1"
              (slot_content "n1" pool_three_slots) [8; 9] [0; 0] 2 H1 H2 H3 H4 H5)))))).
Defined.

(** ** X10: the size after a truncation *)

(** X10. On a file that is open on a slot the pool holds, [xTruncate] to a
    size [sz64 >= 0] returns [SQLITE_OK] and [xFileSize] then reports
    [sz64]: the slot is [4096 + sz64] bytes long, it keeps the bytes it
    had below that length, header included, and is filled with zeros
    above them. *)
Theorem X10_xTruncate_then_xFileSize (st : St) (pFile : Z) (f : OpenFile) (nm : Name)
    (c : list Z) (sz64 : Z) :
  mapIdToFile st !! pFile = Some f ->
  mapSAHToName st !! file_sah f = Some nm ->
  dir_lookup nm (dirEntries st) = Some c ->
  0 <= sz64 ->
  ∃ st1 c1,
    xTruncate pFile sz64 st = (Ok SQLITE_OK, st1) ∧
    xFileSize pFile st1 = (Ok (SQLITE_OK, sz64), st1) ∧
    dir_lookup nm (dirEntries st1) = Some c1 ∧
    length c1 = (HEADER_OFFSET_DATA + Z.to_nat sz64)%nat ∧
    take (length c) c1 = take (HEADER_OFFSET_DATA + Z.to_nat sz64) c ∧
    Forall (fun b => b = 0) (drop (length c) c1).
Proof.
  intros Hf Hn Hd Hsz.
  set (c1 := sah_truncate c (HEADER_OFFSET_DATA + Z.to_nat sz64)).
  set (st1 := set_dirEntries (dir_update nm c1) (set_err None st)).
  assert (Hd1 : dir_lookup nm (dirEntries st1) = Some c1).
  { unfold st1. sproj. apply dir_lookup_update. eauto. }
  exists st1, c1. split; [exact (xTruncate_live st pFile f nm c sz64 Hf Hn Hd Hsz)|].
  split.
  { rewrite (xFileSize_live st1 pFile f nm c1 Hf Hn Hd1). do 3 f_equal.
    unfold c1. rewrite length_sah_truncate. lia. }
  split; [exact Hd1|]. split; [apply length_sah_truncate|].
  unfold c1, sah_truncate. split.
  - destruct (Nat.le_gt_cases (length c) (HEADER_OFFSET_DATA + Z.to_nat sz64)) as [Hle|Hgt].
    + rewrite !(take_ge c) by lia. rewrite take_app_length. reflexivity.
    + rewrite take_ge by (rewrite length_app, length_take, length_replicate; lia).
      replace (HEADER_OFFSET_DATA + Z.to_nat sz64 - length c)%nat with 0%nat by lia.
      apply app_nil_r.
  - destruct (Nat.le_gt_cases (length c) (HEADER_OFFSET_DATA + Z.to_nat sz64)) as [Hle|Hgt].
    + rewrite (take_ge c) by lia. rewrite drop_app_length. apply Forall_replicate. reflexivity.
    + rewrite drop_ge by (rewrite length_app, length_take, length_replicate; lia). constructor.
Qed.

Lemma X10_xTruncate_then_xFileSize_witness :
  mapIdToFile pool_three_slots !! 100 = Some (mkOpenFile "/a" OPEN_MAIN_DB_CREATE 0%nat 0) ∧
  mapSAHToName pool_three_slots !! 0%nat = Some "n1" ∧
  dir_lookup "n1" (dirEntries pool_three_slots) = Some (slot_content "n1" pool_three_slots) ∧
  0 <= 2 ∧
  ∃ st1 c1,
    xTruncate 100 2 pool_three_slots = (Ok SQLITE_OK, st1) ∧
    xFileSize 100 st1 = (Ok (SQLITE_OK, 2), st1) ∧
    dir_lookup "n1" (dirEntries st1) = Some c1 ∧
    length c1 = (HEADER_OFFSET_DATA + Z.to_nat 2)%nat ∧
    take (length (slot_content "n1" pool_three_slots)) c1
    = take (HEADER_OFFSET_DATA + Z.to_nat 2) (slot_content "n1" pool_three_slots) ∧
    Forall (fun b => b = 0) (drop (length (slot_content "n1" pool_three_slots)) c1).
Proof.
  assert (H1 : mapIdToFile pool_three_slots !! 100
               = Some (mkOpenFile "/a" OPEN_MAIN_DB_CREATE 0%nat 0))
    by (vm_compute; reflexivity).
  assert (H2 : mapSAHToName pool_three_slots !! 0%nat = Some "n1") by (vm_compute; reflexivity).
  assert (H3 : dir_lookup "n1" (dirEntries pool_three_slots)
               = Some (slot_content "n1" pool_three_slots)) by (vm_compute; reflexivity).
  assert (H4 : 0 <= 2) by lia.
  exact (conj H1 (conj H2 (conj H3 (conj H4
           (X10_xTruncate_then_xFileSize pool_three_slots 100
              (mkOpenFile "/a" OPEN_MAIN_DB_CREATE 0%nat 0) "n1"
              (slot_content "n1" pool_three_slots) 2 H1 H2 H3 H4))))).
Defined.

(** ** X11: closing a file that is kept *)

(** X11. In a reachable state, [xClose] of a [pFile] that is not open, or
    that is open on a slot the pool holds without the delete-on-close
    flag, returns [SQLITE_OK]; it clears the stored error and forgets the
    file object, and nothing else changes: the name stays mapped and the
    slot keeps its content. *)
Theorem X11_xClose_keeps_the_file (st : St) (pFile : Z) :
  reachable st ->
  (∀ f, mapIdToFile st !! pFile = Some f ->
     is_Some (mapSAHToName st !! file_sah f)
     ∧ Z.land (file_flags f) SQLITE_OPEN_DELETEONCLOSE = 0) ->
  xClose pFile st = (Ok SQLITE_OK, set_mapIdToFile (delete pFile) (set_err None st)).
Proof.
  intros Hreach H. pose proof (reachable_wf st Hreach) as Hwf.
  destruct (mapIdToFile st !! pFile) as [f|] eqn:Hf.
  - destruct (H f eq_refl) as [[nm Hn] Hfl].
    destruct (wf_names_file st Hwf _ nm Hn) as [c Hd].
    rewrite (xClose_live st pFile f nm c Hf Hn Hd). cbv zeta.
    rewrite bool_decide_eq_false_2 by (intros Hne; apply Hne; exact Hfl). reflexivity.
  - unfold xClose, storeErr. rewrite bind_modify, bind_gets.
    replace (mapIdToFile (set_err None st)) with (mapIdToFile st) by reflexivity.
    rewrite Hf. unfold mret, M_ret, set_mapIdToFile, set_err. sproj.
    rewrite delete_id by exact Hf. reflexivity.
Qed.

Lemma X11_xClose_keeps_the_file_witness :
  reachable pool_three_slots ∧
  (∀ f, mapIdToFile pool_three_slots !! 100 = Some f ->
     is_Some (mapSAHToName pool_three_slots !! file_sah f)
     ∧ Z.land (file_flags f) SQLITE_OPEN_DELETEONCLOSE = 0) ∧
  xClose 100 pool_three_slots
  = (Ok SQLITE_OK, set_mapIdToFile (delete 100) (set_err None pool_three_slots)).
Proof.
  assert (H1 : reachable pool_three_slots) by (eexists; reflexivity).
  assert (H2 : ∀ f, mapIdToFile pool_three_slots !! 100 = Some f ->
     is_Some (mapSAHToName pool_three_slots !! file_sah f)
     ∧ Z.land (file_flags f) SQLITE_OPEN_DELETEONCLOSE = 0).
  { intros f Hf. vm_compute in Hf. injection Hf as <-. split; [|vm_compute; reflexivity].
    exists "n1". vm_compute. reflexivity. }
  exact (conj H1 (conj H2 (X11_xClose_keeps_the_file pool_three_slots 100 H1 H2))).
Defined.

(** ** X12: the life of a delete-on-close file *)

(** X12. In a reachable state where used plus available slots make up the
    capacity and [ah] is the first available slot, [xOpen] with the create
    and delete-on-close flags, for a non-empty name that is not mapped and
    is shorter than 512 bytes, maps the name to [ah]; [xClose] of that file
    then gives the slot back: the name map and the handle map are as
    before the [xOpen], [ah] is available again, now as the youngest
    member of the set, its entry is cut to the 4096 bytes of the header
    sector, and the file object is gone. *)
Theorem X12_delete_on_close_returns_the_slot (st : St) (path : string) (pFile flags : Z)
    (ah : SAH) (rest : list SAH) :
  reachable st ->
  (getFileCount st + length (availableSAH st) = getCapacity st)%nat ->
  mapFilenameToSAH st !! path = None ->
  path ≠ "" ->
  (length (textEncode path) < HEADER_MAX_PATH_SIZE)%nat ->
  Z.land flags SQLITE_OPEN_CREATE ≠ 0 ->
  Z.land flags SQLITE_OPEN_DELETEONCLOSE ≠ 0 ->
  availableSAH st = ah :: rest ->
  ∃ st1 st2 nm c2,
    xOpen path pFile flags st = (Ok SQLITE_OK, st1) ∧
    mapFilenameToSAH st1 !! path = Some ah ∧
    xClose pFile st1 = (Ok SQLITE_OK, st2) ∧
    mapFilenameToSAH st2 = mapFilenameToSAH st ∧
    mapSAHToName st2 = mapSAHToName st ∧
    availableSAH st2 = rest ++ [ah] ∧
    mapIdToFile st2 = delete pFile (mapIdToFile st) ∧
    mapSAHToName st !! ah = Some nm ∧
    dir_lookup nm (dirEntries st2) = Some c2 ∧
    length c2 = HEADER_OFFSET_DATA.
Proof.
  intros Hreach Hcnt Hp Hne Hfit Hcr Hdc Hav.
  pose proof (reachable_wf st Hreach) as Hwf.
  pose proof (wf_body st Hwf) as Hb.
  assert (Hin : ah ∈ availableSAH st) by (rewrite Hav; left).
  destruct (wf_avail_live st Hwf ah Hin) as [nm Hn].
  destruct (wf_names_file st Hwf ah nm Hn) as [c Hd].
  assert (Hnext : nextAvailableSAH st = Some ah) by (unfold nextAvailableSAH; rewrite Hav; reflexivity).
  pose proof (xOpen_create_assigns st path pFile flags ah nm c Hp Hcr Hne
                ltac:(rewrite Hb; unfold HEADER_CORPUS_SIZE, HEADER_MAX_PATH_SIZE,
                        HEADER_FLAGS_SIZE in *; lia) Hcnt Hnext Hn Hd) as Hopen.
  set (hb := header_body (apBody st) path flags) in *.
  set (c1 := header_write c hb) in *.
  set (st1 := mkSt _ _ _ _ _ _ _ _) in Hopen.
  assert (Hd1 : dir_lookup nm (dirEntries st1) = Some c1).
  { unfold st1. sproj. apply dir_lookup_update. eauto. }
  assert (Hf1 : mapIdToFile st1 !! pFile = Some (mkOpenFile path flags ah SQLITE_LOCK_NONE)).
  { unfold st1. sproj. apply lookup_insert_eq. }
  pose proof (xClose_live st1 pFile _ nm c1 Hf1 Hn Hd1) as Hclose. cbv zeta in Hclose.
  cbn [file_flags file_path] in Hclose.
  rewrite (bool_decide_eq_true_2 _ Hdc) in Hclose.
  rewrite (deletePath_live _ path ah nm c1) in Hclose.
  2:{ unfold st1, set_mapIdToFile, set_err. sproj. apply lookup_insert_eq. }
  2:{ exact Hn. }
  2:{ exact Hd1. }
  2:{ unfold st1, set_mapIdToFile, set_err. sproj. unfold hb.
      rewrite length_header_body. exact Hb. }
  eexists st1, _, nm, _. split; [exact Hopen|].
  split; [unfold st1; sproj; apply lookup_insert_eq|].
  split; [exact Hclose|].
  unfold st1, set_mapIdToFile, set_err. sproj.
  split; [apply delete_insert_id; exact Hp|]. split; [reflexivity|].
  split.
  { rewrite Hav. rewrite set_delete_head by (rewrite <- Hav; exact (wf_avail_nodup st Hwf)).
    unfold set_add. rewrite bool_decide_eq_false_2; [reflexivity|].
    pose proof (wf_avail_nodup st Hwf) as Hnd. rewrite Hav in Hnd.
    inversion Hnd; assumption. }
  split; [apply delete_insert_eq|]. split; [exact Hn|].
  split; [|apply length_sah_truncate].
  rewrite dir_update_update. apply dir_lookup_update. eauto.
Qed.

Lemma X12_delete_on_close_returns_the_slot_witness :
  reachable pool_one_slot ∧
  (getFileCount pool_one_slot + length (availableSAH pool_one_slot)
   = getCapacity pool_one_slot)%nat ∧
  mapFilenameToSAH pool_one_slot !! "/t" = None ∧
  "/t" ≠ "" ∧
  (length (textEncode "/t") < HEADER_MAX_PATH_SIZE)%nat ∧
  Z.land OPEN_TEMP_DB SQLITE_OPEN_CREATE ≠ 0 ∧
  Z.land OPEN_TEMP_DB SQLITE_OPEN_DELETEONCLOSE ≠ 0 ∧
  availableSAH pool_one_slot = [0%nat] ∧
  ∃ st1 st2 nm c2,
    xOpen "/t" 100 OPEN_TEMP_DB pool_one_slot = (Ok SQLITE_OK, st1) ∧
    mapFilenameToSAH st1 !! "/t" = Some 0%nat ∧
    xClose 100 st1 = (Ok SQLITE_OK, st2) ∧
    mapFilenameToSAH st2 = mapFilenameToSAH pool_one_slot ∧
    mapSAHToName st2 = mapSAHToName pool_one_slot ∧
    availableSAH st2 = [] ++ [0%nat] ∧
    mapIdToFile st2 = delete 100 (mapIdToFile pool_one_slot) ∧
    mapSAHToName pool_one_slot !! 0%nat = Some nm ∧
    dir_lookup nm (dirEntries st2) = Some c2 ∧
    length c2 = HEADER_OFFSET_DATA.
Proof.
  assert (H1 : reachable pool_one_slot) by (eexists; reflexivity).
  assert (H2 : (getFileCount pool_one_slot + length (availableSAH pool_one_slot)
                = getCapacity pool_one_slot)%nat) by (vm_compute; reflexivity).
  assert (H3 : mapFilenameToSAH pool_one_slot !! "/t" = None) by (vm_compute; reflexivity).
  assert (H4 : "/t" ≠ "") by discriminate.
  assert (H5 : (length (textEncode "/t") < HEADER_MAX_PATH_SIZE)%nat) by (vm_compute; lia).
  assert (H6 : Z.land OPEN_TEMP_DB SQLITE_OPEN_CREATE ≠ 0) by (vm_compute; discriminate).
  assert (H7 : Z.land OPEN_TEMP_DB SQLITE_OPEN_DELETEONCLOSE ≠ 0) by (vm_compute; discriminate).
  assert (H8 : availableSAH pool_one_slot = [0%nat]) by (vm_compute; reflexivity).
  exact (conj H1 (conj H2 (conj H3 (conj H4 (conj H5 (conj H6 (conj H7 (conj H8
           (X12_delete_on_close_returns_the_slot pool_one_slot "/t" 100 OPEN_TEMP_DB
              0%nat [] H1 H2 H3 H4 H5 H6 H7 H8))))))))).
Defined.

(** ** X13: wiping the pool *)

(** X13. In a reachable state [wipeFiles()] succeeds and leaves no name
    mapped: the capacity is the number of entries of the directory, every
    slot is available, every entry is cut to the 4096 bytes of its header
    sector, every handle that was open before is closed, and [exportFile]
    finds no file. *)
Theorem X13_wipeFiles_frees_every_slot (st : St) :
  reachable st ->
  ∃ st',
    wipeFiles st = (Ok tt, st') ∧
    getFileCount st' = 0%nat ∧
    getCapacity st' = length (dirEntries st) ∧
    length (availableSAH st') = getCapacity st' ∧
    (∀ ah, ah ∈ availableSAH st' -> is_Some (mapSAHToName st' !! ah)) ∧
    (dirEntries st').*1 = (dirEntries st).*1 ∧
    (∀ nm c, dir_lookup nm (dirEntries st') = Some c -> length c = HEADER_OFFSET_DATA) ∧
    (∀ ah, is_Some (mapSAHToName st !! ah) -> mapSAHToName st' !! ah = None) ∧
    (∀ name, exportFile name st' = (Throw (FileNotFound name), st')).
Proof.
  intros Hreach. pose proof (reachable_wf st Hreach) as Hwf.
  destruct (reset_clear st Hwf)
    as (st' & Hrun & Hwf' & Hu & Ha & Hcap & _ & _ & _ & Hdn & Hold & _ & Hlen).
  exists st'. split; [exact Hrun|].
  split; [unfold getFileCount; rewrite Hu; apply map_size_empty|].
  split; [exact Hcap|].
  split; [rewrite Ha, length_seq, Hcap; reflexivity|].
  split; [exact (wf_avail_live st' Hwf')|].
  split; [exact Hdn|]. split; [exact Hlen|].
  split.
  - intros ah Hah. apply Hold. exact (wf_names_fresh st Hwf ah Hah).
  - intros name. unfold exportFile. rewrite bind_gets, Hu, lookup_empty. reflexivity.
Qed.

Lemma X13_wipeFiles_frees_every_slot_witness :
  reachable pool_three_slots ∧
  ∃ st',
    wipeFiles pool_three_slots = (Ok tt, st') ∧
    getFileCount st' = 0%nat ∧
    getCapacity st' = length (dirEntries pool_three_slots) ∧
    length (availableSAH st') = getCapacity st' ∧
    (∀ ah, ah ∈ availableSAH st' -> is_Some (mapSAHToName st' !! ah)) ∧
    (dirEntries st').*1 = (dirEntries pool_three_slots).*1 ∧
    (∀ nm c, dir_lookup nm (dirEntries st') = Some c -> length c = HEADER_OFFSET_DATA) ∧
    (∀ ah, is_Some (mapSAHToName pool_three_slots !! ah) -> mapSAHToName st' !! ah = None) ∧
    (∀ name, exportFile name st' = (Throw (FileNotFound name), st')).
Proof.
  assert (H1 : reachable pool_three_slots) by (eexists; reflexivity).
  exact (conj H1 (X13_wipeFiles_frees_every_slot pool_three_slots H1)).
Defined.

(** ** X14: exporting what was imported *)

(** X14. [importDb] of a byte array of at least 512 bytes, a multiple of
    512, that starts with the magic header, under a non-empty name shorter
    than 512 bytes, succeeds on the slot [ah] of the name or, for a name
    that is not mapped, on the first available slot: the name is mapped to
    [ah], which is not available. [exportFile] of the name then returns
    the imported bytes, followed by what the slot held beyond their
    length, since the import does not truncate: exactly the imported
    bytes when the slot held no longer payload. *)
Theorem X14_importDb_then_exportFile (st : St) (name : string) (bytes : list Z)
    (ah : SAH) (nm : Name) (c : list Z) :
  reachable st ->
  (512 <= length bytes)%nat ->
  (length bytes mod 512 = 0)%nat ->
  take 15 bytes = textEncode "SQLite format 3" ->
  name ≠ "" ->
  (length (textEncode name) < HEADER_MAX_PATH_SIZE)%nat ->
  match mapFilenameToSAH st !! name with
  | Some a => a = ah
  | None => nextAvailableSAH st = Some ah
  end ->
  mapSAHToName st !! ah = Some nm ->
  dir_lookup nm (dirEntries st) = Some c ->
  ∃ st',
    importDb name bytes st = (Ok tt, st') ∧
    mapFilenameToSAH st' = <[name := ah]> (mapFilenameToSAH st) ∧
    (ah ∉ availableSAH st') ∧
    exportFile name st'
    = (Ok (bytes ++ drop (length bytes) (drop HEADER_OFFSET_DATA c)), st') ∧
    ((length c <= HEADER_OFFSET_DATA + length bytes)%nat ->
     exportFile name st' = (Ok bytes, st')).
Proof.
  intros Hreach Hlen Hmod Hhdr Hne Hfit Hsel Hn Hd.
  pose proof (reachable_wf st Hreach) as Hwf. pose proof (wf_body st Hwf) as Hb.
  assert (Hfit' : (length (textEncode name) `min` length (apBody st) < HEADER_MAX_PATH_SIZE)%nat)
    by lia.
  pose proof (importDb_live st name bytes ah nm c Hlen Hmod Hhdr Hne Hfit' Hsel Hn Hd) as Himp.
  set (hb := header_body (apBody st) name SQLITE_OPEN_MAIN_DB) in *.
  set (c1 := header_write (sah_write c HEADER_OFFSET_DATA bytes) hb) in *.
  set (st' := mkSt _ _ _ _ _ _ _ _) in Himp.
  assert (Hexp : exportFile name st'
                 = (Ok (bytes ++ drop (length bytes) (drop HEADER_OFFSET_DATA c)), st')).
  { rewrite (exportFile_live st' name ah nm c1).
    - do 2 f_equal. unfold c1. rewrite drop_header_write.
      + rewrite drop_sah_write_at, drop_drop. reflexivity.
      + unfold hb. rewrite length_header_body. exact Hb.
      + unfold HEADER_OFFSET_DATA, SECTOR_SIZE, HEADER_CORPUS_SIZE, HEADER_MAX_PATH_SIZE,
          HEADER_FLAGS_SIZE, HEADER_DIGEST_SIZE. lia.
    - unfold st'. sproj. apply lookup_insert_eq.
    - exact Hn.
    - unfold st'. sproj. apply dir_lookup_update. eauto. }
  exists st'. split; [exact Himp|]. split; [reflexivity|].
  split.
  { unfold st'. sproj. intros Hin. apply elem_of_set_delete in Hin as [_ Hin]. congruence. }
  split; [exact Hexp|].
  intros Hshort. rewrite Hexp. rewrite (drop_ge (drop HEADER_OFFSET_DATA c))
    by (rewrite length_drop; lia). rewrite app_nil_r. reflexivity.
Qed.

Lemma X14_importDb_then_exportFile_witness :
  reachable pool_one_file ∧
  (512 <= length tiny_db)%nat ∧
  (length tiny_db mod 512 = 0)%nat ∧
  take 15 tiny_db = textEncode "SQLite format 3" ∧
  "/a" ≠ "" ∧
  (length (textEncode "/a") < HEADER_MAX_PATH_SIZE)%nat ∧
  match mapFilenameToSAH pool_one_file !! "/a" with
  | Some a => a = 0%nat
  | None => nextAvailableSAH pool_one_file = Some 0%nat
  end ∧
  mapSAHToName pool_one_file !! 0%nat = Some "n1" ∧
  dir_lookup "n1" (dirEntries pool_one_file) = Some (slot_content "n1" pool_one_file) ∧
  ∃ st',
    importDb "/a" tiny_db pool_one_file = (Ok tt, st') ∧
    mapFilenameToSAH st' = <["/a" := 0%nat]> (mapFilenameToSAH pool_one_file) ∧
    (0%nat ∉ availableSAH st') ∧
    exportFile "/a" st'
    = (Ok (tiny_db ++ drop (length tiny_db)
                        (drop HEADER_OFFSET_DATA (slot_content "n1" pool_one_file))), st') ∧
    ((length (slot_content "n1" pool_one_file) <= HEADER_OFFSET_DATA + length tiny_db)%nat ->
     exportFile "/a" st' = (Ok tiny_db, st')).
Proof.
  assert (H1 : reachable pool_one_file) by (eexists; reflexivity).
  assert (H2 : (512 <= length tiny_db)%nat) by (vm_compute; lia).
  assert (H3 : (length tiny_db mod 512 = 0)%nat) by (vm_compute; reflexivity).
  assert (H4 : take 15 tiny_db = textEncode "SQLite format 3") by (vm_compute; reflexivity).
  assert (H5 : "/a" ≠ "") by discriminate.
  assert (H6 : (length (textEncode "/a") < HEADER_MAX_PATH_SIZE)%nat) by (vm_compute; lia).
  assert (H7 : match mapFilenameToSAH pool_one_file !! "/a" with
               | Some a => a = 0%nat
               | None => nextAvailableSAH pool_one_file = Some 0%nat
               end) by (vm_compute; reflexivity).
  assert (H8 : mapSAHToName pool_one_file !! 0%nat = Some "n1") by (vm_compute; reflexivity).
  assert (H9 : dir_lookup "n1" (dirEntries pool_one_file)
               = Some (slot_content "n1" pool_one_file)) by (vm_compute; reflexivity).
  exact (conj H1 (conj H2 (conj H3 (conj H4 (conj H5 (conj H6 (conj H7 (conj H8 (conj H9
           (X14_importDb_then_exportFile pool_one_file "/a" tiny_db 0%nat "n1"
              (slot_content "n1" pool_one_file) H1 H2 H3 H4 H5 H6 H7 H8 H9)))))))))).
Defined.

(** ** X15: importing into a full pool *)

(** X15. [importDb] of an acceptable byte array under a name that is not
    mapped, when no slot is available, throws "No available handles to
    import to." and changes nothing. *)
Theorem X15_importDb_without_a_slot (st : St) (name : string) (bytes : list Z) :
  (512 <= length bytes)%nat ->
  (length bytes mod 512 = 0)%nat ->
  take 15 bytes = textEncode "SQLite format 3" ->
  mapFilenameToSAH st !! name = None ->
  availableSAH st = [] ->
  importDb name bytes st = (Throw NoAvailableHandles, st).
Proof.
  intros Hlen Hmod Hhdr Hp Ha. unfold importDb. cbv zeta.
  rewrite (bool_decide_eq_false_2 (length bytes < 512)%nat) by lia.
  rewrite (bool_decide_eq_false_2 (length bytes mod 512 ≠ 0)%nat)
    by (intros H; apply H; exact Hmod).
  cbn [orb].
  rewrite (proj2 (header_mismatch_false (textEncode "SQLite format 3") bytes)) by exact Hhdr.
  rewrite !bind_gets, Hp. unfold nextAvailableSAH. rewrite Ha. reflexivity.
Qed.

Lemma X15_importDb_without_a_slot_witness :
  (512 <= length tiny_db)%nat ∧
  (length tiny_db mod 512 = 0)%nat ∧
  take 15 tiny_db = textEncode "SQLite format 3" ∧
  mapFilenameToSAH pool_one_file !! "/b" = None ∧
  availableSAH pool_one_file = [] ∧
  importDb "/b" tiny_db pool_one_file = (Throw NoAvailableHandles, pool_one_file).
Proof.
  assert (H2 : (512 <= length tiny_db)%nat) by (vm_compute; lia).
  assert (H3 : (length tiny_db mod 512 = 0)%nat) by (vm_compute; reflexivity).
  assert (H4 : take 15 tiny_db = textEncode "SQLite format 3") by (vm_compute; reflexivity).
  assert (H5 : mapFilenameToSAH pool_one_file !! "/b" = None) by (vm_compute; reflexivity).
  assert (H6 : availableSAH pool_one_file = []) by (vm_compute; reflexivity).
  exact (conj H2 (conj H3 (conj H4 (conj H5 (conj H6
           (X15_importDb_without_a_slot pool_one_file "/b" tiny_db H2 H3 H4 H5 H6)))))).
Defined.

(** ** X16: importing under a name that is too long *)

(** X16. [importDb] writes the bytes before it writes the header. For a
    name of 512 bytes or more that is not mapped, with [ah] the first
    available slot, it throws "Path too long"; no name is mapped and [ah]
    stays available, but the payload of [ah] now starts with the bytes of
    the failed import. *)
Theorem X16_importDb_name_too_long (st : St) (name : string) (bytes : list Z)
    (ah : SAH) (nm : Name) (c : list Z) :
  reachable st ->
  (512 <= length bytes)%nat ->
  (length bytes mod 512 = 0)%nat ->
  take 15 bytes = textEncode "SQLite format 3" ->
  (HEADER_MAX_PATH_SIZE <= length (textEncode name))%nat ->
  mapFilenameToSAH st !! name = None ->
  nextAvailableSAH st = Some ah ->
  mapSAHToName st !! ah = Some nm ->
  dir_lookup nm (dirEntries st) = Some c ->
  ∃ st' c',
    importDb name bytes st = (Throw (PathTooLong name), st') ∧
    mapFilenameToSAH st' = mapFilenameToSAH st ∧
    availableSAH st' = availableSAH st ∧
    mapSAHToName st' = mapSAHToName st ∧
    dir_lookup nm (dirEntries st') = Some c' ∧
    take (length bytes) (drop HEADER_OFFSET_DATA c') = bytes ∧
    take HEADER_OFFSET_DATA c' = take HEADER_OFFSET_DATA (c ++ replicate HEADER_OFFSET_DATA 0).
Proof.
  intros Hreach Hlen Hmod Hhdr Hlong Hp Hnext Hn Hd.
  pose proof (reachable_wf st Hreach) as Hwf. pose proof (wf_body st Hwf) as Hb.
  set (c1 := sah_write c HEADER_OFFSET_DATA bytes).
  exists (set_apBody (overlay (textEncode name)) (set_dirEntries (dir_update nm c1) st)), c1.
  split.
  { unfold importDb. cbv zeta.
    rewrite (bool_decide_eq_false_2 (length bytes < 512)%nat) by lia.
    rewrite (bool_decide_eq_false_2 (length bytes mod 512 ≠ 0)%nat)
      by (intros H; apply H; exact Hmod).
    cbn [orb].
    rewrite (proj2 (header_mismatch_false (textEncode "SQLite format 3") bytes)) by exact Hhdr.
    rewrite !bind_gets, Hp, Hnext.
    erewrite bind_ok by (eapply sahWrite_live; eassumption).
    apply setAssociatedPath_long. unfold set_dirEntries. sproj. rewrite Hb.
    unfold HEADER_CORPUS_SIZE, HEADER_MAX_PATH_SIZE, HEADER_FLAGS_SIZE in *. lia. }
  unfold set_apBody, set_dirEntries. sproj.
  do 3 (split; [reflexivity|]).
  split; [apply dir_lookup_update; eauto|].
  unfold c1. split.
  - rewrite drop_sah_write_at. apply take_app_length.
  - unfold sah_write. rewrite app_assoc.
    rewrite take_app_length'
      by (rewrite length_app, length_take, length_replicate; lia).
    destruct (Nat.le_gt_cases HEADER_OFFSET_DATA (length c)) as [Hle|Hgt].
    + replace (HEADER_OFFSET_DATA - length c)%nat with 0%nat by lia.
      cbn [replicate]. rewrite app_nil_r. rewrite take_app_le by lia. reflexivity.
    + rewrite take_ge by lia. rewrite take_app_ge by lia. f_equal.
      rewrite take_replicate. f_equal. lia.
Qed.

Lemma X16_importDb_name_too_long_witness :
  reachable pool_one_slot ∧
  (512 <= length tiny_db)%nat ∧
  (length tiny_db mod 512 = 0)%nat ∧
  take 15 tiny_db = textEncode "SQLite format 3" ∧
  (HEADER_MAX_PATH_SIZE <= length (textEncode long_path))%nat ∧
  mapFilenameToSAH pool_one_slot !! long_path = None ∧
  nextAvailableSAH pool_one_slot = Some 0%nat ∧
  mapSAHToName pool_one_slot !! 0%nat = Some "n1" ∧
  dir_lookup "n1" (dirEntries pool_one_slot) = Some (slot_content "n1" pool_one_slot) ∧
  ∃ st' c',
    importDb long_path tiny_db pool_one_slot = (Throw (PathTooLong long_path), st') ∧
    mapFilenameToSAH st' = mapFilenameToSAH pool_one_slot ∧
    availableSAH st' = availableSAH pool_one_slot ∧
    mapSAHToName st' = mapSAHToName pool_one_slot ∧
    dir_lookup "n1" (dirEntries st') = Some c' ∧
    take (length tiny_db) (drop HEADER_OFFSET_DATA c') = tiny_db ∧
    take HEADER_OFFSET_DATA c'
    = take HEADER_OFFSET_DATA (slot_content "n1" pool_one_slot ++ replicate HEADER_OFFSET_DATA 0).
Proof.
  assert (H1 : reachable pool_one_slot) by (eexists; reflexivity).
  assert (H2 : (512 <= length tiny_db)%nat) by (vm_compute; lia).
  assert (H3 : (length tiny_db mod 512 = 0)%nat) by (vm_compute; reflexivity).
  assert (H4 : take 15 tiny_db = textEncode "SQLite format 3") by (vm_compute; reflexivity).
  assert (H5 : (HEADER_MAX_PATH_SIZE <= length (textEncode long_path))%nat)
    by (vm_compute; lia).
  assert (H6 : mapFilenameToSAH pool_one_slot !! long_path = None) by (vm_compute; reflexivity).
  assert (H7 : nextAvailableSAH pool_one_slot = Some 0%nat) by (vm_compute; reflexivity).
  assert (H8 : mapSAHToName pool_one_slot !! 0%nat = Some "n1") by (vm_compute; reflexivity).
  assert (H9 : dir_lookup "n1" (dirEntries pool_one_slot)
               = Some (slot_content "n1" pool_one_slot)) by (vm_compute; reflexivity).
  exact (conj H1 (conj H2 (conj H3 (conj H4 (conj H5 (conj H6 (conj H7 (conj H8 (conj H9
           (X16_importDb_name_too_long pool_one_slot long_path tiny_db 0%nat "n1"
              (slot_content "n1" pool_one_slot) H1 H2 H3 H4 H5 H6 H7 H8 H9)))))))))).
Defined.

(** ** X17: importing under the empty name *)

(** X17. In a reachable state with an available slot, [importDb] of an
    acceptable byte array under the empty name throws nothing and imports
    nothing: no name is mapped, the first available slot [ah] stays
    available, its entry is cut to the 4096 bytes of the header sector,
    and the flag word of its header is [SQLITE_OPEN_MAIN_DB]. *)
Theorem X17_importDb_empty_name (st : St) (bytes : list Z) (ah : SAH) (nm : Name)
    (c : list Z) :
  reachable st ->
  (512 <= length bytes)%nat ->
  (length bytes mod 512 = 0)%nat ->
  take 15 bytes = textEncode "SQLite format 3" ->
  nextAvailableSAH st = Some ah ->
  mapSAHToName st !! ah = Some nm ->
  dir_lookup nm (dirEntries st) = Some c ->
  ∃ st' c',
    importDb "" bytes st = (Ok tt, st') ∧
    mapFilenameToSAH st' = mapFilenameToSAH st ∧
    availableSAH st' = availableSAH st ∧
    mapSAHToName st' = mapSAHToName st ∧
    dir_lookup nm (dirEntries st') = Some c' ∧
    length c' = HEADER_OFFSET_DATA ∧
    of_be32 (take HEADER_FLAGS_SIZE (drop HEADER_OFFSET_FLAGS c')) = SQLITE_OPEN_MAIN_DB.
Proof.
  intros Hreach Hlen Hmod Hhdr Hnext Hn Hd.
  pose proof (reachable_wf st Hreach) as Hwf. pose proof (wf_body st Hwf) as Hb.
  assert (Hin : ah ∈ availableSAH st) by (apply head_elem_of; exact Hnext).
  set (hb := header_body (apBody st) "" SQLITE_OPEN_MAIN_DB).
  assert (Hlhb : length hb = HEADER_CORPUS_SIZE)
    by (unfold hb; rewrite length_header_body; exact Hb).
  set (c1 := sah_write c HEADER_OFFSET_DATA bytes).
  set (c2 := sah_truncate (header_write c1 hb) HEADER_OFFSET_DATA).
  exists (mkSt (mapSAHToName st) (mapFilenameToSAH st) (availableSAH st) (mapIdToFile st)
            hb (err st) (dir_update nm c2 (dirEntries st)) (sahCount st)), c2.
  split.
  { unfold importDb. cbv zeta.
    rewrite (bool_decide_eq_false_2 (length bytes < 512)%nat) by lia.
    rewrite (bool_decide_eq_false_2 (length bytes mod 512 ≠ 0)%nat)
      by (intros H; apply H; exact Hmod).
    cbn [orb].
    rewrite (proj2 (header_mismatch_false (textEncode "SQLite format 3") bytes)) by exact Hhdr.
    rewrite !bind_gets, (wf_used_nonempty st Hwf), Hnext.
    erewrite bind_ok by (eapply sahWrite_live; eassumption).
    destruct st as [names used avail files body e dir cnt]. unfold set_dirEntries. sproj.
    rewrite (setAssociatedPath_live _ _ _ _ _ _ _ _ _ nm c1);
      [| exact Hn | apply dir_lookup_update; eauto |].
    2:{ rewrite textEncode_empty. cbn [length]. unfold HEADER_MAX_PATH_SIZE. lia. }
    cbv zeta. rewrite bool_decide_eq_false_2 by (intros H; apply H; reflexivity).
    rewrite dir_update_update. rewrite set_add_old by exact Hin. reflexivity. }
  sproj. do 3 (split; [reflexivity|]).
  split; [apply dir_lookup_update; eauto|].
  split; [apply length_sah_truncate|].
  unfold c2. rewrite sah_truncate_drop_take.
  - rewrite header_write_flags by exact Hlhb.
    destruct (header_body_fields (apBody st) "" SQLITE_OPEN_MAIN_DB Hb) as (_ & _ & Hfl).
    { rewrite textEncode_empty. cbn [length]. lia. }
    fold hb in Hfl. rewrite Hfl. reflexivity.
  - unfold HEADER_OFFSET_FLAGS, HEADER_FLAGS_SIZE, HEADER_MAX_PATH_SIZE, HEADER_OFFSET_DATA,
      SECTOR_SIZE. lia.
  - rewrite length_header_write by exact Hlhb.
    unfold HEADER_OFFSET_FLAGS, HEADER_CORPUS_SIZE, HEADER_FLAGS_SIZE, HEADER_MAX_PATH_SIZE,
      HEADER_DIGEST_SIZE. lia.
Qed.

Lemma X17_importDb_empty_name_witness :
  reachable pool_one_slot ∧
  (512 <= length tiny_db)%nat ∧
  (length tiny_db mod 512 = 0)%nat ∧
  take 15 tiny_db = textEncode "SQLite format 3" ∧
  nextAvailableSAH pool_one_slot = Some 0%nat ∧
  mapSAHToName pool_one_slot !! 0%nat = Some "n1" ∧
  dir_lookup "n1" (dirEntries pool_one_slot) = Some (slot_content "n1" pool_one_slot) ∧
  ∃ st' c',
    importDb "" tiny_db pool_one_slot = (Ok tt, st') ∧
    mapFilenameToSAH st' = mapFilenameToSAH pool_one_slot ∧
    availableSAH st' = availableSAH pool_one_slot ∧
    mapSAHToName st' = mapSAHToName pool_one_slot ∧
    dir_lookup "n1" (dirEntries st') = Some c' ∧
    length c' = HEADER_OFFSET_DATA ∧
    of_be32 (take HEADER_FLAGS_SIZE (drop HEADER_OFFSET_FLAGS c')) = SQLITE_OPEN_MAIN_DB.
Proof.
  assert (H1 : reachable pool_one_slot) by (eexists; reflexivity).
  assert (H2 : (512 <= length tiny_db)%nat) by (vm_compute; lia).
  assert (H3 : (length tiny_db mod 512 = 0)%nat) by (vm_compute; reflexivity).
  assert (H4 : take 15 tiny_db = textEncode "SQLite format 3") by (vm_compute; reflexivity).
  assert (H7 : nextAvailableSAH pool_one_slot = Some 0%nat) by (vm_compute; reflexivity).
  assert (H8 : mapSAHToName pool_one_slot !! 0%nat = Some "n1") by (vm_compute; reflexivity).
  assert (H9 : dir_lookup "n1" (dirEntries pool_one_slot)
               = Some (slot_content "n1" pool_one_slot)) by (vm_compute; reflexivity).
  exact (conj H1 (conj H2 (conj H3 (conj H4 (conj H7 (conj H8 (conj H9
           (X17_importDb_empty_name pool_one_slot tiny_db 0%nat "n1"
              (slot_content "n1" pool_one_slot) H1 H2 H3 H4 H7 H8 H9)))))))).
Defined.

(** ** X18: a header that is refused *)

(** X18. [getAssociatedPath] does not clean up after a header it refuses.
    On an open handle whose slot has at least the 516 bytes of a header,
    when the first byte is not zero and the flags have the delete-on-close
    bit or no persistent file type, or when the digest stored behind the
    header is not the digest of the header, it throws [ReferenceError] at
    the call of [warn]. The header is in the shared buffer then, and
    nothing else has changed: the slot is not made available, its entry is
    not cut and its flag word is not reset. *)
Theorem X18_refused_header_throws (st : St) (ah : SAH) (nm : Name) (c : list Z) :
  mapSAHToName st !! ah = Some nm ->
  dir_lookup nm (dirEntries st) = Some c ->
  length (apBody st) = HEADER_CORPUS_SIZE ->
  (HEADER_CORPUS_SIZE <= length c)%nat ->
  (take HEADER_CORPUS_SIZE c !! 0%nat ≠ Some 0 ∧
   (Z.land (of_be32 (drop HEADER_OFFSET_FLAGS (take HEADER_CORPUS_SIZE c)))
           SQLITE_OPEN_DELETEONCLOSE ≠ 0
    ∨ Z.land (of_be32 (drop HEADER_OFFSET_FLAGS (take HEADER_CORPUS_SIZE c)))
             PERSISTENT_FILE_TYPES = 0))
  ∨ (of_le32 (overlay (sah_read c HEADER_OFFSET_DIGEST HEADER_DIGEST_SIZE)
                      (replicate HEADER_DIGEST_SIZE 0)),
     of_le32 (drop 4 (overlay (sah_read c HEADER_OFFSET_DIGEST HEADER_DIGEST_SIZE)
                              (replicate HEADER_DIGEST_SIZE 0))))
    ≠ computeDigest (take HEADER_CORPUS_SIZE c) ->
  getAssociatedPath ah st
  = (Throw ReferenceError, set_apBody (fun _ => take HEADER_CORPUS_SIZE c) st).
Proof.
  intros Hn Hd Hb Hlc Hcase.
  destruct st as [names used avail files body e dir cnt]. sproj.
  rewrite (getAssociatedPath_live _ _ _ _ _ _ _ _ _ nm c) by assumption. cbv zeta.
  set (hb := take HEADER_CORPUS_SIZE c) in *.
  assert (Hlen : length hb = HEADER_CORPUS_SIZE)
    by (unfold hb; rewrite length_take; lia).
  assert (Hov : overlay (sah_read c 0 (length body)) body = hb).
  { rewrite Hb. unfold sah_read. rewrite drop_0. fold hb.
    apply overlay_same_length. congruence. }
  rewrite Hov. unfold set_apBody. sproj.
  destruct (bool_decide (hb !! 0%nat ≠ Some 0 ∧ hb !! 0%nat ≠ None)
            && (bool_decide (Z.land (of_be32 (drop HEADER_OFFSET_FLAGS hb))
                               SQLITE_OPEN_DELETEONCLOSE ≠ 0)
                || bool_decide (Z.land (of_be32 (drop HEADER_OFFSET_FLAGS hb))
                                  PERSISTENT_FILE_TYPES = 0))) eqn:E; [reflexivity|].
  destruct Hcase as [[H0 Hfl] | Hdg].
  - exfalso. apply andb_false_iff in E as [E|E].
    + apply bool_decide_eq_false_1 in E. apply E. split; [exact H0|].
      intros Hnone. apply lookup_ge_None in Hnone. rewrite Hlen in Hnone.
      unfold HEADER_CORPUS_SIZE, HEADER_MAX_PATH_SIZE, HEADER_FLAGS_SIZE in Hnone. lia.
    + apply orb_false_iff in E as [E1 E2].
      apply bool_decide_eq_false_1 in E1. apply bool_decide_eq_false_1 in E2.
      destruct Hfl as [H|H]; [exact (E1 H) | exact (E2 H)].
  - rewrite bool_decide_eq_false_2 by exact Hdg. reflexivity.
Qed.

Lemma X18_refused_header_throws_witness :
  mapSAHToName pool_temp_file !! 0%nat = Some "n1" ∧
  dir_lookup "n1" (dirEntries pool_temp_file) = Some temp_slot ∧
  length (apBody pool_temp_file) = HEADER_CORPUS_SIZE ∧
  (HEADER_CORPUS_SIZE <= length temp_slot)%nat ∧
  ((take HEADER_CORPUS_SIZE temp_slot !! 0%nat ≠ Some 0 ∧
    (Z.land (of_be32 (drop HEADER_OFFSET_FLAGS (take HEADER_CORPUS_SIZE temp_slot)))
            SQLITE_OPEN_DELETEONCLOSE ≠ 0
     ∨ Z.land (of_be32 (drop HEADER_OFFSET_FLAGS (take HEADER_CORPUS_SIZE temp_slot)))
              PERSISTENT_FILE_TYPES = 0))
   ∨ (of_le32 (overlay (sah_read temp_slot HEADER_OFFSET_DIGEST HEADER_DIGEST_SIZE)
                       (replicate HEADER_DIGEST_SIZE 0)),
      of_le32 (drop 4 (overlay (sah_read temp_slot HEADER_OFFSET_DIGEST HEADER_DIGEST_SIZE)
                               (replicate HEADER_DIGEST_SIZE 0))))
     ≠ computeDigest (take HEADER_CORPUS_SIZE temp_slot)) ∧
  getAssociatedPath 0%nat pool_temp_file
  = (Throw ReferenceError,
     set_apBody (fun _ => take HEADER_CORPUS_SIZE temp_slot) pool_temp_file).
Proof.
  assert (H1 : mapSAHToName pool_temp_file !! 0%nat = Some "n1") by (vm_compute; reflexivity).
  assert (H2 : dir_lookup "n1" (dirEntries pool_temp_file) = Some temp_slot)
    by (vm_compute; reflexivity).
  assert (H3 : length (apBody pool_temp_file) = HEADER_CORPUS_SIZE)
    by (vm_compute; reflexivity).
  assert (H4 : (HEADER_CORPUS_SIZE <= length temp_slot)%nat) by (vm_compute; lia).
  assert (H5 : (take HEADER_CORPUS_SIZE temp_slot !! 0%nat ≠ Some 0 ∧
    (Z.land (of_be32 (drop HEADER_OFFSET_FLAGS (take HEADER_CORPUS_SIZE temp_slot)))
            SQLITE_OPEN_DELETEONCLOSE ≠ 0
     ∨ Z.land (of_be32 (drop HEADER_OFFSET_FLAGS (take HEADER_CORPUS_SIZE temp_slot)))
              PERSISTENT_FILE_TYPES = 0))
   ∨ (of_le32 (overlay (sah_read temp_slot HEADER_OFFSET_DIGEST HEADER_DIGEST_SIZE)
                       (replicate HEADER_DIGEST_SIZE 0)),
      of_le32 (drop 4 (overlay (sah_read temp_slot HEADER_OFFSET_DIGEST HEADER_DIGEST_SIZE)
                               (replicate HEADER_DIGEST_SIZE 0))))
     ≠ computeDigest (take HEADER_CORPUS_SIZE temp_slot)).
  { left. split; [vm_compute; discriminate|]. left. vm_compute. discriminate. }
  exact (conj H1 (conj H2 (conj H3 (conj H4 (conj H5
           (X18_refused_header_throws pool_temp_file 0%nat "n1" temp_slot
              H1 H2 H3 H4 H5)))))).
Defined.

(** ** X19: what a rescan finds *)

(** X19. Let every entry of the directory of a reachable pool be the slot
    of a file (a header with its digest, a zero-terminated name that
    [TextDecoder] gives back, a persistent file type, no delete-on-close
    bit) or a free slot (a header with its digest whose first byte is
    zero), the files having different names. Then [reset(false)]
    succeeds: the capacity is the number of entries and used plus
    available slots make it up; every file is mapped to a handle that is
    open on its entry, the entry has not changed, and [exportFile]
    returns its bytes from offset 4096 on; every free slot is available;
    no other name is mapped. *)
Theorem X19_reset_finds_the_files (st : St) (paths : list (option string)) :
  reachable st ->
  Forall2 scan_ok (dirEntries st) paths ->
  NoDup (omap id paths) ->
  ∃ st',
    reset false st = (Ok tt, st') ∧
    getCapacity st' = length (dirEntries st) ∧
    (getFileCount st' + length (availableSAH st') = getCapacity st')%nat ∧
    (∀ i nm c path, dirEntries st !! i = Some (nm, c) -> paths !! i = Some (Some path) ->
       ∃ ah, mapFilenameToSAH st' !! path = Some ah ∧
             mapSAHToName st' !! ah = Some nm ∧
             dir_lookup nm (dirEntries st') = Some c ∧
             exportFile path st' = (Ok (drop HEADER_OFFSET_DATA c), st')) ∧
    (∀ i nm c, dirEntries st !! i = Some (nm, c) -> paths !! i = Some None ->
       ∃ ah, ah ∈ availableSAH st' ∧ mapSAHToName st' !! ah = Some nm) ∧
    (∀ p, Some p ∉ paths -> mapFilenameToSAH st' !! p = None).
Proof.
  intros Hreach Hscan Hnd. pose proof (reachable_wf st Hreach) as Hwf.
  destruct (reset_scan st paths Hwf Hscan Hnd)
    as (st' & Hrun & _ & Hcnt & _ & _ & Hcap & Hfile & Hfree & Hnone).
  exists st'. split; [exact Hrun|]. split; [exact Hcap|]. split; [exact Hcnt|].
  split.
  { intros i nm c path Hi Hp. destruct (Hfile i nm c path Hi Hp) as (Hu & Hn & Hd).
    exists (sahCount st + i)%nat. split; [exact Hu|]. split; [exact Hn|]. split; [exact Hd|].
    exact (exportFile_live st' path _ nm c Hu Hn Hd). }
  split; [|exact Hnone].
  intros i nm c Hi Hp. destruct (Hfree i nm c Hi Hp) as (Ha & Hn). eauto.
Qed.

Lemma X19_reset_finds_the_files_witness :
  reachable pool_three_slots ∧
  Forall2 scan_ok (dirEntries pool_three_slots) [Some "/a"; None; None] ∧
  NoDup (omap id [Some "/a"; None; None]) ∧
  ∃ st',
    reset false pool_three_slots = (Ok tt, st') ∧
    getCapacity st' = length (dirEntries pool_three_slots) ∧
    (getFileCount st' + length (availableSAH st') = getCapacity st')%nat ∧
    (∀ i nm c path, dirEntries pool_three_slots !! i = Some (nm, c) ->
       [Some "/a"; None; None] !! i = Some (Some path) ->
       ∃ ah, mapFilenameToSAH st' !! path = Some ah ∧
             mapSAHToName st' !! ah = Some nm ∧
             dir_lookup nm (dirEntries st') = Some c ∧
             exportFile path st' = (Ok (drop HEADER_OFFSET_DATA c), st')) ∧
    (∀ i nm c, dirEntries pool_three_slots !! i = Some (nm, c) ->
       [Some "/a"; None; None] !! i = Some None ->
       ∃ ah, ah ∈ availableSAH st' ∧ mapSAHToName st' !! ah = Some nm) ∧
    (∀ p, Some p ∉ [Some "/a"; None; None] -> mapFilenameToSAH st' !! p = None).
Proof.
  assert (H1 : reachable pool_three_slots) by (eexists; reflexivity).
  assert (H2 : Forall2 scan_ok (dirEntries pool_three_slots) [Some "/a"; None; None]).
  { assert (Hd : dirEntries pool_three_slots
                 = [("n1", slot_content "n1" pool_three_slots);
                    ("n2", slot_content "n2" pool_three_slots);
                    ("n3", slot_content "n3" pool_three_slots)]) by (vm_compute; reflexivity).
    rewrite Hd. constructor; [|constructor; [|constructor; [|constructor]]];
      unfold scan_ok, slot_of_file, slot_free, holds_header; cbn [snd]; cbv zeta.
    - split; [split; [vm_compute; reflexivity | split; vm_compute; reflexivity]|].
      split; [discriminate|]. split; [vm_compute; lia|].
      split; [vm_compute; repeat constructor; discriminate|].
      split; [vm_compute; reflexivity|]. split; [vm_compute; reflexivity|].
      split; [vm_compute; reflexivity|]. split; [vm_compute; discriminate|].
      vm_compute; reflexivity.
    - split; [split; [vm_compute; reflexivity | split; vm_compute; reflexivity]|].
      vm_compute; reflexivity.
    - split; [split; [vm_compute; reflexivity | split; vm_compute; reflexivity]|].
      vm_compute; reflexivity. }
  assert (H3 : NoDup (omap id [Some "/a"; None; None])).
  { cbn. apply NoDup_singleton. }
  exact (conj H1 (conj H2 (conj H3
           (X19_reset_finds_the_files pool_three_slots [Some "/a"; None; None] H1 H2 H3)))).
Defined.

(** ** X20: a new session over the directory of an old one *)

(** X20. Under the hypotheses of X19 on a directory that is not empty, a
    new pool object over that directory becomes ready without adding
    capacity, whatever [initialCapacity] is: the capacity is the number of
    entries, every file is mapped to a handle on its unchanged entry and
    [exportFile] returns its payload, every free slot is available, no
    file object is open and no error is stored. *)
Theorem X20_new_session_finds_the_files (st : St) (paths : list (option string))
    (initialCapacity : list Name) :
  reachable st ->
  dirEntries st ≠ [] ->
  Forall2 scan_ok (dirEntries st) paths ->
  NoDup (omap id paths) ->
  ∃ st',
    OpfsSAHPool_isReady false initialCapacity (new_pool (dirEntries st)) = (Ok tt, st') ∧
    exec (OpRestart false initialCapacity) st = st' ∧
    getCapacity st' = length (dirEntries st) ∧
    (getFileCount st' + length (availableSAH st') = getCapacity st')%nat ∧
    mapIdToFile st' = ∅ ∧ err st' = None ∧
    (∀ i nm c path, dirEntries st !! i = Some (nm, c) -> paths !! i = Some (Some path) ->
       ∃ ah, mapFilenameToSAH st' !! path = Some ah ∧
             mapSAHToName st' !! ah = Some nm ∧
             dir_lookup nm (dirEntries st') = Some c ∧
             exportFile path st' = (Ok (drop HEADER_OFFSET_DATA c), st')) ∧
    (∀ i nm c, dirEntries st !! i = Some (nm, c) -> paths !! i = Some None ->
       ∃ ah, ah ∈ availableSAH st' ∧ mapSAHToName st' !! ah = Some nm) ∧
    (∀ p, Some p ∉ paths -> mapFilenameToSAH st' !! p = None).
Proof.
  intros Hreach Hdir Hscan Hnd. pose proof (reachable_wf st Hreach) as Hwf.
  assert (Hwf0 : wf (new_pool (dirEntries st)))
    by (apply wf_new_pool; exact (wf_dir_nodup st Hwf)).
  destruct (reset_scan (new_pool (dirEntries st)) paths Hwf0 Hscan Hnd)
    as (st' & Hrun & _ & Hcnt & He & Hf & Hcap & Hfile & Hfree & Hnone).
  cbn [new_pool dirEntries err mapIdToFile sahCount] in *.
  assert (Hready : OpfsSAHPool_isReady false initialCapacity (new_pool (dirEntries st))
                   = (Ok tt, st')).
  { unfold OpfsSAHPool_isReady. rewrite (bind_ok _ _ _ _ _ Hrun).
    rewrite bind_gets, He, bind_gets.
    rewrite bool_decide_eq_true_2; [reflexivity|].
    rewrite Hcap. destruct (dirEntries st); [contradiction | discriminate]. }
  exists st'. split; [exact Hready|].
  split; [cbn [exec]; rewrite Hready; reflexivity|].
  split; [exact Hcap|]. split; [exact Hcnt|]. split; [exact Hf|]. split; [exact He|].
  split.
  { intros i nm c path Hi Hp. destruct (Hfile i nm c path Hi Hp) as (Hu & Hn & Hd).
    eexists. split; [exact Hu|]. split; [exact Hn|]. split; [exact Hd|].
    exact (exportFile_live st' path _ nm c Hu Hn Hd). }
  split; [|exact Hnone].
  intros i nm c Hi Hp. destruct (Hfree i nm c Hi Hp) as (Ha & Hn). eauto.
Qed.

Lemma X20_new_session_finds_the_files_witness :
  reachable pool_one_file ∧
  dirEntries pool_one_file ≠ [] ∧
  Forall2 scan_ok (dirEntries pool_one_file) [Some "/a"] ∧
  NoDup (omap id [Some "/a"]) ∧
  ∃ st',
    OpfsSAHPool_isReady false ["n9"] (new_pool (dirEntries pool_one_file)) = (Ok tt, st') ∧
    exec (OpRestart false ["n9"]) pool_one_file = st' ∧
    getCapacity st' = length (dirEntries pool_one_file) ∧
    (getFileCount st' + length (availableSAH st') = getCapacity st')%nat ∧
    mapIdToFile st' = ∅ ∧ err st' = None ∧
    (∀ i nm c path, dirEntries pool_one_file !! i = Some (nm, c) ->
       [Some "/a"] !! i = Some (Some path) ->
       ∃ ah, mapFilenameToSAH st' !! path = Some ah ∧
             mapSAHToName st' !! ah = Some nm ∧
             dir_lookup nm (dirEntries st') = Some c ∧
             exportFile path st' = (Ok (drop HEADER_OFFSET_DATA c), st')) ∧
    (∀ i nm c, dirEntries pool_one_file !! i = Some (nm, c) ->
       [Some "/a"] !! i = Some None ->
       ∃ ah, ah ∈ availableSAH st' ∧ mapSAHToName st' !! ah = Some nm) ∧
    (∀ p, Some p ∉ [Some "/a"] -> mapFilenameToSAH st' !! p = None).
Proof.
  assert (H1 : reachable pool_one_file) by (eexists; reflexivity).
  assert (Hd : dirEntries pool_one_file = [("n1", slot_content "n1" pool_one_file)])
    by (vm_compute; reflexivity).
  assert (H0 : dirEntries pool_one_file ≠ []) by (rewrite Hd; discriminate).
  assert (H2 : Forall2 scan_ok (dirEntries pool_one_file) [Some "/a"]).
  { rewrite Hd. constructor; [|constructor].
    unfold scan_ok, slot_of_file, slot_free, holds_header; cbn [snd]; cbv zeta.
    split; [split; [vm_compute; reflexivity | split; vm_compute; reflexivity]|].
    split; [discriminate|]. split; [vm_compute; lia|].
    split; [vm_compute; repeat constructor; discriminate|].
    split; [vm_compute; reflexivity|]. split; [vm_compute; reflexivity|].
    split; [vm_compute; reflexivity|]. split; [vm_compute; discriminate|].
    vm_compute; reflexivity. }
  assert (H3 : NoDup (omap id [Some "/a"])).
  { cbn. apply NoDup_singleton. }
  exact (conj H1 (conj H0 (conj H2 (conj H3
           (X20_new_session_finds_the_files pool_one_file [Some "/a"] ["n9"] H1 H0 H2 H3))))).
Defined.

(** ** X21: the first session *)

(** X21. A new pool object over an empty directory becomes ready with
    [initialCapacity] slots, for distinct random names: all of them are
    available, in the order of their creation, no name is mapped, and
    every entry is 4096 bytes long. *)
Theorem X21_first_session_adds_the_initial_capacity (clearOnInit : bool)
    (initialCapacity : list Name) :
  NoDup initialCapacity ->
  ∃ st',
    OpfsSAHPool_isReady clearOnInit initialCapacity (new_pool []) = (Ok tt, st') ∧
    getCapacity st' = length initialCapacity ∧
    getFileCount st' = 0%nat ∧
    availableSAH st' = seq 0 (length initialCapacity) ∧
    (∀ i nm, initialCapacity !! i = Some nm ->
       mapSAHToName st' !! i = Some nm ∧
       ∃ c, dir_lookup nm (dirEntries st') = Some c ∧ length c = HEADER_OFFSET_DATA).
Proof.
  intros Hnd.
  assert (Hwf0 : wf (new_pool [])) by (apply wf_new_pool; constructor).
  assert (Hreset : reset clearOnInit (new_pool []) = (Ok tt, new_pool [])) by reflexivity.
  destruct (addCapacity_fresh initialCapacity (new_pool []) Hwf0 Hnd)
    as (st' & Hrun & _ & Hcap & Hu & Ha & _ & _ & _ & _ & Hnew & Hdir & _).
  { intros nm _. apply holds_lock_false. intros ah Hah. cbn [new_pool mapSAHToName] in Hah.
    rewrite lookup_empty in Hah. discriminate. }
  exists st'. split.
  { unfold OpfsSAHPool_isReady. rewrite (bind_ok _ _ _ _ _ Hreset).
    rewrite bind_gets. cbn [new_pool err]. rewrite bind_gets.
    rewrite bool_decide_eq_false_2 by (intros H; apply H; reflexivity).
    rewrite (bind_ok _ _ _ _ _ Hrun). reflexivity. }
  split; [rewrite Hcap; reflexivity|].
  split; [unfold getFileCount; rewrite Hu; reflexivity|].
  split; [rewrite Ha; reflexivity|].
  intros i nm Hi. split; [exact (Hnew i nm Hi)|].
  apply Hdir. eapply list_elem_of_lookup_2. exact Hi.
Qed.

Lemma X21_first_session_adds_the_initial_capacity_witness :
  NoDup ["n1"; "n2"] ∧
  ∃ st',
    OpfsSAHPool_isReady true ["n1"; "n2"] (new_pool []) = (Ok tt, st') ∧
    getCapacity st' = length ["n1"; "n2"] ∧
    getFileCount st' = 0%nat ∧
    availableSAH st' = seq 0 (length ["n1"; "n2"]) ∧
    (∀ i nm, ["n1"; "n2"] !! i = Some nm ->
       mapSAHToName st' !! i = Some nm ∧
       ∃ c, dir_lookup nm (dirEntries st') = Some c ∧ length c = HEADER_OFFSET_DATA).
Proof.
  assert (H1 : NoDup ["n1"; "n2"]).
  { apply NoDup_cons. split; [|apply NoDup_singleton].
    intros H. apply list_elem_of_singleton in H. discriminate. }
  exact (conj H1 (X21_first_session_adds_the_initial_capacity true ["n1"; "n2"] H1)).
Defined.

(** ** X22: file objects that outlive a wipe *)

(** X22. [wipeFiles] leaves the open file objects registered but closes
    their handles. For a file object that was open on a handle of the
    pool, every later call fails on the closed handle: [xSync],
    [xWrite], [xRead], [xTruncate] and [xClose] return [SQLITE_IOERR] and
    store the [InvalidStateError], [xRead] leaves the destination as it
    was, [xClose] leaves the file object registered, and [xFileSize],
    which catches nothing, throws. *)
Theorem X22_wipeFiles_closes_the_handles_of_open_files (st : St) (pFile : Z)
    (f : OpenFile) (src dest : list Z) (offset64 sz64 : Z) :
  reachable st ->
  mapIdToFile st !! pFile = Some f ->
  is_Some (mapSAHToName st !! file_sah f) ->
  0 <= offset64 -> 0 <= sz64 ->
  ∃ st1,
    wipeFiles st = (Ok tt, st1) ∧
    mapIdToFile st1 !! pFile = Some f ∧
    xSync pFile st1 = (Ok SQLITE_IOERR, set_err (Some InvalidStateError) st1) ∧
    xWrite pFile src offset64 st1 = (Ok SQLITE_IOERR, set_err (Some InvalidStateError) st1) ∧
    xRead pFile dest offset64 st1
      = (Ok (SQLITE_IOERR, dest), set_err (Some InvalidStateError) st1) ∧
    xTruncate pFile sz64 st1 = (Ok SQLITE_IOERR, set_err (Some InvalidStateError) st1) ∧
    xClose pFile st1 = (Ok SQLITE_IOERR, set_err (Some InvalidStateError) st1) ∧
    xFileSize pFile st1 = (Throw InvalidStateError, st1).
Proof.
  intros Hreach Hf Hlive Hoff Hsz. pose proof (reachable_wf st Hreach) as Hwf.
  destruct (reset_clear st Hwf)
    as (st1 & Hrun & _ & _ & _ & _ & _ & Hfiles & _ & _ & Hold & _ & _).
  assert (Hdead : mapSAHToName st1 !! file_sah f = None)
    by (apply Hold; exact (wf_names_fresh st Hwf _ Hlive)).
  assert (Hf1 : mapIdToFile st1 !! pFile = Some f) by (rewrite Hfiles; exact Hf).
  assert (Hc : sah_content (file_sah f) (set_err None st1)
               = (Throw InvalidStateError, set_err None st1))
    by (apply sah_content_dead; exact Hdead).
  assert (Hf0 : mapIdToFile (set_err None st1) !! pFile = Some f) by exact Hf1.
  assert (Hse : set_err (Some InvalidStateError) (set_err None st1)
                = set_err (Some InvalidStateError) st1) by (destruct st1; reflexivity).
  assert (Hat : (Z.of_nat HEADER_OFFSET_DATA + offset64 <? 0) = false)
    by (apply Z.ltb_ge; unfold HEADER_OFFSET_DATA; lia).
  assert (Hst : (Z.of_nat HEADER_OFFSET_DATA + sz64 <? 0) = false)
    by (apply Z.ltb_ge; unfold HEADER_OFFSET_DATA; lia).
  exists st1. split; [exact Hrun|]. split; [exact Hf1|].
  split; [|split; [|split; [|split; [|split]]]].
  - unfold xSync, storeErr. rewrite bind_modify, bind_gets, Hf0.
    unfold deref, try_catch, sahFlush. rewrite bind_ret.
    rewrite (bind_throw _ _ _ _ _ (bind_throw _ _ _ _ _ Hc)). rewrite bind_modify, Hse. reflexivity.
  - unfold xWrite, storeErr. rewrite bind_modify, bind_gets, Hf0.
    unfold deref, try_catch, sahWrite. rewrite bind_ret. cbv zeta. rewrite Hat.
    rewrite (bind_throw _ _ _ _ _ (bind_throw _ _ _ _ _ Hc)). rewrite bind_modify, Hse. reflexivity.
  - unfold xRead, storeErr. rewrite bind_modify, bind_gets, Hf0.
    unfold deref, try_catch, sahRead. rewrite bind_ret. cbv zeta. rewrite Hat.
    rewrite (bind_throw _ _ _ _ _ (bind_throw _ _ _ _ _ Hc)). rewrite bind_modify, Hse. reflexivity.
  - unfold xTruncate, storeErr. rewrite bind_modify, bind_gets, Hf0.
    unfold deref, try_catch, sahTruncate. rewrite bind_ret. cbv zeta. rewrite Hst.
    rewrite (bind_throw _ _ _ _ _ (bind_throw _ _ _ _ _ Hc)). rewrite bind_modify, Hse. reflexivity.
  - unfold xClose, storeErr. rewrite bind_modify, bind_gets, Hf0.
    unfold try_catch, sahFlush.
    rewrite (bind_throw _ _ _ _ _ (bind_throw _ _ _ _ _ Hc)). rewrite bind_modify, Hse. reflexivity.
  - assert (Hc1 : sah_content (file_sah f) st1 = (Throw InvalidStateError, st1))
      by (apply sah_content_dead; exact Hdead).
    unfold xFileSize. rewrite bind_gets, Hf1. unfold deref, sahGetSize. rewrite bind_ret.
    rewrite (bind_throw _ _ _ _ _ (bind_throw _ _ _ _ _ Hc1)). reflexivity.
Qed.

Lemma X22_wipeFiles_closes_the_handles_of_open_files_witness :
  reachable pool_three_slots ∧
  mapIdToFile pool_three_slots !! 100 = Some (mkOpenFile "/a" OPEN_MAIN_DB_CREATE 0%nat 0) ∧
  is_Some (mapSAHToName pool_three_slots
             !! file_sah (mkOpenFile "/a" OPEN_MAIN_DB_CREATE 0%nat 0)) ∧
  0 <= 0 ∧ 0 <= 8 ∧
  ∃ st1,
    wipeFiles pool_three_slots = (Ok tt, st1) ∧
    mapIdToFile st1 !! 100 = Some (mkOpenFile "/a" OPEN_MAIN_DB_CREATE 0%nat 0) ∧
    xSync 100 st1 = (Ok SQLITE_IOERR, set_err (Some InvalidStateError) st1) ∧
    xWrite 100 [7] 0 st1 = (Ok SQLITE_IOERR, set_err (Some InvalidStateError) st1) ∧
    xRead 100 [9; 9] 0 st1
      = (Ok (SQLITE_IOERR, [9; 9]), set_err (Some InvalidStateError) st1) ∧
    xTruncate 100 8 st1 = (Ok SQLITE_IOERR, set_err (Some InvalidStateError) st1) ∧
    xClose 100 st1 = (Ok SQLITE_IOERR, set_err (Some InvalidStateError) st1) ∧
    xFileSize 100 st1 = (Throw InvalidStateError, st1).
Proof.
  assert (H1 : reachable pool_three_slots) by (eexists; reflexivity).
  assert (H2 : mapIdToFile pool_three_slots !! 100
               = Some (mkOpenFile "/a" OPEN_MAIN_DB_CREATE 0%nat 0))
    by (vm_compute; reflexivity).
  assert (H3 : is_Some (mapSAHToName pool_three_slots
                          !! file_sah (mkOpenFile "/a" OPEN_MAIN_DB_CREATE 0%nat 0)))
    by (exists "n1"; vm_compute; reflexivity).
  assert (H4 : 0 <= 0) by lia.
  assert (H5 : 0 <= 8) by lia.
  exact (conj H1 (conj H2 (conj H3 (conj H4 (conj H5
    (X22_wipeFiles_closes_the_handles_of_open_files pool_three_slots 100
       (mkOpenFile "/a" OPEN_MAIN_DB_CREATE 0%nat 0) [7] [9; 9] 0 8 H1 H2 H3 H4 H5)))))).
Defined.

(** ** X23: locks *)

(** X23. Locks are bookkeeping of the file object and exclude nothing:
    for two distinct open file objects, on the same file or not, [xLock]
    of one and then of the other succeeds for any two lock types; each
    object then has its lock type, and its path, flags and handle as
    before, no other file object and nothing of the pool's storage has
    changed, and [xUnlock] of the first to its former lock type gives
    back its former file object. *)
Theorem X23_locks_exclude_nothing (st : St) (p1 p2 : Z) (f1 f2 : OpenFile)
    (l1 l2 : Z) :
  mapIdToFile st !! p1 = Some f1 ->
  mapIdToFile st !! p2 = Some f2 ->
  p1 ≠ p2 ->
  ∃ st1 st2 st3,
    xLock p1 l1 st = (Ok SQLITE_OK, st1) ∧
    xLock p2 l2 st1 = (Ok SQLITE_OK, st2) ∧
    xUnlock p1 (file_lockType f1) st2 = (Ok SQLITE_OK, st3) ∧
    mapIdToFile st2 !! p1
      = Some (mkOpenFile (file_path f1) (file_flags f1) (file_sah f1) l1) ∧
    mapIdToFile st2 !! p2
      = Some (mkOpenFile (file_path f2) (file_flags f2) (file_sah f2) l2) ∧
    mapIdToFile st3 !! p1 = Some f1 ∧
    (∀ q, q ≠ p1 -> q ≠ p2 -> mapIdToFile st2 !! q = mapIdToFile st !! q) ∧
    mapSAHToName st2 = mapSAHToName st ∧
    mapFilenameToSAH st2 = mapFilenameToSAH st ∧
    availableSAH st2 = availableSAH st ∧
    dirEntries st2 = dirEntries st.
Proof.
  intros H1 H2 Hne.
  set (g1 := mkOpenFile (file_path f1) (file_flags f1) (file_sah f1) l1).
  set (g2 := mkOpenFile (file_path f2) (file_flags f2) (file_sah f2) l2).
  set (st1 := set_mapIdToFile (insert p1 g1) (set_err None st)).
  set (st2 := set_mapIdToFile (insert p2 g2) (set_err None st1)).
  set (st3 := set_mapIdToFile (insert p1 f1) st2).
  assert (Hm1 : mapIdToFile st1 = <[p1 := g1]> (mapIdToFile st))
    by (destruct st; reflexivity).
  assert (Hm2 : mapIdToFile st2 = <[p2 := g2]> (<[p1 := g1]> (mapIdToFile st)))
    by (destruct st; reflexivity).
  assert (Hg1 : mapIdToFile st2 !! p1 = Some g1).
  { rewrite Hm2, lookup_insert_ne by (intros E; apply Hne; symmetry; exact E).
    apply lookup_insert_eq. }
  assert (Hg2 : mapIdToFile st2 !! p2 = Some g2)
    by (rewrite Hm2; apply lookup_insert_eq).
  exists st1, st2, st3.
  split.
  { unfold xLock, storeErr. rewrite bind_modify, bind_gets.
    replace (mapIdToFile (set_err None st)) with (mapIdToFile st) by (destruct st; reflexivity).
    rewrite H1. unfold deref. rewrite bind_ret, bind_modify. reflexivity. }
  split.
  { unfold xLock, storeErr. rewrite bind_modify, bind_gets.
    replace (mapIdToFile (set_err None st1)) with (mapIdToFile st1)
      by (destruct st; reflexivity).
    rewrite Hm1, lookup_insert_ne by exact Hne.
    rewrite H2. unfold deref. rewrite bind_ret, bind_modify. reflexivity. }
  split.
  { unfold xUnlock. rewrite bind_gets, Hg1. unfold deref. rewrite bind_ret, bind_modify.
    unfold st3, g1. cbn [file_path file_flags file_sah]. destruct f1; reflexivity. }
  split; [exact Hg1|]. split; [exact Hg2|].
  split.
  { replace (mapIdToFile st3) with (<[p1 := f1]> (mapIdToFile st2))
      by (destruct st; reflexivity).
    apply lookup_insert_eq. }
  split.
  { intros q Hq1 Hq2. rewrite Hm2.
    rewrite !lookup_insert_ne by congruence.
    reflexivity. }
  repeat split; destruct st; reflexivity.
Qed.

Lemma X23_locks_exclude_nothing_witness :
  mapIdToFile pool_two_objects !! 100 = Some (mkOpenFile "/a" OPEN_MAIN_DB_CREATE 0%nat 0) ∧
  mapIdToFile pool_two_objects !! 101 = Some (mkOpenFile "/a" OPEN_MAIN_DB_CREATE 0%nat 0) ∧
  100 ≠ 101 ∧
  ∃ st1 st2 st3,
    xLock 100 4 pool_two_objects = (Ok SQLITE_OK, st1) ∧
    xLock 101 4 st1 = (Ok SQLITE_OK, st2) ∧
    xUnlock 100 0 st2 = (Ok SQLITE_OK, st3) ∧
    mapIdToFile st2 !! 100 = Some (mkOpenFile "/a" OPEN_MAIN_DB_CREATE 0%nat 4) ∧
    mapIdToFile st2 !! 101 = Some (mkOpenFile "/a" OPEN_MAIN_DB_CREATE 0%nat 4) ∧
    mapIdToFile st3 !! 100 = Some (mkOpenFile "/a" OPEN_MAIN_DB_CREATE 0%nat 0) ∧
    (∀ q, q ≠ 100 -> q ≠ 101 -> mapIdToFile st2 !! q = mapIdToFile pool_two_objects !! q) ∧
    mapSAHToName st2 = mapSAHToName pool_two_objects ∧
    mapFilenameToSAH st2 = mapFilenameToSAH pool_two_objects ∧
    availableSAH st2 = availableSAH pool_two_objects ∧
    dirEntries st2 = dirEntries pool_two_objects.
Proof.
  assert (H1 : mapIdToFile pool_two_objects !! 100
               = Some (mkOpenFile "/a" OPEN_MAIN_DB_CREATE 0%nat 0))
    by (vm_compute; reflexivity).
  assert (H2 : mapIdToFile pool_two_objects !! 101
               = Some (mkOpenFile "/a" OPEN_MAIN_DB_CREATE 0%nat 0))
    by (vm_compute; reflexivity).
  assert (H3 : (100 : Z) ≠ 101) by lia.
  exact (conj H1 (conj H2 (conj H3
    (X23_locks_exclude_nothing pool_two_objects 100 101
       (mkOpenFile "/a" OPEN_MAIN_DB_CREATE 0%nat 0)
       (mkOpenFile "/a" OPEN_MAIN_DB_CREATE 0%nat 0) 4 4 H1 H2 H3)))).
Defined.
